(** * sqlgen: the statement generator of clustered-index-rand-test

    A shallow embedding of [sqlgen/start.go].  The productions of that file
    are translated one by one; the combinator library, the catalog and the
    scope store they call live in other files of the package and are modelled
    from the specification (each such definition says so). *)

From Stdlib Require Import String Ascii List ZArith Lia Bool Arith DecimalString.
Import ListNotations.
Open Scope string_scope.
Open Scope Z_scope.

Set Implicit Arguments.

(* ================================================================== *)
(** ** Strings *)

(** [strings.Contains]. *)
Fixpoint Contains (s substr : string) : bool :=
  prefix substr s ||
  match s with
  | EmptyString => false
  | String _ rest => Contains rest substr
  end.

Definition lowerAscii (c : ascii) : ascii :=
  let n := nat_of_ascii c in
  if (Nat.leb 65 n && Nat.leb n 90)%bool then ascii_of_nat (n + 32) else c.

(** [strings.ToLower], on the ASCII letters. *)
Fixpoint ToLower (s : string) : string :=
  match s with
  | EmptyString => EmptyString
  | String c rest => String (lowerAscii c) (ToLower rest)
  end.

(** [fmt.Sprintf("%d", n)]. *)
Definition itoa (n : Z) : string := NilZero.string_of_int (Z.to_int n).

Definition isEmptyStr (s : string) : bool :=
  match s with EmptyString => true | _ => false end.

(** Emitted SQL is plain text whose tokens are separated by single spaces:
    the pieces that are empty leave no token behind. *)
Definition joinTokens (parts : list string) : string :=
  String.concat " " (filter (fun p => negb (isEmptyStr p)) parts).

(* ================================================================== *)
(** ** Catalog entities *)

(** Modelled from the spec: the type tag of a column (the declaration is in
    another file of the package). *)
Inductive ColumnType :=
| ColumnTypeInt | ColumnTypeChar | ColumnTypeDatetime | ColumnTypeFloat
| ColumnTypeDecimal | ColumnTypeBlob | ColumnTypeEnum.

Definition ColumnType_eqb (a b : ColumnType) : bool :=
  match a, b with
  | ColumnTypeInt, ColumnTypeInt | ColumnTypeChar, ColumnTypeChar
  | ColumnTypeDatetime, ColumnTypeDatetime | ColumnTypeFloat, ColumnTypeFloat
  | ColumnTypeDecimal, ColumnTypeDecimal | ColumnTypeBlob, ColumnTypeBlob
  | ColumnTypeEnum, ColumnTypeEnum => true
  | _, _ => false
  end.

Definition IsStringType (t : ColumnType) : bool :=
  match t with ColumnTypeChar | ColumnTypeBlob => true | _ => false end.

Definition IsIntegerType (t : ColumnType) : bool :=
  match t with ColumnTypeInt => true | _ => false end.

Record Column := mkColumn {
  ColId : Z;
  ColName : string;
  ColTp : ColumnType;
  ColNullable : bool;
  ColDefaultVal : string
}.

Inductive IndexType := IndexTypeNonUnique | IndexTypeUnique | IndexTypePrimary.

Definition IndexType_eqb (a b : IndexType) : bool :=
  match a, b with
  | IndexTypeNonUnique, IndexTypeNonUnique
  | IndexTypeUnique, IndexTypeUnique
  | IndexTypePrimary, IndexTypePrimary => true
  | _, _ => false
  end.

Record Index := mkIndex {
  IdxId : Z;
  IdxName : string;
  IdxTp : IndexType;
  IdxColumns : list Column
}.

(** Tables and prepared statements are Go pointers: they live in a store and
    are referred to by their address. *)
Definition TablePtr := nat.
Definition PreparePtr := nat.

Record Table := mkTable {
  TblId : Z;
  TblName : string;
  Columns : list Column;
  Indices : list Index;
  PartitionColumns : list Column;
  values : list (list string);
  colForPrefixIndex : list Column;
  childTables : list TablePtr
}.

Record Prepare := mkPrepare {
  PrepId : Z;
  PrepName : string;
  PrepArgs : list Column
}.

(** Modelled from the spec: a primary index is unique. *)
Definition IsUnique (idx : Index) : bool :=
  match IdxTp idx with IndexTypeNonUnique => false | _ => true end.

Definition IndexContainsColumn (idx : Index) (c : Column) : bool :=
  existsb (fun c' => ColId c' =? ColId c) (IdxColumns idx).

(** Modelled from the spec: [Index.AppendColumnIfNotExists]. *)
Definition AppendColumnIfNotExists (idx : Index) (c : Column) : Index :=
  if IndexContainsColumn idx c then idx
  else mkIndex (IdxId idx) (IdxName idx) (IdxTp idx) (IdxColumns idx ++ [c]).

Definition setColumns (cs : list Column) (t : Table) : Table :=
  mkTable (TblId t) (TblName t) cs (Indices t) (PartitionColumns t)
          (values t) (colForPrefixIndex t) (childTables t).

Definition setIndices (ixs : list Index) (t : Table) : Table :=
  mkTable (TblId t) (TblName t) (Columns t) ixs (PartitionColumns t)
          (values t) (colForPrefixIndex t) (childTables t).

Definition setPartitionColumns (cs : list Column) (t : Table) : Table :=
  mkTable (TblId t) (TblName t) (Columns t) (Indices t) cs
          (values t) (colForPrefixIndex t) (childTables t).

Definition setValues (vs : list (list string)) (t : Table) : Table :=
  mkTable (TblId t) (TblName t) (Columns t) (Indices t) (PartitionColumns t)
          vs (colForPrefixIndex t) (childTables t).

Definition setColForPrefixIndex (cs : list Column) (t : Table) : Table :=
  mkTable (TblId t) (TblName t) (Columns t) (Indices t) (PartitionColumns t)
          (values t) cs (childTables t).

Definition setChildTables (ps : list TablePtr) (t : Table) : Table :=
  mkTable (TblId t) (TblName t) (Columns t) (Indices t) (PartitionColumns t)
          (values t) (colForPrefixIndex t) ps.

(** Modelled from the spec: [GenNewTable] allocates an empty table named
    after its identifier. *)
Definition GenNewTable (id : Z) : Table :=
  mkTable id ("t" ++ itoa id) [] [] [] [] [] [].

(** Modelled from the spec: [GenNewPrepare]. *)
Definition GenNewPrepare (id : Z) : Prepare :=
  mkPrepare id ("p" ++ itoa id) [].

Definition AppendPartitionColumn (c : Column) (t : Table) : Table :=
  setPartitionColumns (PartitionColumns t ++ [c]) t.

(** Modelled from the spec: [Table.AppendIndex].  The spec attributes to it the
    injection of the missing partition columns into a unique index;
    [idxDef] below does that injection itself before the call.  Both
    behaviours are covered: [inject] says whether [AppendIndex] repeats it. *)
Definition AppendIndex (inject : bool) (idx : Index) (t : Table) : Table :=
  let idx' :=
    if (inject && IsUnique idx)%bool
    then fold_left AppendColumnIfNotExists (PartitionColumns t) idx
    else idx in
  setIndices (Indices t ++ [idx']) t.

Definition RemoveIndex (idx : Index) (t : Table) : Table :=
  setIndices (filter (fun i => negb (IdxId i =? IdxId idx)) (Indices t)) t.

Definition PrepareAppendColumns (cs : list Column) (p : Prepare) : Prepare :=
  mkPrepare (PrepId p) (PrepName p) (PrepArgs p ++ cs).

(* ================================================================== *)
(** ** Control surface *)

Record Weight := mkWeight {
  SetRowFormat : Z;
  SetClustered : Z;
  AdminCheck : Z;
  CreateTable : Z;
  CreateTable_WithoutLike : Z;
  CreateTable_MaxColumnCnt : Z;
  CreateTable_IndexMoreCol : Z;
  CreateTable_WithClusterHint : bool;
  CreateTable_Partition_Type : string;
  Query : Z;
  Query_DML : Z;
  Query_DDL : Z;
  Query_Split : Z;
  Query_Analyze : Z;
  Query_Prepare : Z;
  Query_Select : Z;
  Query_DML_DEL : Z;
  Query_DML_DEL_COMMON : Z;
  Query_DML_DEL_INDEX : Z;
  Query_DML_DEL_INDEX_COMMON : Z;
  Query_DML_INSERT : Z;
  Query_DML_INSERT_ON_DUP : Z;
  Query_DML_UPDATE : Z;
  Query_DML_Can_Be_Replace : bool;
  Query_HasOrderby : Z;
  Query_HasLimit : Z;
  Query_Union : Z;
  Query_Window : Z;
  Query_INDEX_MERGE : bool
}.

Record ControlOption := mkControlOption {
  InitTableCount : Z;
  InitColCount : Z;
  MaxTableNum : Z;
  StrictTransTable : bool;
  CanReadGCSavePoint : bool;
  EnableSelectOutFileAndLoadData : bool;
  EnableTestTiFlash : bool;
  EnableColumnTypeChange : bool;
  EnableAggPushDown : bool;
  AggType : string;
  CtrlWeight : Weight
}.

Definition setAgg (push : bool) (tp : string) (c : ControlOption) : ControlOption :=
  mkControlOption (InitTableCount c) (InitColCount c) (MaxTableNum c)
    (StrictTransTable c) (CanReadGCSavePoint c)
    (EnableSelectOutFileAndLoadData c) (EnableTestTiFlash c)
    (EnableColumnTypeChange c) push tp (CtrlWeight c).

(* ================================================================== *)
(** ** Scope store *)

Inductive ScopeKeyType :=
| ScopeKeyCurrentTable
| ScopeKeyCurrentMultiTable
| ScopeKeyCurrentPrepare
| ScopeKeyCurrentPartitionColumn
| ScopeKeyLastOutFileTable
| ScopeKeyLastDropTable
| ScopeKeyTableUniqID
| ScopeKeyColumnUniqID
| ScopeKeyIndexUniqID
| ScopeKeyPrepareID
| ScopeKeyTmpFileID.

Definition ScopeKey_eqb (a b : ScopeKeyType) : bool :=
  match a, b with
  | ScopeKeyCurrentTable, ScopeKeyCurrentTable
  | ScopeKeyCurrentMultiTable, ScopeKeyCurrentMultiTable
  | ScopeKeyCurrentPrepare, ScopeKeyCurrentPrepare
  | ScopeKeyCurrentPartitionColumn, ScopeKeyCurrentPartitionColumn
  | ScopeKeyLastOutFileTable, ScopeKeyLastOutFileTable
  | ScopeKeyLastDropTable, ScopeKeyLastDropTable
  | ScopeKeyTableUniqID, ScopeKeyTableUniqID
  | ScopeKeyColumnUniqID, ScopeKeyColumnUniqID
  | ScopeKeyIndexUniqID, ScopeKeyIndexUniqID
  | ScopeKeyPrepareID, ScopeKeyPrepareID
  | ScopeKeyTmpFileID, ScopeKeyTmpFileID => true
  | _, _ => false
  end.

(** A scope value is a tagged union; [ObjNil] is the nil-value sentinel. *)
Inductive ScopeObj :=
| ObjNil
| ObjTable (p : TablePtr)
| ObjTables (ps : list TablePtr)
| ObjPrepare (p : PreparePtr)
| ObjColumn (c : Column)
| ObjInt (n : Z).

Definition IsNil (o : ScopeObj) : bool :=
  match o with ObjNil => true | _ => false end.

(** A frame maps keys to values; the most recent binding of a key wins. *)
Definition Frame := list (ScopeKeyType * ScopeObj).

Fixpoint frameLookup (k : ScopeKeyType) (f : Frame) : option ScopeObj :=
  match f with
  | [] => None
  | (k', o) :: rest => if ScopeKey_eqb k k' then Some o else frameLookup k rest
  end.

Definition frameStore (k : ScopeKeyType) (o : ScopeObj) (f : Frame) : Frame :=
  (k, o) :: f.

(** The frames pushed by the evaluator, innermost first; the root frame is
    kept apart and is never popped. *)
Fixpoint stackLookup (k : ScopeKeyType) (st : list Frame) : option ScopeObj :=
  match st with
  | [] => None
  | f :: rest =>
      match frameLookup k f with
      | Some o => Some o
      | None => stackLookup k rest
      end
  end.

(* ================================================================== *)
(** ** Generator state *)

(** The process-global source of [math/rand]: the stream of raw draws and
    the number of draws consumed so far. *)
Record RandSource := mkRand {
  stream : nat -> Z;
  cursor : nat
}.

Record State := mkState {
  ctrl : ControlOption;
  tables : list TablePtr;
  tableStore : list Table;
  prepareStmts : list PreparePtr;
  prepareStore : list Prepare;
  todoSQLs : list string;
  initialized : bool;
  enabledClustered : bool;
  scopeRoot : Frame;
  scopeStack : list Frame;
  rand : RandSource
}.

Definition set_ctrl (c : ControlOption) (s : State) : State :=
  mkState c (tables s) (tableStore s) (prepareStmts s) (prepareStore s)
    (todoSQLs s) (initialized s) (enabledClustered s) (scopeRoot s)
    (scopeStack s) (rand s).

Definition set_tables (ts : list TablePtr) (s : State) : State :=
  mkState (ctrl s) ts (tableStore s) (prepareStmts s) (prepareStore s)
    (todoSQLs s) (initialized s) (enabledClustered s) (scopeRoot s)
    (scopeStack s) (rand s).

Definition set_tableStore (h : list Table) (s : State) : State :=
  mkState (ctrl s) (tables s) h (prepareStmts s) (prepareStore s)
    (todoSQLs s) (initialized s) (enabledClustered s) (scopeRoot s)
    (scopeStack s) (rand s).

Definition set_prepareStmts (ps : list PreparePtr) (s : State) : State :=
  mkState (ctrl s) (tables s) (tableStore s) ps (prepareStore s)
    (todoSQLs s) (initialized s) (enabledClustered s) (scopeRoot s)
    (scopeStack s) (rand s).

Definition set_prepareStore (h : list Prepare) (s : State) : State :=
  mkState (ctrl s) (tables s) (tableStore s) (prepareStmts s) h
    (todoSQLs s) (initialized s) (enabledClustered s) (scopeRoot s)
    (scopeStack s) (rand s).

Definition set_todoSQLs (q : list string) (s : State) : State :=
  mkState (ctrl s) (tables s) (tableStore s) (prepareStmts s) (prepareStore s)
    q (initialized s) (enabledClustered s) (scopeRoot s)
    (scopeStack s) (rand s).

Definition set_initialized (b : bool) (s : State) : State :=
  mkState (ctrl s) (tables s) (tableStore s) (prepareStmts s) (prepareStore s)
    (todoSQLs s) b (enabledClustered s) (scopeRoot s)
    (scopeStack s) (rand s).

Definition set_enabledClustered (b : bool) (s : State) : State :=
  mkState (ctrl s) (tables s) (tableStore s) (prepareStmts s) (prepareStore s)
    (todoSQLs s) (initialized s) b (scopeRoot s)
    (scopeStack s) (rand s).

Definition set_scopeRoot (f : Frame) (s : State) : State :=
  mkState (ctrl s) (tables s) (tableStore s) (prepareStmts s) (prepareStore s)
    (todoSQLs s) (initialized s) (enabledClustered s) f
    (scopeStack s) (rand s).

Definition set_scopeStack (st : list Frame) (s : State) : State :=
  mkState (ctrl s) (tables s) (tableStore s) (prepareStmts s) (prepareStore s)
    (todoSQLs s) (initialized s) (enabledClustered s) (scopeRoot s)
    st (rand s).

Definition set_rand (r : RandSource) (s : State) : State :=
  mkState (ctrl s) (tables s) (tableStore s) (prepareStmts s) (prepareStore s)
    (todoSQLs s) (initialized s) (enabledClustered s) (scopeRoot s)
    (scopeStack s) r.

(* ================================================================== *)
(** ** The evaluation monad: state passing, with Go panics as errors *)

Inductive Res (A : Type) :=
| Ok (a : A) (s : State)
| Panic (msg : string).

Arguments Panic {A} msg.

Definition M (A : Type) := State -> Res A.

Definition ret {A} (a : A) : M A := fun s => Ok a s.

Definition bind {A B} (m : M A) (k : A -> M B) : M B :=
  fun s => match m s with
           | Ok a s' => k a s'
           | Panic msg => Panic msg
           end.

Definition panic {A} (msg : string) : M A := fun _ => Panic msg.

Definition gets {A} (f : State -> A) : M A := fun s => Ok (f s) s.

Definition modify (f : State -> State) : M unit := fun s => Ok tt (f s).

Declare Scope gen_scope.
Delimit Scope gen_scope with gen.
Notation "x <- m ;; k" := (bind m (fun x => k))
  (at level 61, m at next level, right associativity) : gen_scope.
Notation "m ;;; k" := (bind m (fun _ => k))
  (at level 61, right associativity) : gen_scope.
Open Scope gen_scope.

(** [Assert(cond)]. *)
Definition Assert (cond : bool) : M unit :=
  if cond then ret tt else panic "assertion failed".

Definition len {A} (l : list A) : Z := Z.of_nat (length l).

(** [rand.Intn(n)]: panics unless [0 < n]. *)
Definition Intn (n : Z) : M Z :=
  fun s =>
    if n <=? 0 then Panic "invalid argument to Intn"
    else
      let r := rand s in
      Ok (stream r (cursor r) mod n)
         (set_rand (mkRand (stream r) (S (cursor r))) s).


(** A helper of the package that only consumes randomness. *)
Definition Rand (A : Type) := RandSource -> A * RandSource.

Definition liftRand {A} (f : Rand A) : M A :=
  fun s => let (a, r) := f (rand s) in Ok a (set_rand r s).

(** Modelled from the spec: [RandomBool]. *)
Definition RandomBool : M bool :=
  r <- Intn 2 ;; ret (r =? 0).

(** Modelled from the spec: [RandomNum(lo, hi)], a decimal string for a
    number drawn from [lo..hi]. *)
Definition RandomNum (lo hi : Z) : M string :=
  r <- Intn (hi - lo + 1) ;; ret (itoa (lo + r)).

(* ------------------------------------------------------------------ *)
(** *** Pointers *)

Definition derefTable (p : TablePtr) : M Table :=
  fun s => match nth_error (tableStore s) p with
           | Some t => Ok t s
           | None => Panic "nil pointer dereference"
           end.

Fixpoint replaceNth {A} (n : nat) (x : A) (l : list A) : list A :=
  match l, n with
  | [], _ => []
  | _ :: rest, O => x :: rest
  | y :: rest, S n' => y :: replaceNth n' x rest
  end.

(** A write through a table pointer. *)
Definition modifyTable (p : TablePtr) (f : Table -> Table) : M unit :=
  t <- derefTable p ;;
  modify (fun s => set_tableStore (replaceNth p (f t) (tableStore s)) s).

(** [&Table{...}]: a fresh address. *)
Definition newTable (t : Table) : M TablePtr :=
  fun s => Ok (length (tableStore s))
              (set_tableStore (tableStore s ++ [t]) s).

Definition derefPrepare (p : PreparePtr) : M Prepare :=
  fun s => match nth_error (prepareStore s) p with
           | Some t => Ok t s
           | None => Panic "nil pointer dereference"
           end.

Definition modifyPrepare (p : PreparePtr) (f : Prepare -> Prepare) : M unit :=
  t <- derefPrepare p ;;
  modify (fun s => set_prepareStore (replaceNth p (f t) (prepareStore s)) s).

Definition newPrepare (t : Prepare) : M PreparePtr :=
  fun s => Ok (length (prepareStore s))
              (set_prepareStore (prepareStore s ++ [t]) s).

(* ------------------------------------------------------------------ *)
(** *** Methods of [State] (modelled from the spec) *)

(** Modelled from the spec: the deferred-SQL queue is a FIFO;
    [PopOneTodoSQL] takes its head. *)
Definition PopOneTodoSQL : M (option string) :=
  fun s => match todoSQLs s with
           | [] => Ok None s
           | q :: rest => Ok (Some q) (set_todoSQLs rest s)
           end.

(** Modelled from the spec: [InjectTodoSQL] enqueues at the tail. *)
Definition InjectTodoSQL (sql : string) : M unit :=
  modify (fun s => set_todoSQLs (todoSQLs s ++ [sql]) s).

Definition Initialized : M bool := gets initialized.

Definition SetInitialized : M unit := modify (set_initialized true).

Definition tableHasRows (h : list Table) (p : TablePtr) : bool :=
  match nth_error h p with
  | Some t => 1 <=? len (values t)
  | None => false
  end.

(** Modelled from the spec: initialization is complete once the catalog has
    at least [InitTableCount] tables, each with at least one row. *)
Definition MeetInitializedDemand : M bool :=
  gets (fun s =>
    (InitTableCount (ctrl s) <=? len (tables s)) &&
    forallb (tableHasRows (tableStore s)) (tables s))%bool.

(** Modelled from the spec: the first table that has not yet received its
    initialization row; nil when there is none. *)
Definition GetFirstNonFullTable : M (option TablePtr) :=
  gets (fun s =>
    find (fun p => negb (tableHasRows (tableStore s) p)) (tables s)).

(** Modelled from the spec: [Search] walks from the innermost frame to the
    root; an absent key gives the nil value. *)
Definition Search (k : ScopeKeyType) : M ScopeObj :=
  gets (fun s =>
    match stackLookup k (scopeStack s) with
    | Some o => o
    | None =>
        match frameLookup k (scopeRoot s) with
        | Some o => o
        | None => ObjNil
        end
    end).

(** Modelled from the spec: [Store] writes into the innermost frame. *)
Definition Store (k : ScopeKeyType) (o : ScopeObj) : M unit :=
  modify (fun s =>
    match scopeStack s with
    | [] => set_scopeRoot (frameStore k o (scopeRoot s)) s
    | f :: rest => set_scopeStack (frameStore k o f :: rest) s
    end).

(** Modelled from the spec: [StoreInParent] writes into the caller's frame. *)
Definition StoreInParent (k : ScopeKeyType) (o : ScopeObj) : M unit :=
  modify (fun s =>
    match scopeStack s with
    | f :: g :: rest => set_scopeStack (f :: frameStore k o g :: rest) s
    | _ => set_scopeRoot (frameStore k o (scopeRoot s)) s
    end).

(** Modelled from the spec: [StoreInRoot] writes into the outermost frame. *)
Definition StoreInRoot (k : ScopeKeyType) (o : ScopeObj) : M unit :=
  modify (fun s => set_scopeRoot (frameStore k o (scopeRoot s)) s).

Definition pushScope (s : State) : State :=
  set_scopeStack ([] :: scopeStack s) s.

Definition popScope (s : State) : State :=
  set_scopeStack (tl (scopeStack s)) s.

Definition CreateScope : M unit := modify pushScope.

Definition DestroyScope : M unit := modify popScope.

Definition ToTable (o : ScopeObj) : M TablePtr :=
  match o with
  | ObjTable p => ret p
  | _ => panic "scope value is not a table"
  end.

Definition ToTables (o : ScopeObj) : M (list TablePtr) :=
  match o with
  | ObjTables ps => ret ps
  | _ => panic "scope value is not a table list"
  end.

Definition ToPrepare (o : ScopeObj) : M PreparePtr :=
  match o with
  | ObjPrepare p => ret p
  | _ => panic "scope value is not a prepare"
  end.

Definition ToColumn (o : ScopeObj) : option Column :=
  match o with
  | ObjColumn c => Some c
  | _ => None
  end.

Definition ToInt (o : ScopeObj) : M Z :=
  match o with
  | ObjInt n => ret n
  | _ => panic "scope value is not an int"
  end.

(** Modelled from the spec: the identifier allocators are counters kept in
    the root frame under their kind ([loadTable] reads one back with
    [Search]); each call returns the counter and advances it. *)
Definition AllocGlobalID (k : ScopeKeyType) : M Z :=
  o <- gets (fun s => frameLookup k (scopeRoot s)) ;;
  let cur := match o with Some (ObjInt n) => n | _ => 0 end in
  StoreInRoot k (ObjInt (cur + 1)) ;;;
  ret cur.

Definition AppendTable (p : TablePtr) : M unit :=
  modify (fun s => set_tables (tables s ++ [p]) s).

Definition indexList {A} (what : string) (l : list A) (i : Z) : M A :=
  match nth_error l (Z.to_nat i) with
  | Some a => ret a
  | None => panic ("index out of range: " ++ what)
  end.

(** Modelled from the spec: [GetRandTable] draws a table of the catalog. *)
Definition GetRandTable : M TablePtr :=
  ts <- gets tables ;;
  i <- Intn (len ts) ;;
  indexList "tables" ts i.

Definition AppendPrepare (p : PreparePtr) : M unit :=
  modify (fun s => set_prepareStmts (prepareStmts s ++ [p]) s).

(** Modelled from the spec: [GetRandPrepare]. *)
Definition GetRandPrepare : M PreparePtr :=
  ps <- gets prepareStmts ;;
  i <- Intn (len ps) ;;
  indexList "prepareStmts" ps i.

Definition RemovePrepare (p : PreparePtr) : M unit :=
  modify (fun s =>
    set_prepareStmts (filter (fun q => negb (Nat.eqb q p)) (prepareStmts s)) s).

(** Modelled from the spec: [Table.GetRandomIndex]. *)
Definition GetRandomIndex (t : Table) : M Index :=
  i <- Intn (len (Indices t)) ;;
  indexList "Indices" (Indices t) i.

(* ================================================================== *)
(** ** Grammar combinators (modelled from the spec)

    A production is a lazy node: its text is produced only when the node is
    evaluated.  A node carries the weight it has inside an [Or], and whether
    its guard holds. *)

Record Fn := mkFn {
  Gen : M string;
  FnWeight : Z;
  Enabled : bool
}.

(** Every evaluation runs under its own scope frame. *)
Definition Eval (f : Fn) : M string :=
  CreateScope ;;;
  r <- Gen f ;;
  DestroyScope ;;;
  ret r.

(** [NewFn(func(state *State) Fn {...})]: the body runs first and the node it
    returns is evaluated next. *)
Definition NewFn (body : M Fn) : Fn :=
  mkFn (g <- body ;; Eval g) 1 true.

Definition Str (s : string) : Fn := mkFn (ret s) 1 true.

Definition Strs (parts : list string) : Fn := Str (String.concat " " parts).

Definition Empty : Fn := Str "".

Definition SetW (w : Z) (f : Fn) : Fn := mkFn (Gen f) w (Enabled f).

(** A node whose guard fails contributes nothing and weighs nothing in an
    [Or], whatever weight is set on it afterwards. *)
Definition If (cond : bool) (f : Fn) : Fn :=
  if cond then f else mkFn (ret "") 0 false.

Definition effWeight (f : Fn) : Z :=
  if Enabled f then Z.max 0 (FnWeight f) else 0.

Fixpoint evalAll (fs : list Fn) : M (list string) :=
  match fs with
  | [] => ret []
  | f :: rest =>
      r <- Eval f ;;
      rs <- evalAll rest ;;
      ret (r :: rs)
  end.

Definition And (fs : list Fn) : Fn :=
  mkFn (rs <- evalAll fs ;; ret (joinTokens rs)) 1 true.

(** The child in which the draw [r] falls, children laid out by weight. *)
Fixpoint pickByWeight (ws : list Z) (r : Z) : nat :=
  match ws with
  | [] => O
  | w :: rest => if r <? w then O else S (pickByWeight rest (r - w))
  end.

Definition totalWeight (fs : list Fn) : Z :=
  fold_right Z.add 0 (map effWeight fs).

(** Weighted choice; when no child can be drawn the node emits nothing. *)
Definition Or (fs : list Fn) : Fn :=
  mkFn (if totalWeight fs <=? 0 then ret ""
        else r <- Intn (totalWeight fs) ;;
             Eval (nth (pickByWeight (map effWeight fs) r) fs Empty))
       1 true.

Definition Opt (f : Fn) : Fn := Or [Empty; f].

Definition OptIf (cond : bool) (f : Fn) : Fn :=
  if cond then Opt f else Empty.

Fixpoint repeatEval (n : nat) (child sep : Fn) : M (list string) :=
  match n with
  | O => ret []
  | S m =>
      r <- Eval child ;;
      match m with
      | O => ret [r]
      | S _ =>
          s <- Eval sep ;;
          rest <- repeatEval m child sep ;;
          ret (r :: s :: rest)
      end
  end.

Definition Repeat (child : Fn) (n : Z) (sep : Fn) : Fn :=
  mkFn (rs <- repeatEval (Z.to_nat n) child sep ;; ret (joinTokens rs)) 1 true.

Definition RepeatRange (lo hi : Z) (child sep : Fn) : Fn :=
  mkFn (r <- Intn (hi - lo + 1) ;; Gen (Repeat child (lo + r) sep)) 1 true.

Definition NeverReach : Fn := mkFn (panic "never reach") 1 true.

(* ================================================================== *)
(** ** The rest of the package

    The helpers below are called by [start.go] and defined elsewhere in the
    package.  They read their arguments and the random source only, and are
    parameters of the development. *)

Class Helpers := {
  (** the generator behind [rand.Seed] *)
  prng : Z -> nat -> Z;
  (** [path.Join] *)
  pathJoin : string -> string -> string;
  SelectOutFileDir : string;
  (** whether [Table.AppendIndex] injects partition columns itself *)
  AppendIndexInjects : bool;

  GenNewColumn : Z -> Weight -> Rand Column;
  GenNewIndex : Z -> Table -> Weight -> Rand Index;

  PrintColumnType : Column -> string;
  PrintIndexType : Index -> string;
  PrintIndexColumnNames : Index -> string;
  PrintRangePartitionDefs : list string -> string;
  PrintListPartitionDefs : list (list string) -> string;
  PrintRandValues : list string -> string;
  PrintColumnNamesWithoutPar : list Column -> string -> string;
  PrintColumnNamesWithPar : list Column -> string -> string;
  PrintPredicateDNF : list Column -> list (list string) -> string;
  PrintPredicateCompoundDNF : list Column -> list (list string) -> string;
  PrintPredicateIn : list Column -> list (list string) -> string;
  PrintFullQualifiedColName : Table -> list Column -> string;
  PrintSplitByItems : list (list string) -> string;
  PrintRandomAggFunc : Table -> list Column -> Rand string;
  PrintRandomWindowFunc : Table -> Rand string;
  PrintRandomWindow : Table -> Rand string;
  PrintRandomAssignments : list Column -> Rand string;
  (** returns the columns turned into parameters and the column list with
      those columns swapped out *)
  SwapOutParameterizedColumns : list Column -> Rand (list Column * list Column);

  GetRandColumn : Table -> Rand Column;
  GetRandColumns : Table -> Rand (list Column);
  GetRandColumnsNonEmpty : Table -> Rand (list Column);
  GetRandColumnsIncludedDefaultValue : Table -> Rand (list Column);
  GetRandColumnsSimple : Table -> Rand Column;
  GetRandColumnsPreferIndex : Table -> Rand Column;
  GetRandIndexFirstColumnWithWeight : Table -> Z -> Z -> Rand Column;
  GetRandUniqueIndexForPointGet : Table -> Rand (option Index);
  GetRandIndexPrefixColumn : Table -> Rand (list Column);
  GetPrimaryKeyIndex : Table -> option Index;
  GetRandColumnForPartition : Table -> Rand (option Column);
  GetRandDroppableColumn : Table -> Rand Column;
  HasDroppableColumn : Table -> bool;
  GenRandValues : Table -> list Column -> Rand (list string);
  GetRandRow : Table -> list Column -> Rand (list string);
  GetRandRowVal : Table -> Column -> Rand string;
  GenMultipleRowsAscForHandleCols : Table -> Z -> Rand (list (list string));
  GenMultipleRowsAscForIndexCols : Table -> Z -> Index -> Rand (list (list string));

  (** the cell a new column gets in the rows already sampled *)
  NewColumnCell : Column -> string;
  RemoveColumn : Column -> Table -> Table;
  ReplaceColumn : Column -> Column -> Table -> Table;
  (** [Clone]: the source, then the fresh table, column and index
      identifiers *)
  CloneTable : Table -> Z -> list Z -> list Z -> Table;

  RandomValue : Column -> Rand string;
  RandomValuesAsc : Column -> Z -> Rand (list string);
  RandomGroups : list string -> Z -> Rand (list (list string));

  GenAssignments : Prepare -> Rand (list string);
  UserVars : Prepare -> list string
}.

(** Modelled from the spec: [Table.AppendColumn]; the sampled rows stay
    aligned with the columns. *)
Definition AppendColumn `{Helpers} (c : Column) (t : Table) : Table :=
  setValues (map (fun row => (row ++ [NewColumnCell c])%list) (values t))
            (setColumns (Columns t ++ [c]) t).

(** Modelled from the spec: [Table.AppendRow] rejects a row of the wrong
    arity. *)
Definition AppendRow (p : TablePtr) (vals : list string) : M unit :=
  t <- derefTable p ;;
  Assert (Nat.eqb (length vals) (length (Columns t))) ;;;
  modifyTable p (fun t => setValues (values t ++ [vals]) t).

Fixpoint allocIDs (k : ScopeKeyType) (n : nat) : M (list Z) :=
  match n with
  | O => ret []
  | S m => i <- AllocGlobalID k ;; rest <- allocIDs k m ;; ret (i :: rest)
  end.

(** Modelled from the spec: [Table.Clone] builds an independent table with
    fresh identifiers and records it among the children of the source. *)
Definition Clone `{Helpers} (p : TablePtr) : M TablePtr :=
  t <- derefTable p ;;
  tid <- AllocGlobalID ScopeKeyTableUniqID ;;
  cids <- allocIDs ScopeKeyColumnUniqID (length (Columns t)) ;;
  iids <- allocIDs ScopeKeyIndexUniqID (length (Indices t)) ;;
  q <- newTable (CloneTable t tid cids iids) ;;
  modifyTable p (fun t => setChildTables (childTables t ++ [q]) t) ;;;
  ret q.

Definition dquote : string := String (ascii_of_nat 34) EmptyString.
Definition squote (s : string) : string := "'" ++ s ++ "'".

(* ================================================================== *)
(** ** The productions of [start.go] *)

Section Productions.
Context `{Helpers}.

Definition weights : M Weight := gets (fun s => CtrlWeight (ctrl s)).

Definition cmpSymbol : Fn :=
  NewFn (ret (Or [Str "="; Str "<"; Str "<="; Str ">"; Str ">=";
                  Str "<>"; Str "!="])).

Definition maybeLimit : Fn :=
  (* Return empty because the limit is not friendly to clustered index AB test. *)
  NewFn (ret Empty).

Definition getTable : M TablePtr :=
  o <- Search ScopeKeyCurrentMultiTable ;;
  let inMultiTableQuery := negb (IsNil o) in
  if inMultiTableQuery then
    o' <- Search ScopeKeyCurrentMultiTable ;;
    tbs <- ToTables o' ;;
    b <- RandomBool ;;
    if b then indexList "tables" tbs 0 else indexList "tables" tbs 1
  else
    o' <- Search ScopeKeyCurrentTable ;;
    ToTable o'.

(* ------------------------------------------------------------------ *)
(** *** predicate, predicates *)

Definition randVal (tbl : TablePtr) (randCol : Column) : Fn :=
  NewFn (
    prepare <- Search ScopeKeyCurrentPrepare ;;
    asParam <- (if negb (IsNil prepare)
                then r <- Intn 50 ;; ret (r =? 0)
                else ret false) ;;
    v <- (if asParam : bool then
            p <- ToPrepare prepare ;;
            modifyPrepare p (PrepareAppendColumns [randCol]) ;;;
            ret "?"
          else
            r <- Intn 3 ;;
            t <- derefTable tbl ;;
            if ((r =? 0) || (len (values t) =? 0))%bool
            then liftRand (RandomValue randCol)
            else liftRand (GetRandRowVal t randCol)) ;;
    ret (Str v)).

Definition randColVals (tbl : TablePtr) (randCol : Column) : Fn :=
  NewFn (ret (RepeatRange 1 5 (randVal tbl randCol) (Str ","))).

Definition predicate : Fn :=
  NewFn (
    w <- weights ;;
    tbl <- getTable ;;
    t <- derefTable tbl ;;
    randCol0 <- liftRand (GetRandColumn t) ;;
    randCol <- (if Query_INDEX_MERGE w then
                  match colForPrefixIndex t with
                  | c :: rest =>
                      modifyTable tbl (setColForPrefixIndex rest) ;;; ret c
                  | [] => ret randCol0
                  end
                else ret randCol0) ;;
    let colName := TblName t ++ "." ++ ColName randCol in
    ret (Or [
      And [Str colName; cmpSymbol; randVal tbl randCol];
      And [Str colName; Str "in"; Str "("; randColVals tbl randCol; Str ")"]
    ])).

Definition andPredicates : Fn :=
  NewFn (
    tbl <- getTable ;;
    t <- derefTable tbl ;;
    cs <- liftRand (GetRandIndexPrefixColumn t) ;;
    modifyTable tbl (setColForPrefixIndex cs) ;;;
    let repeatCnt := if len cs =? 0 then 1 else len cs in
    r <- Intn 5 ;;
    repeatCnt' <- (if r =? 0
                   then r2 <- Intn 2 ;; ret (repeatCnt + (r2 + 1))
                   else ret repeatCnt) ;;
    ret (Repeat predicate repeatCnt' (Str "and"))).

Fixpoint pointGetRows (n : nat) (tbl : TablePtr) (cols : list Column)
  : M (list (list string)) :=
  match n with
  | O => ret []
  | S m =>
      t <- derefTable tbl ;;
      fromRows <- (if 0 <? len (values t) then RandomBool else ret false) ;;
      row <- (if fromRows : bool
              then liftRand (GetRandRow t cols)
              else liftRand (GenRandValues t cols)) ;;
      rest <- pointGetRows m tbl cols ;;
      ret (row :: rest)
  end.

Definition predicatesPointGet (tbl : TablePtr) (uniqueIdx : option Index) : Fn :=
  NewFn (
    r <- Intn 4 ;;
    let pointsCount := r + 1 in
    match uniqueIdx with
    | None => panic "nil pointer dereference"
    | Some idx =>
        pointGetVals <- pointGetRows (Z.to_nat pointsCount) tbl (IdxColumns idx) ;;
        ret (Or [
          Str (PrintPredicateDNF (IdxColumns idx) pointGetVals);
          Str (PrintPredicateCompoundDNF (IdxColumns idx) pointGetVals);
          Str (PrintPredicateIn (IdxColumns idx) pointGetVals)
        ])
    end).

Definition isSome {A} (o : option A) : bool :=
  match o with Some _ => true | None => false end.

Definition predicates : Fn :=
  NewFn (
    w <- weights ;;
    tbl <- getTable ;;
    t <- derefTable tbl ;;
    uniqueIdx <- liftRand (GetRandUniqueIndexForPointGet t) ;;
    (* Give some chances to common predicate. *)
    merge <- (if Query_INDEX_MERGE w
              then r <- Intn 5 ;; ret (negb (r =? 0))
              else ret false) ;;
    if merge : bool then
      ret (RepeatRange 2 5 andPredicates (Str "or"))
    else
      ret (Or [
        SetW 3 (RepeatRange 1 5 predicate (Or [Str "and"; Str "or"]));
        SetW 1 (If (isSome uniqueIdx) (predicatesPointGet tbl uniqueIdx))
      ])).

(* ------------------------------------------------------------------ *)
(** *** multiTableQuery *)

Definition joinColumns (preferIndex : bool) (tbl1 tbl2 : TablePtr)
  : M (Column * Column) :=
  t1 <- derefTable tbl1 ;;
  t2 <- derefTable tbl2 ;;
  if preferIndex then
    col1 <- liftRand (GetRandColumnsPreferIndex t1) ;;
    col2 <- liftRand (GetRandColumnsPreferIndex t2) ;;
    ret (col1, col2)
  else
    col1 <- liftRand (GetRandColumnsSimple t1) ;;
    col2 <- liftRand (GetRandColumnsSimple t2) ;;
    ret (col1, col2).

Definition joinPredicate (preferIndex : bool) (tbl1 tbl2 : TablePtr) : Fn :=
  NewFn (
    cc <- joinColumns preferIndex tbl1 tbl2 ;;
    ret (And [Str (ColName (fst cc)); cmpSymbol; Str (ColName (snd cc))])).

Definition joinPredicates (preferIndex : bool) (tbl1 tbl2 : TablePtr) : Fn :=
  NewFn (
    let sep := Or [Str "and"; Str "or"] in
    ret (RepeatRange 1 5 (joinPredicate preferIndex tbl1 tbl2) sep)).

Definition joinHint (preferIndex : bool) (name1 name2 : string) : Fn :=
  NewFn (
    let noIndexHint := Or [
      And [Str "MERGE_JOIN("; Str name1; Str ","; Str name2; Str ")"];
      And [Str "HASH_JOIN("; Str name1; Str ","; Str name2; Str ")"]
    ] in
    let useIndexHint := Or [
      And [Str "INL_JOIN("; Str name1; Str ","; Str name2; Str ")"];
      And [Str "INL_HASH_JOIN("; Str name1; Str ","; Str name2; Str ")"];
      And [Str "INL_MERGE_JOIN("; Str name1; Str ","; Str name2; Str ")"]
    ] in
    if preferIndex then ret (Or [Empty; useIndexHint])
    else ret (Or [Empty; noIndexHint])).

Definition compatibleTypes (c1 c2 : Column) : bool :=
  ((IsStringType (ColTp c1) && IsStringType (ColTp c2)) ||
   (IsIntegerType (ColTp c1) && IsIntegerType (ColTp c2)) ||
   ColumnType_eqb (ColTp c1) (ColTp c2))%bool.

(** The loop [for i := 0; i <= 5; i++] of [semiJoinStmt]. *)
Fixpoint retryCol2 (n : nat) (preferIndex : bool) (tbl2 : TablePtr)
    (col1 col2 : Column) : M Column :=
  match n with
  | O => ret col2
  | S m =>
      if compatibleTypes col1 col2 then ret col2
      else
        t2 <- derefTable tbl2 ;;
        col2' <- (if preferIndex
                  then liftRand (GetRandColumnsPreferIndex t2)
                  else liftRand (GetRandColumnsSimple t2)) ;;
        retryCol2 m preferIndex tbl2 col1 col2'
  end.

Definition semiJoinStmt (preferIndex : bool) (tbl1 tbl2 : TablePtr)
    (cols1 : list Column) : Fn :=
  NewFn (
    w <- weights ;;
    cc <- joinColumns preferIndex tbl1 tbl2 ;;
    let col1 := fst cc in
    (* We prefer that the types to be compatible. *)
    col2 <- retryCol2 6 preferIndex tbl2 col1 (snd cc) ;;
    t1 <- derefTable tbl1 ;;
    t2 <- derefTable tbl2 ;;
    c <- gets ctrl ;;
    lim <- RandomNum 1 1000 ;;
    ret (And [
      Str "select";
      And [
        Str "/*+ ";
        OptIf (EnableTestTiFlash c)
          (And [Str "read_from_storage(tiflash["; Str (TblName t1); Str ",";
                Str (TblName t2); Str "])"]);
        joinHint preferIndex (TblName t1) (TblName t2);
        Str " */"
      ];
      Str (PrintFullQualifiedColName t1 cols1);
      Str "from";
      Str (TblName t1);
      Str "where";
      Str (ColName col1);
      Str "in";
      Str "(";
      Str "select";
      Str (ColName col2);
      Str "from";
      Str (TblName t2);
      Str "where";
      predicates;
      Str ")";
      OptIf (0 <? Query_HasOrderby w)
        (And [Str "order by"; Str (PrintColumnNamesWithoutPar (Columns t1) "")]);
      OptIf (0 <? Query_HasLimit w)
        (And [Str "limit"; Str lim])
    ])).

Definition multiTableQuery : Fn :=
  NewFn (
    w <- weights ;;
    tbl1 <- GetRandTable ;;
    tbl2 <- GetRandTable ;;
    t1 <- derefTable tbl1 ;;
    t2 <- derefTable tbl2 ;;
    cols1 <- liftRand (GetRandColumns t1) ;;
    cols2 <- liftRand (GetRandColumns t2) ;;
    Store ScopeKeyCurrentMultiTable (ObjTables [tbl1; tbl2]) ;;;
    preferIndex <- RandomBool ;;
    c <- gets ctrl ;;
    lim1 <- RandomNum 1 1000 ;;
    lim2 <- RandomNum 1 1000 ;;
    ret (Or [
      And [
        Str "select";
        And [
          Str "/*+ ";
          OptIf (EnableTestTiFlash c)
            (And [Str "read_from_storage(tiflash["; Str (TblName t1); Str ",";
                  Str (TblName t2); Str "])"]);
          joinHint preferIndex (TblName t1) (TblName t2);
          Str " */"
        ];
        Str (PrintFullQualifiedColName t1 cols1);
        Str ",";
        Str (PrintFullQualifiedColName t2 cols2);
        Str "from";
        Str (TblName t1);
        Or [Str "left join"; Str "join"; Str "right join"];
        Str (TblName t2);
        And [Str "on"; joinPredicates preferIndex tbl1 tbl2];
        And [Str "where"];
        predicates;
        OptIf (0 <? Query_HasOrderby w)
          (And [Str "order by";
                Str (PrintColumnNamesWithoutPar (Columns t1) "");
                Str ",";
                Str (PrintColumnNamesWithoutPar (Columns t2) "")]);
        OptIf (0 <? Query_HasLimit w)
          (And [Str "limit"; Str lim1])
      ];
      And [
        Str "select";
        And [
          Str "/*+ ";
          OptIf (EnableTestTiFlash c)
            (And [Str "read_from_storage(tiflash["; Str (TblName t1); Str ",";
                  Str (TblName t2); Str "])"]);
          OptIf (Query_INDEX_MERGE w)
            (And [Str "use_index_merge("; Str (TblName t1); Str ",";
                  Str (TblName t2); Str ")"]);
          joinHint preferIndex (TblName t1) (TblName t2);
          Str " */"
        ];
        Str (PrintFullQualifiedColName t1 cols1);
        Str ",";
        Str (PrintFullQualifiedColName t2 cols2);
        Str "from";
        Str (TblName t1);
        Str "join";
        Str (TblName t2);
        OptIf (0 <? Query_HasOrderby w)
          (And [Str "order by";
                Str (PrintColumnNamesWithoutPar (Columns t1) "");
                Str ",";
                Str (PrintColumnNamesWithoutPar (Columns t2) "")]);
        OptIf (0 <? Query_HasLimit w)
          (And [Str "limit"; Str lim2])
      ];
      semiJoinStmt preferIndex tbl1 tbl2 cols1
    ])).

(* ------------------------------------------------------------------ *)
(** *** query *)

Definition commonSelect (tbl : TablePtr) (cols : list Column) : Fn :=
  NewFn (
    w <- weights ;;
    prepare <- Search ScopeKeyCurrentPrepare ;;
    cols' <- (if negb (IsNil prepare) then
                pc <- liftRand (SwapOutParameterizedColumns cols) ;;
                p <- ToPrepare prepare ;;
                modifyPrepare p (PrepareAppendColumns (fst pc)) ;;;
                ret (snd pc)
              else ret cols) ;;
    t <- derefTable tbl ;;
    c <- gets ctrl ;;
    lim <- RandomNum 1 1000 ;;
    ret (And [
      Str "select";
      OptIf (EnableTestTiFlash c)
        (And [Str "/*+ read_from_storage(tiflash["; Str (TblName t); Str "]) */"]);
      OptIf (Query_INDEX_MERGE w)
        (And [Str "/*+ use_index_merge("; Str (TblName t); Str ") */"]);
      Str (PrintColumnNamesWithoutPar cols' "*");
      Str "from";
      Str (TblName t);
      Str "where";
      predicates;
      OptIf (0 <? Query_HasOrderby w)
        (And [Str "order by"; Str (PrintColumnNamesWithoutPar (Columns t) "")]);
      OptIf (0 <? Query_HasLimit w)
        (And [Str "limit"; Str lim])
    ])).

Definition forUpdateOpt : Fn :=
  NewFn (ret (Opt (Str "for update"))).

Definition union : Fn :=
  NewFn (ret (Or [Str "union"; Str "union all"; Str "except"; Str "intersect"])).

Fixpoint randColumns (n : nat) (tbl : TablePtr) : M (list Column) :=
  match n with
  | O => ret []
  | S m =>
      t <- derefTable tbl ;;
      c <- liftRand (GetRandColumn t) ;;
      rest <- randColumns m tbl ;;
      ret (c :: rest)
  end.

Definition aggSelect (tbl : TablePtr) (w : Weight) : Fn :=
  NewFn (
    aggCols <- randColumns 5 tbl ;;
    t <- derefTable tbl ;;
    groupByCols <- liftRand (GetRandColumns t) ;;
    aggFunc <- liftRand (PrintRandomAggFunc t aggCols) ;;
    r2 <- Intn 2 ;;
    r3 <- Intn 3 ;;
    aggType <- indexList "AggType" [""; "hash_agg"; "stream_agg"] r3 ;;
    modify (fun s => set_ctrl (setAgg (r2 =? 1) aggType (ctrl s)) s) ;;;
    let primaryKeyIdx := GetPrimaryKeyIndex t in
    let primaryKeyCols :=
      match primaryKeyIdx with Some idx => IdxColumns idx | None => [] end in
    c <- gets ctrl ;;
    lim <- RandomNum 1 1000 ;;
    ret (And [
      Str "select";
      Str "/*+";
      OptIf (EnableAggPushDown c) (Str "agg_to_cop()");
      OptIf (negb (AggType c =? "")%string) (Str (AggType c ++ "()"));
      Str "*/";
      Str aggFunc;
      Str "from";
      Str "(select";
      OptIf (EnableTestTiFlash c)
        (And [Str "/*+ read_from_storage(tiflash["; Str (TblName t); Str "]) */"]);
      OptIf (Query_INDEX_MERGE w)
        (And [Str "/*+ use_index_merge("; Str (TblName t); Str ") */"]);
      Str "*";
      Str "from";
      Str (TblName t);
      Str "where";
      predicates;
      Str "order by";
      OptIf (isSome primaryKeyIdx) (Str (PrintColumnNamesWithoutPar primaryKeyCols ""));
      OptIf (negb (isSome primaryKeyIdx)) (Str "_tidb_rowid");
      Str ") ordered_tbl";
      OptIf (0 <? len groupByCols) (Str "group by");
      OptIf (0 <? len groupByCols) (Str (PrintColumnNamesWithoutPar groupByCols ""));
      OptIf (0 <? Query_HasOrderby w) (Str "order by aggCol");
      OptIf (0 <? Query_HasLimit w) (And [Str "limit"; Str lim])
    ])).

Definition windowSelect (tbl : TablePtr) (w : Weight) : Fn :=
  NewFn (
    t <- derefTable tbl ;;
    windowFunc <- liftRand (PrintRandomWindowFunc t) ;;
    window <- liftRand (PrintRandomWindow t) ;;
    c <- gets ctrl ;;
    lim <- RandomNum 1 1000 ;;
    ret (And [
      Str "select";
      OptIf (EnableTestTiFlash c)
        (And [Str "/*+ read_from_storage(tiflash["; Str (TblName t); Str "]) */"]);
      OptIf (Query_INDEX_MERGE w)
        (And [Str "/*+ use_index_merge("; Str (TblName t); Str ") */"]);
      Str windowFunc;
      Str "over w";
      Str "from";
      Str (TblName t);
      Str "window w as";
      Str window;
      OptIf (0 <? Query_HasOrderby w)
        (And [Str "order by";
              Str (PrintColumnNamesWithoutPar (Columns t) "");
              Str ", ";
              Str (windowFunc ++ " over w")]);
      OptIf (0 <? Query_HasLimit w) (And [Str "limit"; Str lim])
    ])).

Definition query : Fn :=
  NewFn (
    w <- weights ;;
    tbl <- GetRandTable ;;
    Store ScopeKeyCurrentTable (ObjTable tbl) ;;;
    t <- derefTable tbl ;;
    cols <- liftRand (GetRandColumns t) ;;
    let commonSelect := commonSelect tbl cols in
    let aggSelect := aggSelect tbl w in
    let windowSelect := windowSelect tbl w in
    lim1 <- RandomNum 1 1000 ;;
    lim2 <- RandomNum 1 1000 ;;
    lim3 <- RandomNum 1 1000 ;;
    ts <- gets tables ;;
    ret (Or [
      And [commonSelect; forUpdateOpt];
      SetW (Query_Union w) (And [
        Str "("; commonSelect; forUpdateOpt; Str ")";
        union;
        Str "("; commonSelect; forUpdateOpt; Str ")";
        OptIf (0 <? Query_HasOrderby w)
          (And [Str "order by"; Str (PrintColumnNamesWithoutPar cols "")]);
        OptIf (0 <? Query_HasLimit w) (And [Str "limit"; Str lim1])
      ]);
      And [aggSelect; forUpdateOpt];
      SetW (Query_Window w) (And [windowSelect; forUpdateOpt]);
      SetW (Query_Union w) (And [
        Str "("; aggSelect; forUpdateOpt; Str ")";
        union;
        Str "("; aggSelect; forUpdateOpt; Str ")";
        OptIf (0 <? Query_HasOrderby w) (Str "order by aggCol");
        OptIf (0 <? Query_HasLimit w) (And [Str "limit"; Str lim2])
      ]);
      SetW (Query_Window w + Query_Union w) (And [
        Str "("; windowSelect; forUpdateOpt; Str ")";
        union;
        Str "("; windowSelect; forUpdateOpt; Str ")";
        OptIf (0 <? Query_HasOrderby w) (And [Str "order by 1"]);
        OptIf (0 <? Query_HasLimit w) (And [Str "limit"; Str lim3])
      ]);
      If (1 <? len ts) multiTableQuery
    ])).

(* ------------------------------------------------------------------ *)
(** *** insert, update, delete, analyze *)

Definition onDuplicateUpdate (tbl : TablePtr) (w : Weight) : Fn :=
  NewFn (
    t <- derefTable tbl ;;
    cols <- liftRand (GetRandColumnsNonEmpty t) ;;
    assignments <- liftRand (PrintRandomAssignments cols) ;;
    ret (Or [
      SetW 3 Empty;
      SetW (Query_DML_INSERT_ON_DUP w)
           (Strs ["on duplicate key update"; assignments])
    ])).

Definition rowVal (tbl : TablePtr) (cols : list Column) : Fn :=
  NewFn (
    t <- derefTable tbl ;;
    vs <- liftRand (GenRandValues t cols) ;;
    ret (Strs ["("; PrintRandValues vs; ")"])).

Definition multipleRowVals (tbl : TablePtr) (cols : list Column) : Fn :=
  NewFn (ret (RepeatRange 1 7 (rowVal tbl cols) (Str ","))).

Definition insertSetStmt (tbl : TablePtr) : Fn :=
  NewFn (
    t <- derefTable tbl ;;
    randCol <- liftRand (GetRandColumn t) ;;
    v <- liftRand (RandomValue randCol) ;;
    ret (Or [Strs [ColName randCol; "="; v]])).

Definition commonInsert : Fn :=
  NewFn (
    w <- weights ;;
    tbl <- GetRandTable ;;
    t <- derefTable tbl ;;
    c <- gets ctrl ;;
    cols <- (if StrictTransTable c
             then liftRand (GetRandColumnsIncludedDefaultValue t)
             else liftRand (GetRandColumns t)) ;;
    r <- Intn 3 ;;
    let insertOrReplace :=
      if ((r =? 0) && Query_DML_Can_Be_Replace w)%bool then "replace" else "insert" in
    let isInsert := (insertOrReplace =? "insert")%string in
    let onDuplicateUpdate := onDuplicateUpdate tbl w in
    ret (Or [
      And [
        Str insertOrReplace;
        OptIf isInsert (Str "ignore");
        Str "into";
        Str (TblName t);
        Str (PrintColumnNamesWithPar cols "");
        Str "values";
        multipleRowVals tbl cols;
        OptIf isInsert onDuplicateUpdate
      ];
      And [
        Str insertOrReplace;
        OptIf isInsert (Str "ignore");
        Str "into";
        Str (TblName t);
        Str "set";
        RepeatRange 1 3 (insertSetStmt tbl) (Str ",");
        OptIf isInsert onDuplicateUpdate
      ]
    ])).

Definition updateAssignment (tbl : TablePtr) : Fn :=
  NewFn (
    t <- derefTable tbl ;;
    randCol <- liftRand (GetRandColumn t) ;;
    v <- liftRand (RandomValue randCol) ;;
    ret (Or [Strs [ColName randCol; "="; v]])).

Definition updateAssignments (tbl : TablePtr) : Fn :=
  NewFn (ret (RepeatRange 1 3 (updateAssignment tbl) (Str ","))).

(** [commonUpdate], with the production standing after [order by ...] left
    open; the source puts [maybeLimit] there. *)
Definition commonUpdateWith (limitClause : Fn) : Fn :=
  NewFn (
    tbl <- GetRandTable ;;
    Store ScopeKeyCurrentTable (ObjTable tbl) ;;;
    t <- derefTable tbl ;;
    orderByCols <- liftRand (GetRandColumns t) ;;
    ret (And [
      Str "update";
      Str (TblName t);
      Str "set";
      updateAssignments tbl;
      Str "where";
      predicates;
      OptIf (0 <? len orderByCols)
        (And [
          Str "order by";
          Str (PrintColumnNamesWithoutPar orderByCols "");
          limitClause
        ])
    ])).

Definition commonUpdate : Fn := commonUpdateWith maybeLimit.

Definition commonAnalyze : Fn :=
  NewFn (
    tbl <- GetRandTable ;;
    t <- derefTable tbl ;;
    ret (And [Str "analyze table"; Str (TblName t)])).

Definition randRowVal (col : Column) : Fn :=
  NewFn (v <- liftRand (RandomValue col) ;; ret (Str v)).

Definition multipleRowVal (col : Column) : Fn :=
  NewFn (ret (RepeatRange 1 9 (randRowVal col) (Str ","))).

(** [commonDelete], with the production closing each alternative left open;
    the source puts [maybeLimit] there. *)
Definition commonDeleteWith (limitClause : Fn) : Fn :=
  NewFn (
    w <- weights ;;
    tbl <- GetRandTable ;;
    r <- Intn (Query_DML_DEL_COMMON w + Query_DML_DEL_INDEX w) ;;
    t <- derefTable tbl ;;
    col <- (if r <? Query_DML_DEL_COMMON w
            then liftRand (GetRandColumn t)
            else liftRand (GetRandIndexFirstColumnWithWeight t
                             (Query_DML_DEL_INDEX_COMMON w)
                             (Query_DML_DEL_INDEX_COMMON w))) ;;
    Store ScopeKeyCurrentTable (ObjTable tbl) ;;;
    ret (And [
      Str "delete from";
      Str (TblName t);
      Str "where";
      Or [
        And [predicates; limitClause];
        And [Str (ColName col); Str "in"; Str "("; multipleRowVal col; Str ")";
             limitClause];
        And [Str (ColName col); Str "is null"; limitClause]
      ]
    ])).

Definition commonDelete : Fn := commonDeleteWith maybeLimit.

(* ------------------------------------------------------------------ *)
(** *** prepared statements *)

Definition prepareStmt : Fn :=
  NewFn (
    id <- AllocGlobalID ScopeKeyPrepareID ;;
    prepare <- newPrepare (GenNewPrepare id) ;;
    AppendPrepare prepare ;;;
    Store ScopeKeyCurrentPrepare (ObjPrepare prepare) ;;;
    p <- derefPrepare prepare ;;
    ret (And [
      Str "prepare";
      Str (PrepName p);
      Str "from";
      Str dquote;
      query;
      Str dquote])).

Definition deallocPrepareStmt : Fn :=
  NewFn (
    ps <- gets prepareStmts ;;
    Assert (0 <? len ps) ;;;
    prepare <- GetRandPrepare ;;
    RemovePrepare prepare ;;;
    p <- derefPrepare prepare ;;
    ret (Strs ["deallocate prepare"; PrepName p])).

Fixpoint injectAll (sqls : list string) : M unit :=
  match sqls with
  | [] => ret tt
  | q :: rest => InjectTodoSQL q ;;; injectAll rest
  end.

Definition queryPrepare : Fn :=
  NewFn (
    ps <- gets prepareStmts ;;
    Assert (0 <? len ps) ;;;
    prepare <- GetRandPrepare ;;
    p <- derefPrepare prepare ;;
    assignments <- liftRand (GenAssignments p) ;;
    match assignments with
    | [] => ret (Str ("execute " ++ PrepName p))
    | first :: others =>
        injectAll others ;;;
        let userVarsStr := String.concat "," (UserVars p) in
        InjectTodoSQL ("execute " ++ PrepName p ++ " using " ++ userVarsStr) ;;;
        ret (Str first)
    end).

Definition dmlStmt : Fn :=
  NewFn (
    ts <- gets tables ;;
    Assert (0 <? len ts) ;;;
    w <- weights ;;
    ps <- gets prepareStmts ;;
    ret (Or [
      SetW (Query_Select w) query;
      If (0 <? len ps) queryPrepare;
      SetW (Query_DML_DEL w) commonDelete;
      SetW (Query_DML_INSERT w) commonInsert;
      SetW (Query_DML_UPDATE w) commonUpdate
    ])).

(* ------------------------------------------------------------------ *)
(** *** schema changes *)

Definition addIndex : Fn :=
  NewFn (
    w <- weights ;;
    o <- Search ScopeKeyCurrentTable ;;
    tbl <- ToTable o ;;
    id <- AllocGlobalID ScopeKeyIndexUniqID ;;
    t <- derefTable tbl ;;
    idx <- liftRand (GenNewIndex id t w) ;;
    modifyTable tbl (AppendIndex AppendIndexInjects idx) ;;;
    ret (Strs ["alter table"; TblName t; "add index"; IdxName idx;
               "("; PrintIndexColumnNames idx; ")"])).

Definition dropIndex : Fn :=
  NewFn (
    o <- Search ScopeKeyCurrentTable ;;
    tbl <- ToTable o ;;
    t <- derefTable tbl ;;
    idx <- GetRandomIndex t ;;
    modifyTable tbl (RemoveIndex idx) ;;;
    ret (Strs ["alter table"; TblName t; "drop index"; IdxName idx])).

Definition addColumn : Fn :=
  NewFn (
    w <- weights ;;
    o <- Search ScopeKeyCurrentTable ;;
    tbl <- ToTable o ;;
    id <- AllocGlobalID ScopeKeyColumnUniqID ;;
    col <- liftRand (GenNewColumn id w) ;;
    modifyTable tbl (AppendColumn col) ;;;
    t <- derefTable tbl ;;
    ret (Strs ["alter table"; TblName t; "add column"; ColName col;
               PrintColumnType col])).

Definition dropColumn : Fn :=
  NewFn (
    o <- Search ScopeKeyCurrentTable ;;
    tbl <- ToTable o ;;
    t <- derefTable tbl ;;
    col <- liftRand (GetRandDroppableColumn t) ;;
    modifyTable tbl (RemoveColumn col) ;;;
    ret (Strs ["alter table"; TblName t; "drop column"; ColName col])).

Definition renameColumn (name : string) (c : Column) : Column :=
  mkColumn (ColId c) name (ColTp c) (ColNullable c) (ColDefaultVal c).

Definition alterColumn : Fn :=
  NewFn (
    w <- weights ;;
    o <- Search ScopeKeyCurrentTable ;;
    tbl <- ToTable o ;;
    t <- derefTable tbl ;;
    col <- liftRand (GetRandColumn t) ;;
    id <- AllocGlobalID ScopeKeyColumnUniqID ;;
    newCol <- liftRand (GenNewColumn id w) ;;
    modifyTable tbl (ReplaceColumn col newCol) ;;;
    change <- RandomBool ;;
    if change : bool then
      ret (Strs ["alter table"; TblName t; "change column"; ColName col;
                 ColName newCol; PrintColumnType newCol])
    else
      (* newCol.Name = col.Name, seen through the pointer the table holds *)
      let renamed := renameColumn (ColName col) newCol in
      modifyTable tbl (ReplaceColumn newCol renamed) ;;;
      ret (Strs ["alter table"; TblName t; "modify column"; ColName col;
                 PrintColumnType renamed])).

Definition ddlStmt : Fn :=
  NewFn (
    tbl <- GetRandTable ;;
    Store ScopeKeyCurrentTable (ObjTable tbl) ;;;
    t <- derefTable tbl ;;
    c <- gets ctrl ;;
    ret (Or [
      addColumn;
      addIndex;
      If ((1 <? len (Columns t)) && HasDroppableColumn t)%bool dropColumn;
      If (0 <? len (Indices t)) dropIndex;
      If (EnableColumnTypeChange c) alterColumn
    ])).

(* ------------------------------------------------------------------ *)
(** *** session switches, drop, flashback, admin check *)

Definition switchRowFormatVer : Fn :=
  NewFn (
    b <- RandomBool ;;
    if b : bool then ret (Str "set @@global.tidb_row_format_version = 2")
    else ret (Str "set @@global.tidb_row_format_version = 1")).

Definition switchClustered : Fn :=
  NewFn (
    b <- RandomBool ;;
    if b : bool then
      modify (set_enabledClustered false) ;;;
      ret (Str "set @@global.tidb_enable_clustered_index = 0")
    else
      modify (set_enabledClustered true) ;;;
      ret (Str "set @@global.tidb_enable_clustered_index = 1")).

Definition dropTable : Fn :=
  NewFn (
    tbl <- GetRandTable ;;
    Store ScopeKeyLastDropTable (ObjTable tbl) ;;;
    t <- derefTable tbl ;;
    ret (Strs ["drop table"; TblName t])).

Definition flashBackTable : Fn :=
  NewFn (
    tbl <- GetRandTable ;;
    t <- derefTable tbl ;;
    InjectTodoSQL ("flashback table " ++ TblName t) ;;;
    ret (Or [
      Strs ["drop table"; TblName t];
      Strs ["truncate table"; TblName t]
    ])).

Definition adminCheck : Fn :=
  NewFn (
    tbl <- GetRandTable ;;
    c <- gets ctrl ;;
    if EnableTestTiFlash c then
      (* Error: Error 1815: Internal : Can't find a proper physical plan for this query *)
      ret (Str "")
    else
      t <- derefTable tbl ;;
      if len (Indices t) =? 0 then
        ret (Strs ["admin check table"; TblName t])
      else
        idx <- GetRandomIndex t ;;
        ret (Or [
          Strs ["admin check table"; TblName t];
          Strs ["admin check index"; TblName t; IdxName idx]
        ])).

(* ------------------------------------------------------------------ *)
(** *** createTable *)

Definition colDef (tbl : TablePtr) (w : Weight) : Fn :=
  NewFn (
    id <- AllocGlobalID ScopeKeyColumnUniqID ;;
    col <- liftRand (GenNewColumn id w) ;;
    modifyTable tbl (AppendColumn col) ;;;
    ret (And [Str (ColName col); Str (PrintColumnType col)])).

Definition colDefs (tbl : TablePtr) (w : Weight) : Fn :=
  NewFn (
    init <- Initialized ;;
    c <- gets ctrl ;;
    if negb init then
      ret (Repeat (colDef tbl w) (InitColCount c) (Str ","))
    else
      ret (RepeatRange 1 (CreateTable_MaxColumnCnt w) (colDef tbl w) (Str ","))).

Definition idxDef (tbl : TablePtr) (w : Weight) : Fn :=
  NewFn (
    id <- AllocGlobalID ScopeKeyIndexUniqID ;;
    t <- derefTable tbl ;;
    idx0 <- liftRand (GenNewIndex id t w) ;;
    idx <- (if IsUnique idx0 then
              partitionedCol <- Search ScopeKeyCurrentPartitionColumn ;;
              if negb (IsNil partitionedCol) then
                (* all partitioned Columns should be contained in every
                   unique/primary index. *)
                match ToColumn partitionedCol with
                | Some c => ret (AppendColumnIfNotExists idx0 c)
                | None => panic "assertion failed"
                end
              else ret idx0
            else ret idx0) ;;
    modifyTable tbl (AppendIndex AppendIndexInjects idx) ;;;
    let clusteredKeyword := "/*T![clustered_index] clustered */" in
    ret (And [
      Str (PrintIndexType idx);
      Str "key";
      Str (IdxName idx);
      Str "(";
      Str (PrintIndexColumnNames idx);
      Str ")";
      OptIf (IndexType_eqb (IdxTp idx) IndexTypePrimary &&
             CreateTable_WithClusterHint w)%bool
            (Str clusteredKeyword)
    ])).

Definition idxDefs (tbl : TablePtr) (w : Weight) : Fn :=
  NewFn (ret (RepeatRange 1 (CreateTable_IndexMoreCol w) (idxDef tbl w) (Str ","))).

Definition hashPart : Z := 0.
Definition rangePart : Z := 1.
Definition listPart : Z := 2.

Definition partitionDef (tbl : TablePtr) (w : Weight) : Fn :=
  NewFn (
    t <- derefTable tbl ;;
    pc <- liftRand (GetRandColumnForPartition t) ;;
    match pc with
    | None => ret Empty
    | Some partitionedCol =>
        StoreInParent ScopeKeyCurrentPartitionColumn (ObjColumn partitionedCol) ;;;
        modifyTable tbl (AppendPartitionColumn partitionedCol) ;;;
        r <- Intn 6 ;;
        let tp := CreateTable_Partition_Type w in
        let randN :=
          if (tp =? "hash")%string then hashPart
          else if (tp =? "list")%string then listPart
          else if (tp =? "range")%string then rangePart
          else r in
        if randN =? hashPart then
          partitionNum <- RandomNum 1 6 ;;
          ret (And [
            Str "partition by";
            Str "hash(";
            Str (ColName partitionedCol);
            Str ")";
            Str "partitions";
            Str partitionNum
          ])
        else if randN =? rangePart then
          r5 <- Intn 5 ;;
          let partitionCount := r5 + 1 in
          vals <- liftRand (RandomValuesAsc partitionedCol partitionCount) ;;
          r2 <- Intn 2 ;;
          let vals' := if r2 =? 0 then (vals ++ ["maxvalue"])%list else vals in
          ret (Strs [
            "partition by range (";
            ColName partitionedCol; ") (";
            PrintRangePartitionDefs vals';
            ")"
          ])
        else if randN =? listPart then
          listVals <- liftRand (RandomValuesAsc partitionedCol 20) ;;
          r3 <- Intn 3 ;;
          listGroups <- liftRand (RandomGroups listVals (r3 + 1)) ;;
          ret (Strs [
            "partition by";
            "list(";
            ColName partitionedCol;
            ") (";
            PrintListPartitionDefs listGroups;
            ")"
          ])
        else ret Empty
    end).

(** The node [createTable] returns: the pieces are evaluated beforehand and
    [r] is the draw [rand.Intn(indexOpt)]. *)
Definition createTableStmt (name eColDefs eIdxDefs ePartitionDef : string)
    (r : Z) : Fn :=
  And [
    Str "create table";
    Str name;
    Str "(";
    Str eColDefs;
    OptIf (negb (r =? 0))
      (And [
        Str ",";
        Str eIdxDefs
      ]);
    Str ")";
    Str ePartitionDef
  ].

Definition indexOpt (w : Weight) : Z :=
  if Query_INDEX_MERGE w then 1000000 else 10.

Definition createTable : Fn :=
  NewFn (
    w <- weights ;;
    id <- AllocGlobalID ScopeKeyTableUniqID ;;
    tbl <- newTable (GenNewTable id) ;;
    AppendTable tbl ;;;
    c <- gets ctrl ;;
    (if EnableTestTiFlash c then
       InjectTodoSQL ("alter table " ++ TblName (GenNewTable id) ++
                      " set tiflash replica 1") ;;;
       InjectTodoSQL "select sleep(20)"
     else ret tt) ;;;
    eColDefs <- Eval (colDefs tbl w) ;;
    ePartitionDef <- Eval (partitionDef tbl w) ;;
    eIdxDefs <- Eval (idxDefs tbl w) ;;
    t <- derefTable tbl ;;
    r <- Intn (indexOpt w) ;;
    ret (createTableStmt (TblName t) eColDefs eIdxDefs ePartitionDef r)).

Definition createTableLike : Fn :=
  NewFn (
    tbl <- GetRandTable ;;
    newTbl <- Clone tbl ;;
    AppendTable newTbl ;;;
    t <- derefTable tbl ;;
    n <- derefTable newTbl ;;
    ret (Strs ["create table"; TblName n; "like"; TblName t])).

Definition insertInto : Fn :=
  NewFn (
    init <- Initialized ;;
    Assert (negb init) ;;;
    o <- GetFirstNonFullTable ;;
    match o with
    | None => panic "nil pointer dereference"
    | Some tbl =>
        t <- derefTable tbl ;;
        vals <- liftRand (GenRandValues t (Columns t)) ;;
        AppendRow tbl vals ;;;
        ret (And [
          Str "insert into";
          Str (TblName t);
          Str "values";
          Str "(";
          Str (PrintRandValues vals);
          Str ")"
        ])
    end).

(* ------------------------------------------------------------------ *)
(** *** outfile, load, split *)

Definition selectIntoOutFile : Fn :=
  NewFn (
    tbl <- GetRandTable ;;
    StoreInRoot ScopeKeyLastOutFileTable (ObjTable tbl) ;;;
    t <- derefTable tbl ;;
    id <- AllocGlobalID ScopeKeyTmpFileID ;;
    let tmpFile := pathJoin SelectOutFileDir (TblName t ++ "_" ++ itoa id ++ ".txt") in
    ret (Strs ["select * from"; TblName t; "into outfile"; squote tmpFile])).

Definition loadTable : Fn :=
  NewFn (
    o <- Search ScopeKeyLastOutFileTable ;;
    tbl <- ToTable o ;;
    o' <- Search ScopeKeyTmpFileID ;;
    id <- ToInt o' ;;
    t <- derefTable tbl ;;
    let tmpFile := pathJoin SelectOutFileDir (TblName t ++ "_" ++ itoa id ++ ".txt") in
    i <- Intn (len (childTables t)) ;;
    randChildTable <- indexList "childTables" (childTables t) i ;;
    child <- derefTable randChildTable ;;
    ret (Strs ["load data local infile"; squote tmpFile; "into table";
               TblName child])).

Definition firstTwo (rows : list (list string)) : M (list string * list string) :=
  match rows with
  | low :: high :: _ => ret (low, high)
  | _ => panic "index out of range: rows"
  end.

(* split table t between (1, 2) and (100, 200) regions 2; *)
Definition splitTableRegionBetween (tbl : TablePtr) (splitTablePrefix : string) : Fn :=
  NewFn (
    t <- derefTable tbl ;;
    rows <- liftRand (GenMultipleRowsAscForHandleCols t 2) ;;
    lh <- firstTwo rows ;;
    n <- RandomNum 2 10 ;;
    ret (Strs [splitTablePrefix; "between";
               "("; PrintRandValues (fst lh); ")"; "and";
               "("; PrintRandValues (snd lh); ")"; "regions"; n])).

(* split table t index idx between (1, 2) and (100, 200) regions 2; *)
Definition splitIndexRegionBetween (tbl : TablePtr) (idx : Index)
    (splitTablePrefix idxPrefix : string) : Fn :=
  NewFn (
    t <- derefTable tbl ;;
    rows <- liftRand (GenMultipleRowsAscForIndexCols t 2 idx) ;;
    lh <- firstTwo rows ;;
    n <- RandomNum 2 10 ;;
    ret (Strs [splitTablePrefix; idxPrefix; "between";
               "("; PrintRandValues (fst lh); ")"; "and";
               "("; PrintRandValues (snd lh); ")"; "regions"; n])).

(* split table t by ((1, 2), (100, 200)); *)
Definition splitTableRegionBy (tbl : TablePtr) (splitTablePrefix : string) : Fn :=
  NewFn (
    r <- Intn 10 ;;
    t <- derefTable tbl ;;
    rows <- liftRand (GenMultipleRowsAscForHandleCols t (r + 2)) ;;
    ret (Strs [splitTablePrefix; "by"; PrintSplitByItems rows])).

(* split table t index idx by ((1, 2), (100, 200)); *)
Definition splitIndexRegionBy (tbl : TablePtr) (idx : Index)
    (splitTablePrefix idxPrefix : string) : Fn :=
  NewFn (
    r <- Intn 10 ;;
    t <- derefTable tbl ;;
    rows <- liftRand (GenMultipleRowsAscForIndexCols t (r + 2) idx) ;;
    ret (Strs [splitTablePrefix; idxPrefix; "by"; PrintSplitByItems rows])).

Definition splitRegion : Fn :=
  NewFn (
    tbl <- GetRandTable ;;
    t <- derefTable tbl ;;
    let splitTablePrefix := "split table " ++ TblName t in
    splittingIndex <- (if 0 <? len (Indices t) then RandomBool else ret false) ;;
    if splittingIndex : bool then
      idx <- GetRandomIndex t ;;
      let idxPrefix := "index " ++ IdxName idx in
      ret (Or [splitIndexRegionBetween tbl idx splitTablePrefix idxPrefix;
               splitIndexRegionBy tbl idx splitTablePrefix idxPrefix])
    else
      ret (Or [splitTableRegionBetween tbl splitTablePrefix;
               splitTableRegionBy tbl splitTablePrefix])).

(* ------------------------------------------------------------------ *)
(** *** start *)

Definition initStart : Fn :=
  NewFn (
    init <- Initialized ;;
    Assert (negb init) ;;;
    ts <- gets tables ;;
    c <- gets ctrl ;;
    if len ts <? InitTableCount c then ret createTable
    else ret insertInto).

Definition start : Fn :=
  NewFn (
    w <- weights ;;
    todo <- PopOneTodoSQL ;;
    match todo with
    | Some s => ret (Str s)
    | None =>
        init <- Initialized ;;
        if negb init then
          eInitStart <- Eval initStart ;;
          met <- MeetInitializedDemand ;;
          (if met : bool then SetInitialized else ret tt) ;;;
          ret (Str eInitStart)
        else
          ts <- gets tables ;;
          c <- gets ctrl ;;
          ps <- gets prepareStmts ;;
          lastOutFile <- Search ScopeKeyLastOutFileTable ;;
          ret (Or [
            SetW (SetRowFormat w) switchRowFormatVer;
            SetW (SetClustered w) switchClustered;
            SetW (AdminCheck w) adminCheck;
            SetW (CreateTable w)
              (If (len ts <? MaxTableNum c)
                (Or [
                  SetW (CreateTable_WithoutLike w) createTable;
                  createTableLike
                ]));
            SetW (Query w)
              (If (0 <? len ts)
                (Or [
                  SetW (Query_DML w) dmlStmt;
                  SetW (Query_DDL w) ddlStmt;
                  SetW (Query_Split w) splitRegion;
                  SetW (Query_Analyze w) commonAnalyze;
                  SetW (Query_Prepare w) prepareStmt;
                  SetW 1 (If (0 <? len ps) deallocPrepareStmt);
                  SetW 1 (If (CanReadGCSavePoint c) flashBackTable);
                  SetW 1
                    (If (EnableSelectOutFileAndLoadData c)
                      (Or [
                        SetW 1 selectIntoOutFile;
                        If (negb (IsNil lastOutFile)) loadTable
                      ]))
                ]))
          ])
    end).


Definition Generate : M string := (Eval start).

(** [n] successive calls of the producer. *)
Fixpoint runGenerator (n : nat) : M (list string) :=
  match n with
  | O => ret []
  | S m =>
      sql <- Generate ;;
      rest <- runGenerator m ;;
      ret (sql :: rest)
  end.

End Productions.

(* ================================================================== *)
(** ** The driver: [runInteractTest] *)

(** What the comparison reads of a [resultset.ResultSet]. *)
Record ResultSet := mkResultSet {
  OrderedDigest : string;
  DataDigest : string;
  PrettyPrint : string;
  IsExecResult : bool;
  RowsAffected : Z
}.

(** A Go [error]: nil, or a value with a message. *)
Definition error := option string.

(** What a database does with a statement: [QueryContext] fails, or the rows
    are read by [resultset.ReadFromRows]. *)
Inductive Answer :=
| QueryFails (msg : string)
| RowsRead (rs : option ResultSet) (err : error).

Definition DB := string -> Answer.

Definition runQuery (db : DB) (sql : string) : option ResultSet * error :=
  match db sql with
  | QueryFails msg => (None, Some msg)
  | RowsRead rs err => (rs, err)
  end.

Definition errContains (err : error) (msg : string) : bool :=
  match err with
  | Some m => Contains m msg
  | None => false
  end.

Definition OneOfContains (err1 err2 : error) (msg : string) : bool :=
  let c1 := (isSome err1 && errContains err1 msg && negb (isSome err2))%bool in
  let c2 := (isSome err2 && errContains err2 msg && negb (isSome err1))%bool in
  (c1 || c2)%bool.

Definition ignoreErrMsgs : list string := [
  "with index covered now";
  "Unknown system variable";
  "Split table region lower value count should be";
  "Column count doesn't match value count";
  "for column '_tidb_rowid'";
  "Unknown column '_tidb_rowid'"
].

Definition ValidateErrs (err1 err2 : error) : bool :=
  (existsb (OneOfContains err1 err2) ignoreErrMsgs ||
   ((negb (isSome err1) && negb (isSome err2)) ||
    (isSome err1 && isSome err2)))%bool.

(** The errors [runInteractTest] returns. *)
Inductive TestError :=
| DatabaseError (msg : string)
| ErrorsMismatch (err1 err2 : error) (sql : string)
| DigestsMismatch (h1 h2 sql pretty1 pretty2 : string)
| RowsAffectedMismatch (n1 n2 : Z) (sql : string).

Definition isAdminCheck (sql : string) : bool :=
  let lsql := ToLower sql in
  (Contains lsql "admin" && Contains lsql "check")%bool.

Definition runInteractTest (db1 db2 : DB) (sql : string)
    (sortQueryResult : bool) : option TestError :=
  let '(rs1, err1) := runQuery db1 sql in
  let '(rs2, err2) := runQuery db2 sql in
  if (isAdminCheck sql && isSome err1 && negb (errContains err1 "t exist"))%bool
  then option_map DatabaseError err1
  else if (isAdminCheck sql && isSome err2 && negb (errContains err2 "t exist"))%bool
  then option_map DatabaseError err2
  else if negb (ValidateErrs err1 err2)
  then Some (ErrorsMismatch err1 err2 sql)
  else
    match rs1, rs2 with
    | Some r1, Some r2 =>
        let '(h1, h2) :=
          if sortQueryResult then (OrderedDigest r1, OrderedDigest r2)
          else (DataDigest r1, DataDigest r2) in
        if negb (h1 =? h2)%string
        then Some (DigestsMismatch h1 h2 sql (PrettyPrint r1) (PrettyPrint r2))
        else if (IsExecResult r1 && negb (RowsAffected r1 =? RowsAffected r2))%bool
        then Some (RowsAffectedMismatch (RowsAffected r1) (RowsAffected r2) sql)
        else None
    | _, _ => None
    end.

Definition RunInteractTest (db1 db2 : DB) (sql : string) : option TestError :=
  runInteractTest db1 db2 sql true.

Definition RunInteractTestNoSort (db1 db2 : DB) (sql : string) : option TestError :=
  runInteractTest db1 db2 sql false.

(* ================================================================== *)
(** ** A concrete package and concrete states, for the examples *)

Definition noneCol : Column := mkColumn 0 "" ColumnTypeInt false "".

Definition pureRand {A} (a : A) : Rand A := fun r => (a, r).

Definition lastCol (t : Table) : Column := last (Columns t) noneCol.

Definition colNames (cs : list Column) : string :=
  String.concat "," (map ColName cs).

Definition demoHelpers : Helpers := {|
  prng := fun seed i => seed + Z.of_nat i;
  pathJoin := fun d f => d ++ "/" ++ f;
  SelectOutFileDir := "/tmp";
  AppendIndexInjects := false;
  GenNewColumn := fun id _ => pureRand (mkColumn id ("c" ++ itoa id) ColumnTypeInt true "");
  GenNewIndex := fun id t _ =>
    pureRand (mkIndex id ("i" ++ itoa id) IndexTypeUnique (firstn 1 (Columns t)));
  PrintColumnType := fun _ => "int";
  PrintIndexType := fun idx =>
    match IdxTp idx with
    | IndexTypeNonUnique => ""
    | IndexTypeUnique => "unique"
    | IndexTypePrimary => "primary"
    end;
  PrintIndexColumnNames := fun idx => colNames (IdxColumns idx);
  PrintRangePartitionDefs := String.concat ",";
  PrintListPartitionDefs := fun gs => String.concat ";" (map (String.concat ",") gs);
  PrintRandValues := String.concat ",";
  PrintColumnNamesWithoutPar := fun cs dflt =>
    match cs with [] => dflt | _ => colNames cs end;
  PrintColumnNamesWithPar := fun cs dflt =>
    match cs with [] => dflt | _ => "(" ++ colNames cs ++ ")" end;
  PrintPredicateDNF := fun _ _ => "1";
  PrintPredicateCompoundDNF := fun _ _ => "1";
  PrintPredicateIn := fun _ _ => "1";
  PrintFullQualifiedColName := fun t cs => colNames cs;
  PrintSplitByItems := fun _ => "()";
  PrintRandomAggFunc := fun _ _ => pureRand "count(*) aggCol";
  PrintRandomWindowFunc := fun _ => pureRand "row_number()";
  PrintRandomWindow := fun _ => pureRand "()";
  PrintRandomAssignments := fun _ => pureRand "";
  SwapOutParameterizedColumns := fun cs => pureRand ([], cs);
  GetRandColumn := fun t => pureRand (hd noneCol (Columns t));
  GetRandColumns := fun t => pureRand (Columns t);
  GetRandColumnsNonEmpty := fun t => pureRand (Columns t);
  GetRandColumnsIncludedDefaultValue := fun t => pureRand (Columns t);
  GetRandColumnsSimple := fun t => pureRand (hd noneCol (Columns t));
  GetRandColumnsPreferIndex := fun t => pureRand (hd noneCol (Columns t));
  GetRandIndexFirstColumnWithWeight := fun t _ _ => pureRand (hd noneCol (Columns t));
  GetRandUniqueIndexForPointGet := fun _ => pureRand None;
  GetRandIndexPrefixColumn := fun _ => pureRand [];
  GetPrimaryKeyIndex := fun _ => None;
  GetRandColumnForPartition := fun t =>
    pureRand (match Columns t with [] => None | _ => Some (lastCol t) end);
  GetRandDroppableColumn := fun t => pureRand (lastCol t);
  HasDroppableColumn := fun _ => true;
  GenRandValues := fun _ cs => pureRand (map (fun _ => "1") cs);
  GetRandRow := fun _ cs => pureRand (map (fun _ => "1") cs);
  GetRandRowVal := fun _ _ => pureRand "1";
  GenMultipleRowsAscForHandleCols := fun _ n => pureRand (repeat ["1"] (Z.to_nat n));
  GenMultipleRowsAscForIndexCols := fun _ n _ => pureRand (repeat ["1"] (Z.to_nat n));
  NewColumnCell := fun _ => "NULL";
  RemoveColumn := fun c t =>
    setColumns (filter (fun c' => negb (ColId c' =? ColId c)) (Columns t)) t;
  ReplaceColumn := fun old new t =>
    setColumns (map (fun c' => if ColId c' =? ColId old then new else c') (Columns t)) t;
  CloneTable := fun t tid _ _ =>
    mkTable tid ("t" ++ itoa tid) (Columns t) (Indices t) (PartitionColumns t) [] [] [];
  RandomValue := fun _ => pureRand "1";
  RandomValuesAsc := fun _ n => pureRand (repeat "1" (Z.to_nat n));
  RandomGroups := fun vs _ => pureRand [vs];
  GenAssignments := fun _ => pureRand [];
  UserVars := fun _ => []
|}.

Definition demoWeight : Weight := {|
  SetRowFormat := 1; SetClustered := 1; AdminCheck := 1;
  CreateTable := 13; CreateTable_WithoutLike := 4;
  CreateTable_MaxColumnCnt := 3; CreateTable_IndexMoreCol := 2;
  CreateTable_WithClusterHint := true; CreateTable_Partition_Type := "hash";
  Query := 100; Query_DML := 20; Query_DDL := 5; Query_Split := 0;
  Query_Analyze := 0; Query_Prepare := 2; Query_Select := 1;
  Query_DML_DEL := 1; Query_DML_DEL_COMMON := 1; Query_DML_DEL_INDEX := 0;
  Query_DML_DEL_INDEX_COMMON := 1; Query_DML_INSERT := 1;
  Query_DML_INSERT_ON_DUP := 1; Query_DML_UPDATE := 1;
  Query_DML_Can_Be_Replace := true; Query_HasOrderby := 1; Query_HasLimit := 1;
  Query_Union := 1; Query_Window := 1; Query_INDEX_MERGE := false
|}.

Definition demoCtrl (initTables maxTables : Z) : ControlOption := {|
  InitTableCount := initTables; InitColCount := 2; MaxTableNum := maxTables;
  StrictTransTable := true; CanReadGCSavePoint := true;
  EnableSelectOutFileAndLoadData := true; EnableTestTiFlash := false;
  EnableColumnTypeChange := true; EnableAggPushDown := false; AggType := "";
  CtrlWeight := demoWeight
|}.

(** The draws of a run, listed; a draw past the end of the list is 0. *)
Definition draws (l : list Z) : RandSource := mkRand (fun i => nth i l 0) 0.

(** The state of a fresh generator. *)
Definition freshState (c : ControlOption) (r : RandSource) : State := {|
  ctrl := c; tables := []; tableStore := []; prepareStmts := [];
  prepareStore := []; todoSQLs := []; initialized := false;
  enabledClustered := true; scopeRoot := []; scopeStack := []; rand := r
|}.


(** A fresh generator asked for two initial tables while at most one table
    is allowed. *)
Definition twoInitialTables : State := freshState (demoCtrl 2 1) (draws []).

(** A fresh generator with one initial table. *)
Definition oneInitialTable : State := freshState (demoCtrl 1 1) (draws []).

(** A database on which the table is missing, and one that answers. *)
Definition dbMissing : DB :=
  fun _ => QueryFails "Error 1146: Table 'test.t0' doesn't exist".

Definition dbAnswers : DB :=
  fun _ => RowsRead (Some (mkResultSet "d41d" "d41d" "" false 0)) None.

(** A generator whose catalog holds one table without columns. *)
Definition oneEmptyTable : State :=
  set_tableStore [GenNewTable 0] (set_tables [0%nat] oneInitialTable).

(** The same generator after [selectIntoOutFile] has recorded that table as
    the last one written to a file. *)
Definition afterOutFile : State :=
  set_scopeRoot [(ScopeKeyLastOutFileTable, ObjTable 0%nat)] oneEmptyTable.

(** The same catalog under a control surface that tests TiFlash. *)
Definition oneEmptyTableTiFlash : State :=
  set_ctrl {|
    InitTableCount := 1; InitColCount := 2; MaxTableNum := 1;
    StrictTransTable := true; CanReadGCSavePoint := true;
    EnableSelectOutFileAndLoadData := true; EnableTestTiFlash := true;
    EnableColumnTypeChange := true; EnableAggPushDown := false; AggType := "";
    CtrlWeight := demoWeight
  |} oneEmptyTable.

(** The generator holding one deferred statement. *)
Definition queuedFlashback : State :=
  set_todoSQLs ["flashback table t0"] oneEmptyTable.

(** The generator once it is initialized. *)
Definition initializedTable : State := set_initialized true oneEmptyTable.

(** The demonstration package with a prepared statement of two
    parameters. *)
Definition demoHelpersWithParams : Helpers := {|
  prng := @prng demoHelpers;
  pathJoin := @pathJoin demoHelpers;
  SelectOutFileDir := @SelectOutFileDir demoHelpers;
  AppendIndexInjects := @AppendIndexInjects demoHelpers;
  GenNewColumn := @GenNewColumn demoHelpers;
  GenNewIndex := @GenNewIndex demoHelpers;
  PrintColumnType := @PrintColumnType demoHelpers;
  PrintIndexType := @PrintIndexType demoHelpers;
  PrintIndexColumnNames := @PrintIndexColumnNames demoHelpers;
  PrintRangePartitionDefs := @PrintRangePartitionDefs demoHelpers;
  PrintListPartitionDefs := @PrintListPartitionDefs demoHelpers;
  PrintRandValues := @PrintRandValues demoHelpers;
  PrintColumnNamesWithoutPar := @PrintColumnNamesWithoutPar demoHelpers;
  PrintColumnNamesWithPar := @PrintColumnNamesWithPar demoHelpers;
  PrintPredicateDNF := @PrintPredicateDNF demoHelpers;
  PrintPredicateCompoundDNF := @PrintPredicateCompoundDNF demoHelpers;
  PrintPredicateIn := @PrintPredicateIn demoHelpers;
  PrintFullQualifiedColName := @PrintFullQualifiedColName demoHelpers;
  PrintSplitByItems := @PrintSplitByItems demoHelpers;
  PrintRandomAggFunc := @PrintRandomAggFunc demoHelpers;
  PrintRandomWindowFunc := @PrintRandomWindowFunc demoHelpers;
  PrintRandomWindow := @PrintRandomWindow demoHelpers;
  PrintRandomAssignments := @PrintRandomAssignments demoHelpers;
  SwapOutParameterizedColumns := @SwapOutParameterizedColumns demoHelpers;
  GetRandColumn := @GetRandColumn demoHelpers;
  GetRandColumns := @GetRandColumns demoHelpers;
  GetRandColumnsNonEmpty := @GetRandColumnsNonEmpty demoHelpers;
  GetRandColumnsIncludedDefaultValue := @GetRandColumnsIncludedDefaultValue demoHelpers;
  GetRandColumnsSimple := @GetRandColumnsSimple demoHelpers;
  GetRandColumnsPreferIndex := @GetRandColumnsPreferIndex demoHelpers;
  GetRandIndexFirstColumnWithWeight := @GetRandIndexFirstColumnWithWeight demoHelpers;
  GetRandUniqueIndexForPointGet := @GetRandUniqueIndexForPointGet demoHelpers;
  GetRandIndexPrefixColumn := @GetRandIndexPrefixColumn demoHelpers;
  GetPrimaryKeyIndex := @GetPrimaryKeyIndex demoHelpers;
  GetRandColumnForPartition := @GetRandColumnForPartition demoHelpers;
  GetRandDroppableColumn := @GetRandDroppableColumn demoHelpers;
  HasDroppableColumn := @HasDroppableColumn demoHelpers;
  GenRandValues := @GenRandValues demoHelpers;
  GetRandRow := @GetRandRow demoHelpers;
  GetRandRowVal := @GetRandRowVal demoHelpers;
  GenMultipleRowsAscForHandleCols := @GenMultipleRowsAscForHandleCols demoHelpers;
  GenMultipleRowsAscForIndexCols := @GenMultipleRowsAscForIndexCols demoHelpers;
  NewColumnCell := @NewColumnCell demoHelpers;
  RemoveColumn := @RemoveColumn demoHelpers;
  ReplaceColumn := @ReplaceColumn demoHelpers;
  CloneTable := @CloneTable demoHelpers;
  RandomValue := @RandomValue demoHelpers;
  RandomValuesAsc := @RandomValuesAsc demoHelpers;
  RandomGroups := @RandomGroups demoHelpers;
  GenAssignments := fun _ => pureRand ["set @u1=1"; "set @u2=2"];
  UserVars := fun _ => ["@u1"; "@u2"]
|}.

(** The demonstration weights with nothing to draw a delete from. *)
Definition noDeleteWeight : Weight := {|
  SetRowFormat := 1; SetClustered := 1; AdminCheck := 1;
  CreateTable := 13; CreateTable_WithoutLike := 4;
  CreateTable_MaxColumnCnt := 3; CreateTable_IndexMoreCol := 2;
  CreateTable_WithClusterHint := true; CreateTable_Partition_Type := "hash";
  Query := 100; Query_DML := 20; Query_DDL := 5; Query_Split := 0;
  Query_Analyze := 0; Query_Prepare := 2; Query_Select := 1;
  Query_DML_DEL := 1; Query_DML_DEL_COMMON := 0; Query_DML_DEL_INDEX := 0;
  Query_DML_DEL_INDEX_COMMON := 1; Query_DML_INSERT := 1;
  Query_DML_INSERT_ON_DUP := 1; Query_DML_UPDATE := 1;
  Query_DML_Can_Be_Replace := true; Query_HasOrderby := 1; Query_HasLimit := 1;
  Query_Union := 1; Query_Window := 1; Query_INDEX_MERGE := false
|}.

Definition withoutDeleteWeights : State :=
  set_ctrl {|
    InitTableCount := 1; InitColCount := 2; MaxTableNum := 1;
    StrictTransTable := true; CanReadGCSavePoint := true;
    EnableSelectOutFileAndLoadData := true; EnableTestTiFlash := false;
    EnableColumnTypeChange := true; EnableAggPushDown := false; AggType := "";
    CtrlWeight := noDeleteWeight
  |} oneEmptyTable.

(** The catalog with one prepared statement. *)
Definition onePrepared : State :=
  set_prepareStmts [0%nat] (set_prepareStore [GenNewPrepare 0] oneEmptyTable).

(** The catalog inside a statement about its table. *)
Definition insideStatement : State :=
  set_scopeStack [[(ScopeKeyCurrentTable, ObjTable 0%nat)]] oneEmptyTable.

(** The same, inside a query over two tables. *)
Definition insideJoin : State :=
  set_scopeStack
    [[(ScopeKeyCurrentMultiTable, ObjTables [0%nat; 0%nat])];
     [(ScopeKeyCurrentTable, ObjTable 0%nat)]] oneEmptyTable.

(** A database whose statements affect one row, and one whose statements
    affect two. *)
Definition dbOneRow : DB :=
  fun _ => RowsRead (Some (mkResultSet "d41d" "d41d" "" true 1)) None.

Definition dbTwoRows : DB :=
  fun _ => RowsRead (Some (mkResultSet "d41d" "d41d" "" true 2)) None.

(* ================================================================== *)
(** * Properties *)

(** ** Vocabulary *)

(** A relation between the state before and the state after an evaluation
    that can be carried through the evaluator: it is a preorder, survives the
    scope frame the evaluator pushes and pops, and ignores the random
    source. *)
Class KeepRel (R : State -> State -> Prop) : Prop := {
  fr_refl : forall s, R s s;
  fr_trans : forall s1 s2 s3, R s1 s2 -> R s2 s3 -> R s1 s3;
  fr_scope : forall s s1, R (pushScope s) s1 -> R s (popScope s1);
  fr_rand : forall s r, R s (set_rand r s)
}.

(** Every successful run of [m] relates its two states by [R]. *)
Definition Keeps (R : State -> State -> Prop) {A} (m : M A) : Prop :=
  forall s a s', m s = Ok a s' -> R s s'.

Definition KeepsFn (R : State -> State -> Prop) (f : Fn) : Prop :=
  Keeps R (Gen f).

(** The body of a [NewFn]: the body and the node it returns. *)
Definition KeepsNode (R : State -> State -> Prop) (m : M Fn) : Prop :=
  forall s g s', m s = Ok g s' -> R s s' /\ KeepsFn R g.

(** The list of tables and the two limits on it are the same in both
    states. *)
Definition sameCatalog (s s' : State) : Prop :=
  tables s' = tables s /\
  MaxTableNum (ctrl s') = MaxTableNum (ctrl s) /\
  InitTableCount (ctrl s') = InitTableCount (ctrl s).

(** One table has been appended; the limits are the same. *)
Definition addsTable (s s' : State) : Prop :=
  (exists p, tables s' = (tables s ++ [p])%list) /\
  MaxTableNum (ctrl s') = MaxTableNum (ctrl s) /\
  InitTableCount (ctrl s') = InitTableCount (ctrl s).

(** Relations that survive the evaluator's scope frame and a change of the
    random source before the run, without being preorders. *)
Class Blind (R : State -> State -> Prop) : Prop := {
  blind_refl : forall s, R s s;
  blind_scope : forall s s1, R (pushScope s) s1 -> R s (popScope s1);
  blind_rand : forall s r s', R (set_rand r s) s' -> R s s'
}.

(** After initialization: the tables were [ts] and the limit [mx] when
    [start] built its choice; a table is added only below the limit. *)
Definition guardedStep (ts : list TablePtr) (mx : Z) (s s' : State) : Prop :=
  tables s = ts -> MaxTableNum (ctrl s) = mx ->
  sameCatalog s s' \/ (addsTable s s' /\ len ts < mx).

(** What one call of the producer does to the list of tables: nothing, or
    one table more, and then only below the limit that is in force. *)
Definition stepRel (s s' : State) : Prop :=
  sameCatalog s s' \/
  (addsTable s s' /\
   len (tables s) <
     (if initialized s then MaxTableNum (ctrl s) else InitTableCount (ctrl s))).

Definition tableBound (s : State) : Z :=
  Z.max (MaxTableNum (ctrl s)) (InitTableCount (ctrl s)).

(** Two nodes that evaluate alike and weigh the same in an [Or]. *)
Definition sameNode (f g : Fn) : Prop :=
  effWeight f = effWeight g /\ forall s, Eval f s = Eval g s.

(** Two bodies that run alike and return nodes that evaluate alike. *)
Definition sameBody (m1 m2 : M Fn) : Prop :=
  forall s,
    match m1 s, m2 s with
    | Ok g1 s1, Ok g2 s2 => s1 = s2 /\ sameNode g1 g2
    | Panic msg1, Panic msg2 => msg1 = msg2
    | _, _ => False
    end.

(** The state after one more draw from the random source. *)
Definition afterDraw (s : State) : State :=
  set_rand (mkRand (stream (rand s)) (S (cursor (rand s)))) s.

(** The productions [start] chooses from once the catalog is initialized. *)
Definition startProductions `{Helpers} : list Fn :=
  [switchRowFormatVer; switchClustered; adminCheck; createTable;
   createTableLike; dmlStmt; ddlStmt; splitRegion; commonAnalyze; prepareStmt;
   deallocPrepareStmt; flashBackTable; selectIntoOutFile; loadTable].

(** The evaluation from [s] to [s'] with output [out] emitted nothing and
    left the deferred queue alone, or it was the evaluation of one of
    [leaves], entered with the queue of [s] and leaving its queue to [s']. *)
Definition selectsFrom (leaves : list Fn) (s : State) (out : string)
    (s' : State) : Prop :=
  (out = "" /\ todoSQLs s' = todoSQLs s) \/
  (exists f s_in s_out,
     In f leaves /\ todoSQLs s_in = todoSQLs s /\
     Eval f s_in = Ok out s_out /\ todoSQLs s' = todoSQLs s_out).

Definition EvalSelects (leaves : list Fn) (f : Fn) : Prop :=
  forall s out s', Eval f s = Ok out s' -> selectsFrom leaves s out s'.

(** The next value of [rand.Intn(n)] in state [s]. *)
Definition nextDraw (s : State) (n : Z) : Z :=
  stream (rand s) (cursor (rand s)) mod n.




(** The identifier the next [AllocGlobalID(ScopeKeyColumnUniqID)] returns. *)
Definition nextColumnID (s : State) : Z :=
  match frameLookup ScopeKeyColumnUniqID (scopeRoot s) with
  | Some (ObjInt n) => n
  | _ => 0
  end.

(** The text of one column definition. *)
Definition columnDefText `{Helpers} (c : Column) : string :=
  joinTokens [ColName c; PrintColumnType c].

Fixpoint intersperse {A} (sep : A) (l : list A) : list A :=
  match l with
  | [] => []
  | [x] => [x]
  | x :: rest => x :: sep :: intersperse sep rest
  end.

(** The state [colDef] leaves: the identifier counter, the random source
    and the table have moved on; the column is the one [GenNewColumn] makes
    for the fresh identifier. *)
Definition newColumn `{Helpers} (w : Weight) (s : State) : Column :=
  fst (GenNewColumn (nextColumnID s) w (rand s)).

Definition afterColDef `{Helpers} (tbl : TablePtr) (w : Weight) (t : Table)
    (s : State) : State :=
  set_tableStore
    (replaceNth tbl (AppendColumn (newColumn w s) t) (tableStore s))
    (set_rand (snd (GenNewColumn (nextColumnID s) w (rand s)))
       (set_scopeRoot
          (frameStore ScopeKeyColumnUniqID (ObjInt (nextColumnID s + 1))
                      (scopeRoot s)) s)).

(** The columns a run of [n] evaluations of [colDef] generates from state
    [s], and the state it leaves. *)
Fixpoint colDefRun `{Helpers} (n : nat) (tbl : TablePtr) (w : Weight)
    (t : Table) (s : State) : list Column * Table * State :=
  match n with
  | O => ([], t, s)
  | S m =>
      let c := newColumn w s in
      let '(cs, t', s') :=
        colDefRun m tbl w (AppendColumn c t) (afterColDef tbl w t s) in
      (c :: cs, t', s')
  end.

(** Each column is what [GenNewColumn] makes for the next fresh identifier,
    starting from [id]. *)
Fixpoint generatedFrom `{Helpers} (id : Z) (w : Weight) (cols : list Column)
  : Prop :=
  match cols with
  | [] => True
  | c :: rest =>
      (exists r, c = fst (GenNewColumn id w r)) /\ generatedFrom (id + 1) w rest
  end.

(** Every unique (or primary) index of the table contains every partition
    column of the table. *)
Definition partitionKeptByUniqueIndexes (t : Table) : Prop :=
  forall pc idx,
    In pc (PartitionColumns t) -> In idx (Indices t) ->
    IsUnique idx = true -> IndexContainsColumn idx pc = true.

(** The frames pushed by the evaluator hold [pc] as the current partition
    column. *)
Definition partitionInScope (s : State) (pc : Column) : Prop :=
  stackLookup ScopeKeyCurrentPartitionColumn (scopeStack s) =
    Some (ObjColumn pc).

(** What holds of the table under construction while its index definitions
    are evaluated. *)
Definition indexingInv (tbl : TablePtr) (s : State) : Prop :=
  exists t,
    nth_error (tableStore s) tbl = Some t /\
    partitionKeptByUniqueIndexes t /\
    forall pc, In pc (PartitionColumns t) -> partitionInScope s pc.

(** The scope frames are as before, and the table at [tbl] has the same
    indices and partition columns. *)
Definition sameIndexing (tbl : TablePtr) (s s' : State) : Prop :=
  scopeStack s' = scopeStack s /\
  forall t, nth_error (tableStore s) tbl = Some t ->
    exists t', nth_error (tableStore s') tbl = Some t' /\
               Indices t' = Indices t /\
               PartitionColumns t' = PartitionColumns t.

(** The scope frames are as before, and [indexingInv] is kept. *)
Definition keepsIndexingInv (tbl : TablePtr) (s s' : State) : Prop :=
  scopeStack s' = scopeStack s /\ (indexingInv tbl s -> indexingInv tbl s').

(** The scope frames and the tables are as before. *)
Definition sameStore (s s' : State) : Prop :=
  scopeStack s' = scopeStack s /\ tableStore s' = tableStore s.

(** Relations that no write of a production can break: they ignore the
    scope frames, the deferred queue, the tables, the prepared statements and
    the clustered-index switch, and they survive the two writes the
    productions make to the rest of the state, raising the initialized flag
    and setting the two aggregation options. *)
Class KeepsWrites (R : State -> State -> Prop) : Prop := {
  kw_scopeRoot : forall f s, R s (set_scopeRoot f s);
  kw_scopeStack : forall st s, R s (set_scopeStack st s);
  kw_todoSQLs : forall q s, R s (set_todoSQLs q s);
  kw_tables : forall ts s, R s (set_tables ts s);
  kw_tableStore : forall h s, R s (set_tableStore h s);
  kw_prepareStmts : forall ps s, R s (set_prepareStmts ps s);
  kw_prepareStore : forall h s, R s (set_prepareStore h s);
  kw_enabledClustered : forall b s, R s (set_enabledClustered b s);
  kw_initialized : forall s, R s (set_initialized true s);
  kw_agg : forall push tp s, R s (set_ctrl (setAgg push tp (ctrl s)) s)
}.

(** The control options are the same but for the two aggregation options,
    and the initialized flag has not been lowered. *)
Definition sameSetup (s s' : State) : Prop :=
  setAgg false "" (ctrl s') = setAgg false "" (ctrl s) /\
  (initialized s = true -> initialized s' = true).

(** The deferred queue is as before, and the table at [tbl] has kept its
    name and has lost no index. *)
Definition tableGrows (tbl : TablePtr) (s s' : State) : Prop :=
  todoSQLs s' = todoSQLs s /\
  forall t, nth_error (tableStore s) tbl = Some t ->
    exists t', nth_error (tableStore s') tbl = Some t' /\
               TblName t' = TblName t /\
               (length (Indices t) <= length (Indices t'))%nat.

(** The statements [createTable] defers when TiFlash is under test. *)
Definition tiflashStatements (c : ControlOption) (name : string) : list string :=
  if EnableTestTiFlash c then
    ["alter table " ++ name ++ " set tiflash replica 1"; "select sleep(20)"]
  else [].

(** The scope frames are as before, and no table but the one at [tbl] has
    been written. *)
Definition onlyAt (tbl : TablePtr) (s s' : State) : Prop :=
  scopeStack s' = scopeStack s /\
  forall p, p <> tbl -> nth_error (tableStore s') p = nth_error (tableStore s) p.

(** The scope frames are as before and, when they hold [tbl] as the current
    table, no other table has been written. *)
Definition touchesOnly (tbl : TablePtr) (s s' : State) : Prop :=
  scopeStack s' = scopeStack s /\
  (stackLookup ScopeKeyCurrentTable (scopeStack s) = Some (ObjTable tbl) ->
   forall p, p <> tbl ->
     nth_error (tableStore s') p = nth_error (tableStore s) p).

(** The value [Search] finds for [k] in state [s]. *)
Definition scopeValue (k : ScopeKeyType) (s : State) : ScopeObj :=
  match stackLookup k (scopeStack s) with
  | Some o => o
  | None =>
      match frameLookup k (scopeRoot s) with
      | Some o => o
      | None => ObjNil
      end
  end.

(* ------------------------------------------------------------------ *)
(** ** Running the monad *)

Lemma bind_ok {A B} (m : M A) (k : A -> M B) s b s' :
  bind m k s = Ok b s' ->
  exists a s1, m s = Ok a s1 /\ k a s1 = Ok b s'.
Proof.
  unfold bind. destruct (m s) as [a s1|msg]; [eauto | discriminate].
Qed.

Lemma bind_eq {A B} (m : M A) (k : A -> M B) s a s1 :
  m s = Ok a s1 -> bind m k s = k a s1.
Proof. unfold bind. intros ->. reflexivity. Qed.

Lemma bind_panic {A B} (m : M A) (k : A -> M B) s msg :
  m s = Panic msg -> bind m k s = Panic msg.
Proof. unfold bind. intros ->. reflexivity. Qed.

(** Splits a successful run of [x <- m ;; k] into the run of [m] and the run
    of [k]. *)
Tactic Notation "run_inv" hyp(H) "as" ident(a) ident(s1) ident(H1) :=
  apply bind_ok in H; destruct H as (a & s1 & H1 & H).

Lemma gets_ok {A} (f : State -> A) s a s' :
  gets f s = Ok a s' -> a = f s /\ s' = s.
Proof. intros E. injection E as <- <-. auto. Qed.

Lemma modify_ok (f : State -> State) s a s' :
  modify f s = Ok a s' -> s' = f s.
Proof. unfold modify. intros E. inversion E. reflexivity. Qed.

Lemma ret_ok {A} (x : A) s a s' : ret x s = Ok a s' -> a = x /\ s' = s.
Proof. intros E. injection E as <- <-. auto. Qed.

Lemma Assert_ok b s a s' : Assert b s = Ok a s' -> b = true /\ s' = s.
Proof. destruct b; intros E; [injection E as <- <-; auto | discriminate]. Qed.

(** Undoes a read of the state: [gets], [weights], [Initialized], ... *)
Ltac gets_inv H := apply gets_ok in H; destruct H as [-> ->].

Lemma Intn_ok n s r s' :
  Intn n s = Ok r s' ->
  0 <= r < n /\ s' = set_rand (mkRand (stream (rand s)) (S (cursor (rand s)))) s.
Proof.
  unfold Intn. destruct (n <=? 0) eqn:E; [discriminate|].
  apply Z.leb_gt in E. intros H. injection H as <- <-.
  split; [apply Z.mod_pos_bound; exact E | reflexivity].
Qed.

Lemma liftRand_ok {A} (f : Rand A) s a s' :
  liftRand f s = Ok a s' ->
  a = fst (f (rand s)) /\ s' = set_rand (snd (f (rand s))) s.
Proof.
  unfold liftRand. destruct (f (rand s)). intros E. injection E as <- <-. auto.
Qed.

Lemma derefTable_ok p s t s' :
  derefTable p s = Ok t s' -> nth_error (tableStore s) p = Some t /\ s' = s.
Proof.
  unfold derefTable. destruct (nth_error (tableStore s) p);
    intros E; [injection E as <- <-; auto | discriminate].
Qed.

Lemma indexList_ok {A} what (l : list A) i s a s' :
  indexList what l i s = Ok a s' -> In a l /\ s' = s.
Proof.
  unfold indexList. destruct (nth_error l (Z.to_nat i)) eqn:E;
    intros H; [|discriminate].
  injection H as <- <-. split; [eapply nth_error_In; eauto | reflexivity].
Qed.

Lemma PopOneTodoSQL_ok s o s' :
  PopOneTodoSQL s = Ok o s' ->
  match o with
  | None => todoSQLs s = [] /\ s' = s
  | Some q => exists rest, todoSQLs s = q :: rest /\ s' = set_todoSQLs rest s
  end.
Proof.
  unfold PopOneTodoSQL. destruct (todoSQLs s) as [|q rest];
    intros E; injection E as <- <-; eauto.
Qed.

Lemma pop_push s : popScope (pushScope s) = s.
Proof. destruct s; reflexivity. Qed.

Lemma Eval_ok f s out s' :
  Eval f s = Ok out s' ->
  exists s1, Gen f (pushScope s) = Ok out s1 /\ s' = popScope s1.
Proof.
  unfold Eval, CreateScope, DestroyScope, modify, ret. intros E.
  run_inv E as u s1 H1. injection H1 as <- <-.
  run_inv E as r s2 H2. run_inv E as u' s3 H3.
  injection H3 as <- <-. injection E as <- <-. eauto.
Qed.

Lemma Eval_eq f s out s1 :
  Gen f (pushScope s) = Ok out s1 -> Eval f s = Ok out (popScope s1).
Proof.
  intros E. unfold Eval, CreateScope, DestroyScope, modify, bind, ret.
  rewrite E. reflexivity.
Qed.

Lemma Eval_panic f s msg :
  Gen f (pushScope s) = Panic msg -> Eval f s = Panic msg.
Proof.
  intros E. unfold Eval, CreateScope, DestroyScope, modify, bind, ret.
  rewrite E. reflexivity.
Qed.

Lemma Eval_Str str s : Eval (Str str) s = Ok str s.
Proof. destruct s; reflexivity. Qed.

Lemma Eval_Empty s : Eval Empty s = Ok "" s.
Proof. apply Eval_Str. Qed.

(* ------------------------------------------------------------------ *)
(** ** What the combinators preserve *)

Section Keeping.
Context {R : State -> State -> Prop} `{KeepRel R}.

Lemma Keeps_ret {A} (a : A) : Keeps R (ret a).
Proof. intros s b s' E. injection E as <- <-. apply fr_refl. Qed.

Lemma Keeps_panic {A} msg : Keeps R (@panic A msg).
Proof. intros s b s' E. discriminate. Qed.

Lemma Keeps_bind {A B} (m : M A) (k : A -> M B) :
  Keeps R m -> (forall a, Keeps R (k a)) -> Keeps R (bind m k).
Proof.
  intros Hm Hk s b s' E. run_inv E as a s1 H1.
  eapply fr_trans; [eapply Hm | eapply Hk]; eauto.
Qed.

Lemma Keeps_gets {A} (f : State -> A) : Keeps R (gets f).
Proof. intros s b s' E. injection E as <- <-. apply fr_refl. Qed.

Lemma Keeps_modify (f : State -> State) :
  (forall s, R s (f s)) -> Keeps R (modify f).
Proof. intros Hf s b s' E. injection E as <- <-. apply Hf. Qed.

Lemma Keeps_Assert b : Keeps R (Assert b).
Proof. destruct b; [apply Keeps_ret | apply Keeps_panic]. Qed.

Lemma Keeps_Intn n : Keeps R (Intn n).
Proof.
  intros s b s' E. apply Intn_ok in E. destruct E as [_ ->]. apply fr_rand.
Qed.

Lemma Keeps_liftRand {A} (f : Rand A) : Keeps R (liftRand f).
Proof.
  intros s b s' E. apply liftRand_ok in E. destruct E as [_ ->]. apply fr_rand.
Qed.

Lemma Keeps_derefTable p : Keeps R (derefTable p).
Proof.
  intros s b s' E. apply derefTable_ok in E. destruct E as [_ ->]. apply fr_refl.
Qed.

Lemma Keeps_derefPrepare p : Keeps R (derefPrepare p).
Proof.
  intros s b s' E. unfold derefPrepare in E.
  destruct (nth_error (prepareStore s) p); [|discriminate].
  injection E as <- <-. apply fr_refl.
Qed.

Lemma Keeps_indexList {A} what (l : list A) i : Keeps R (indexList what l i).
Proof.
  unfold indexList. destruct (nth_error l (Z.to_nat i));
    [apply Keeps_ret | apply Keeps_panic].
Qed.

Lemma Keeps_ToTable o : Keeps R (ToTable o).
Proof. destruct o; first [apply Keeps_ret | apply Keeps_panic]. Qed.

Lemma Keeps_ToTables o : Keeps R (ToTables o).
Proof. destruct o; first [apply Keeps_ret | apply Keeps_panic]. Qed.

Lemma Keeps_ToPrepare o : Keeps R (ToPrepare o).
Proof. destruct o; first [apply Keeps_ret | apply Keeps_panic]. Qed.

Lemma Keeps_ToInt o : Keeps R (ToInt o).
Proof. destruct o; first [apply Keeps_ret | apply Keeps_panic]. Qed.

Lemma Keeps_Eval f : KeepsFn R f -> Keeps R (Eval f).
Proof.
  intros Hf s out s' E. apply Eval_ok in E. destruct E as (s1 & E & ->).
  apply fr_scope. eapply Hf. exact E.
Qed.

Lemma KeepsFn_Str str : KeepsFn R (Str str).
Proof. apply Keeps_ret. Qed.

Lemma KeepsFn_Strs parts : KeepsFn R (Strs parts).
Proof. apply Keeps_ret. Qed.

Lemma KeepsFn_Empty : KeepsFn R Empty.
Proof. apply Keeps_ret. Qed.

Lemma KeepsFn_NeverReach : KeepsFn R NeverReach.
Proof. apply Keeps_panic. Qed.

Lemma KeepsFn_SetW w f : KeepsFn R f -> KeepsFn R (SetW w f).
Proof. intros Hf. exact Hf. Qed.

Lemma KeepsFn_If c f : KeepsFn R f -> KeepsFn R (If c f).
Proof. intros Hf. destruct c; [exact Hf | apply Keeps_ret]. Qed.

Lemma Keeps_evalAll fs : Forall (KeepsFn R) fs -> Keeps R (evalAll fs).
Proof.
  induction 1 as [|f fs Hf _ IH]; simpl.
  - apply Keeps_ret.
  - apply Keeps_bind; [apply Keeps_Eval, Hf | intros r].
    apply Keeps_bind; [exact IH | intros rs]. apply Keeps_ret.
Qed.

Lemma KeepsFn_And fs : Forall (KeepsFn R) fs -> KeepsFn R (And fs).
Proof.
  intros Hfs. unfold KeepsFn, And; simpl.
  apply Keeps_bind; [apply Keeps_evalAll, Hfs | intros rs; apply Keeps_ret].
Qed.

Lemma KeepsFn_nth fs n : Forall (KeepsFn R) fs -> KeepsFn R (nth n fs Empty).
Proof.
  intros Hfs. revert n. induction Hfs as [|f fs Hf _ IH]; intros [|n]; simpl;
    auto using KeepsFn_Empty.
Qed.

Lemma KeepsFn_Or fs : Forall (KeepsFn R) fs -> KeepsFn R (Or fs).
Proof.
  intros Hfs. unfold KeepsFn, Or; simpl.
  destruct (totalWeight fs <=? 0); [apply Keeps_ret|].
  apply Keeps_bind; [apply Keeps_Intn | intros r].
  apply Keeps_Eval, KeepsFn_nth, Hfs.
Qed.

Lemma KeepsFn_Opt f : KeepsFn R f -> KeepsFn R (Opt f).
Proof.
  intros Hf. apply KeepsFn_Or.
  apply Forall_cons; [apply KeepsFn_Empty|].
  apply Forall_cons; [exact Hf | apply Forall_nil].
Qed.

Lemma KeepsFn_OptIf c f : KeepsFn R f -> KeepsFn R (OptIf c f).
Proof.
  intros Hf. destruct c; [apply KeepsFn_Opt, Hf | apply KeepsFn_Empty].
Qed.

Lemma Keeps_repeatEval n child sep :
  KeepsFn R child -> KeepsFn R sep -> Keeps R (repeatEval n child sep).
Proof.
  intros Hc Hs. induction n as [|m IH]; simpl; [apply Keeps_ret|].
  apply Keeps_bind; [apply Keeps_Eval, Hc | intros r].
  destruct m; [apply Keeps_ret|].
  apply Keeps_bind; [apply Keeps_Eval, Hs | intros x].
  apply Keeps_bind; [exact IH | intros rest]. apply Keeps_ret.
Qed.

Lemma KeepsFn_Repeat child n sep :
  KeepsFn R child -> KeepsFn R sep -> KeepsFn R (Repeat child n sep).
Proof.
  intros Hc Hs. unfold KeepsFn, Repeat; simpl.
  apply Keeps_bind; [apply Keeps_repeatEval; assumption | intros rs].
  apply Keeps_ret.
Qed.

Lemma KeepsFn_RepeatRange lo hi child sep :
  KeepsFn R child -> KeepsFn R sep -> KeepsFn R (RepeatRange lo hi child sep).
Proof.
  intros Hc Hs. unfold KeepsFn, RepeatRange; simpl.
  apply Keeps_bind; [apply Keeps_Intn | intros r].
  apply KeepsFn_Repeat; assumption.
Qed.

Lemma KeepsNode_ret g : KeepsFn R g -> KeepsNode R (ret g).
Proof.
  intros Hg s g' s' E. injection E as <- <-. split; [apply fr_refl | exact Hg].
Qed.

Lemma KeepsNode_panic msg : KeepsNode R (panic msg).
Proof. intros s g s' E. discriminate. Qed.

Lemma KeepsNode_bind {A} (m : M A) (k : A -> M Fn) :
  Keeps R m -> (forall a, KeepsNode R (k a)) -> KeepsNode R (bind m k).
Proof.
  intros Hm Hk s g s' E. run_inv E as a s1 H1.
  destruct (Hk _ _ _ _ E) as [Hs Hg]. split; [|exact Hg].
  eapply fr_trans; [eapply Hm|]; eauto.
Qed.

Lemma KeepsFn_NewFn body : KeepsNode R body -> KeepsFn R (NewFn body).
Proof.
  intros Hb s out s' E. unfold NewFn in E; simpl in E. run_inv E as g s1 H1.
  destruct (Hb _ _ _ H1) as [Hs Hg].
  eapply fr_trans; [exact Hs|]. eapply Keeps_Eval; eauto.
Qed.

Lemma Keeps_RandomBool : Keeps R RandomBool.
Proof.
  unfold RandomBool. apply Keeps_bind; [apply Keeps_Intn | intros r].
  apply Keeps_ret.
Qed.

Lemma Keeps_RandomNum lo hi : Keeps R (RandomNum lo hi).
Proof.
  unfold RandomNum. apply Keeps_bind; [apply Keeps_Intn | intros r].
  apply Keeps_ret.
Qed.

End Keeping.

Create HintDb keeps.

(** One step of a preservation proof: the goal is taken apart along the structure
    of the computation; what is left is looked up among the lemmas already
    proved. *)
Ltac keeps_step :=
  lazymatch goal with
  | |- Keeps _ (bind _ _) => apply Keeps_bind; [ | intros ? ]
  | |- Keeps _ (ret _) => apply Keeps_ret
  | |- Keeps _ (panic _) => apply Keeps_panic
  | |- Keeps _ (gets _) => apply Keeps_gets
  | |- Keeps _ (Assert _) => apply Keeps_Assert
  | |- Keeps _ (Intn _) => apply Keeps_Intn
  | |- Keeps _ (liftRand _) => apply Keeps_liftRand
  | |- Keeps _ (derefTable _) => apply Keeps_derefTable
  | |- Keeps _ (derefPrepare _) => apply Keeps_derefPrepare
  | |- Keeps _ (indexList _ _ _) => apply Keeps_indexList
  | |- Keeps _ (ToTable _) => apply Keeps_ToTable
  | |- Keeps _ (ToTables _) => apply Keeps_ToTables
  | |- Keeps _ (ToPrepare _) => apply Keeps_ToPrepare
  | |- Keeps _ (ToInt _) => apply Keeps_ToInt
  | |- Keeps _ RandomBool => apply Keeps_RandomBool
  | |- Keeps _ (RandomNum _ _) => apply Keeps_RandomNum
  | |- Keeps _ (Eval _) => apply Keeps_Eval
  | |- Keeps _ (if ?b then _ else _) => destruct b
  | |- Keeps _ (match ?x with _ => _ end) => destruct x
  | |- Keeps _ (let _ := _ in _) => cbv zeta
  | |- Keeps _ _ => solve [eauto with keeps]
  | |- KeepsFn _ (NewFn _) => apply KeepsFn_NewFn
  | |- KeepsFn _ (Str _) => apply KeepsFn_Str
  | |- KeepsFn _ (Strs _) => apply KeepsFn_Strs
  | |- KeepsFn _ Empty => apply KeepsFn_Empty
  | |- KeepsFn _ NeverReach => apply KeepsFn_NeverReach
  | |- KeepsFn _ (And _) => apply KeepsFn_And
  | |- KeepsFn _ (Or _) => apply KeepsFn_Or
  | |- KeepsFn _ (SetW _ _) => apply KeepsFn_SetW
  | |- KeepsFn _ (If _ _) => apply KeepsFn_If
  | |- KeepsFn _ (Opt _) => apply KeepsFn_Opt
  | |- KeepsFn _ (OptIf _ _) => apply KeepsFn_OptIf
  | |- KeepsFn _ (Repeat _ _ _) => apply KeepsFn_Repeat
  | |- KeepsFn _ (RepeatRange _ _ _ _) => apply KeepsFn_RepeatRange
  | |- KeepsFn _ (if ?b then _ else _) => destruct b
  | |- KeepsFn _ (match ?x with _ => _ end) => destruct x
  | |- KeepsFn _ (let _ := _ in _) => cbv zeta
  | |- KeepsFn _ _ => solve [eauto with keeps]
  | |- Forall _ (_ :: _) => apply Forall_cons
  | |- Forall _ [] => apply Forall_nil
  | |- KeepsNode _ (bind _ _) => apply KeepsNode_bind; [ | intros ? ]
  | |- KeepsNode _ (ret _) => apply KeepsNode_ret
  | |- KeepsNode _ (panic _) => apply KeepsNode_panic
  | |- KeepsNode _ (if ?b then _ else _) => destruct b
  | |- KeepsNode _ (match ?x with _ => _ end) => destruct x
  | |- KeepsNode _ (let _ := _ in _) => cbv zeta
  end.

Ltac keeps := repeat keeps_step.

(* ------------------------------------------------------------------ *)
(** ** Productions that leave the list of tables alone *)

#[export] Instance KeepRel_sameCatalog : KeepRel sameCatalog.
Proof.
  split.
  - intros s. repeat split.
  - unfold sameCatalog. intros s1 s2 s3 (a & b & c) (d & e & f).
    repeat split; congruence.
  - intros s s1 (a & b & c). repeat split; assumption.
  - intros s r. repeat split.
Qed.

Lemma Keeps_Store k o : Keeps sameCatalog (Store k o).
Proof.
  apply Keeps_modify. intros s. destruct (scopeStack s); repeat split.
Qed.

Lemma Keeps_StoreInParent k o : Keeps sameCatalog (StoreInParent k o).
Proof.
  apply Keeps_modify. intros s.
  destruct (scopeStack s) as [|f [|g rest]]; repeat split.
Qed.

Lemma Keeps_StoreInRoot k o : Keeps sameCatalog (StoreInRoot k o).
Proof. apply Keeps_modify. intros s. repeat split. Qed.

Lemma Keeps_InjectTodoSQL q : Keeps sameCatalog (InjectTodoSQL q).
Proof. apply Keeps_modify. intros s. repeat split. Qed.

Lemma Keeps_AppendPrepare p : Keeps sameCatalog (AppendPrepare p).
Proof. apply Keeps_modify. intros s. repeat split. Qed.

Lemma Keeps_RemovePrepare p : Keeps sameCatalog (RemovePrepare p).
Proof. apply Keeps_modify. intros s. repeat split. Qed.

Lemma Keeps_SetInitialized : Keeps sameCatalog SetInitialized.
Proof. apply Keeps_modify. intros s. repeat split. Qed.

Lemma Keeps_set_enabledClustered b :
  Keeps sameCatalog (modify (set_enabledClustered b)).
Proof. apply Keeps_modify. intros s. repeat split. Qed.

Lemma Keeps_setAgg b tp :
  Keeps sameCatalog (modify (fun s => set_ctrl (setAgg b tp (ctrl s)) s)).
Proof. apply Keeps_modify. intros s. repeat split. Qed.

Lemma Keeps_newTable t : Keeps sameCatalog (newTable t).
Proof. intros s b s' E. injection E as <- <-. repeat split. Qed.

Lemma Keeps_newPrepare t : Keeps sameCatalog (newPrepare t).
Proof. intros s b s' E. injection E as <- <-. repeat split. Qed.

Lemma Keeps_modifyTable p f : Keeps sameCatalog (modifyTable p f).
Proof.
  unfold modifyTable. apply Keeps_bind; [apply Keeps_derefTable | intros t].
  apply Keeps_modify. intros s. repeat split.
Qed.

Lemma Keeps_modifyPrepare p f : Keeps sameCatalog (modifyPrepare p f).
Proof.
  unfold modifyPrepare. apply Keeps_bind; [apply Keeps_derefPrepare | intros t].
  apply Keeps_modify. intros s. repeat split.
Qed.

Lemma Keeps_PopOneTodoSQL : Keeps sameCatalog PopOneTodoSQL.
Proof.
  intros s a s' E. unfold PopOneTodoSQL in E.
  destruct (todoSQLs s); injection E as <- <-; repeat split.
Qed.

#[export] Hint Resolve Keeps_Store Keeps_StoreInParent Keeps_StoreInRoot
  Keeps_InjectTodoSQL Keeps_AppendPrepare Keeps_RemovePrepare
  Keeps_SetInitialized Keeps_set_enabledClustered Keeps_setAgg Keeps_newTable
  Keeps_newPrepare Keeps_modifyTable Keeps_modifyPrepare Keeps_PopOneTodoSQL
  : keeps.

Lemma Keeps_AllocGlobalID k : Keeps sameCatalog (AllocGlobalID k).
Proof. unfold AllocGlobalID. keeps. Qed.

#[export] Hint Resolve Keeps_AllocGlobalID : keeps.

Lemma Keeps_allocIDs k n : Keeps sameCatalog (allocIDs k n).
Proof. induction n; simpl; keeps. Qed.

Lemma Keeps_GetRandTable : Keeps sameCatalog GetRandTable.
Proof. unfold GetRandTable. keeps. Qed.

Lemma Keeps_GetRandPrepare : Keeps sameCatalog GetRandPrepare.
Proof. unfold GetRandPrepare. keeps. Qed.

Lemma Keeps_GetRandomIndex t : Keeps sameCatalog (GetRandomIndex t).
Proof. unfold GetRandomIndex. keeps. Qed.

Lemma Keeps_AppendRow p vals : Keeps sameCatalog (AppendRow p vals).
Proof. unfold AppendRow. keeps. Qed.

Lemma Keeps_injectAll sqls : Keeps sameCatalog (injectAll sqls).
Proof. induction sqls; simpl; keeps. Qed.

Lemma Keeps_Search k : Keeps sameCatalog (Search k).
Proof. apply Keeps_gets. Qed.

Lemma Keeps_Initialized : Keeps sameCatalog Initialized.
Proof. apply Keeps_gets. Qed.

Lemma Keeps_MeetInitializedDemand : Keeps sameCatalog MeetInitializedDemand.
Proof. apply Keeps_gets. Qed.

Lemma Keeps_GetFirstNonFullTable : Keeps sameCatalog GetFirstNonFullTable.
Proof. apply Keeps_gets. Qed.

#[export] Hint Resolve Keeps_allocIDs Keeps_GetRandTable Keeps_GetRandPrepare
  Keeps_GetRandomIndex Keeps_AppendRow Keeps_injectAll Keeps_Search
  Keeps_Initialized Keeps_MeetInitializedDemand Keeps_GetFirstNonFullTable
  : keeps.

Section KeepsCatalog.
Context `{Helpers}.

Lemma Keeps_weights : Keeps sameCatalog weights.
Proof. apply Keeps_gets. Qed.

Hint Resolve Keeps_weights : keeps.

Lemma Keeps_Clone p : Keeps sameCatalog (Clone p).
Proof. unfold Clone. keeps. Qed.

Hint Resolve Keeps_Clone : keeps.

Lemma Keeps_getTable : Keeps sameCatalog getTable.
Proof. unfold getTable. keeps. Qed.

Hint Resolve Keeps_getTable : keeps.

Lemma KeepsFn_cmpSymbol : KeepsFn sameCatalog cmpSymbol.
Proof. unfold cmpSymbol. keeps. Qed.

Hint Resolve KeepsFn_cmpSymbol : keeps.

Lemma KeepsFn_maybeLimit : KeepsFn sameCatalog maybeLimit.
Proof. unfold maybeLimit. keeps. Qed.

Hint Resolve KeepsFn_maybeLimit : keeps.

Lemma KeepsFn_randVal tbl c : KeepsFn sameCatalog (randVal tbl c).
Proof. unfold randVal. keeps. Qed.

Hint Resolve KeepsFn_randVal : keeps.

Lemma KeepsFn_randColVals tbl c : KeepsFn sameCatalog (randColVals tbl c).
Proof. unfold randColVals. keeps. Qed.

Hint Resolve KeepsFn_randColVals : keeps.

Lemma KeepsFn_predicate : KeepsFn sameCatalog predicate.
Proof. unfold predicate. keeps. Qed.

Hint Resolve KeepsFn_predicate : keeps.

Lemma KeepsFn_andPredicates : KeepsFn sameCatalog andPredicates.
Proof. unfold andPredicates. keeps. Qed.

Hint Resolve KeepsFn_andPredicates : keeps.

Lemma Keeps_pointGetRows n tbl cols : Keeps sameCatalog (pointGetRows n tbl cols).
Proof. induction n; simpl; keeps. Qed.

Hint Resolve Keeps_pointGetRows : keeps.

Lemma KeepsFn_predicatesPointGet tbl idx : KeepsFn sameCatalog (predicatesPointGet tbl idx).
Proof. unfold predicatesPointGet. keeps. Qed.

Hint Resolve KeepsFn_predicatesPointGet : keeps.

Lemma KeepsFn_predicates : KeepsFn sameCatalog predicates.
Proof. unfold predicates. keeps. Qed.

Hint Resolve KeepsFn_predicates : keeps.

Lemma Keeps_joinColumns b t1 t2 : Keeps sameCatalog (joinColumns b t1 t2).
Proof. unfold joinColumns. keeps. Qed.

Hint Resolve Keeps_joinColumns : keeps.

Lemma KeepsFn_joinPredicate b t1 t2 : KeepsFn sameCatalog (joinPredicate b t1 t2).
Proof. unfold joinPredicate. keeps. Qed.

Hint Resolve KeepsFn_joinPredicate : keeps.

Lemma KeepsFn_joinPredicates b t1 t2 : KeepsFn sameCatalog (joinPredicates b t1 t2).
Proof. unfold joinPredicates. keeps. Qed.

Hint Resolve KeepsFn_joinPredicates : keeps.

Lemma KeepsFn_joinHint b n1 n2 : KeepsFn sameCatalog (joinHint b n1 n2).
Proof. unfold joinHint. keeps. Qed.

Hint Resolve KeepsFn_joinHint : keeps.

Lemma Keeps_retryCol2 n b tbl2 c1 c2 :
  Keeps sameCatalog (retryCol2 n b tbl2 c1 c2).
Proof. revert c2. induction n; intros c2; simpl; keeps. Qed.

Hint Resolve Keeps_retryCol2 : keeps.

Lemma KeepsFn_semiJoinStmt b t1 t2 cols : KeepsFn sameCatalog (semiJoinStmt b t1 t2 cols).
Proof. unfold semiJoinStmt. keeps. Qed.

Hint Resolve KeepsFn_semiJoinStmt : keeps.

Lemma KeepsFn_multiTableQuery : KeepsFn sameCatalog multiTableQuery.
Proof. unfold multiTableQuery. keeps. Qed.

Hint Resolve KeepsFn_multiTableQuery : keeps.

Lemma KeepsFn_commonSelect tbl cols : KeepsFn sameCatalog (commonSelect tbl cols).
Proof. unfold commonSelect. keeps. Qed.

Hint Resolve KeepsFn_commonSelect : keeps.

Lemma KeepsFn_forUpdateOpt : KeepsFn sameCatalog forUpdateOpt.
Proof. unfold forUpdateOpt. keeps. Qed.

Hint Resolve KeepsFn_forUpdateOpt : keeps.

Lemma KeepsFn_union : KeepsFn sameCatalog union.
Proof. unfold union. keeps. Qed.

Hint Resolve KeepsFn_union : keeps.

Lemma Keeps_randColumns n tbl : Keeps sameCatalog (randColumns n tbl).
Proof. induction n; simpl; keeps. Qed.

Hint Resolve Keeps_randColumns : keeps.

Lemma KeepsFn_aggSelect tbl w : KeepsFn sameCatalog (aggSelect tbl w).
Proof. unfold aggSelect. keeps. Qed.

Hint Resolve KeepsFn_aggSelect : keeps.

Lemma KeepsFn_windowSelect tbl w : KeepsFn sameCatalog (windowSelect tbl w).
Proof. unfold windowSelect. keeps. Qed.

Hint Resolve KeepsFn_windowSelect : keeps.

Lemma KeepsFn_query : KeepsFn sameCatalog query.
Proof. unfold query. keeps. Qed.

Hint Resolve KeepsFn_query : keeps.

Lemma KeepsFn_onDuplicateUpdate tbl w : KeepsFn sameCatalog (onDuplicateUpdate tbl w).
Proof. unfold onDuplicateUpdate. keeps. Qed.

Hint Resolve KeepsFn_onDuplicateUpdate : keeps.

Lemma KeepsFn_rowVal tbl cols : KeepsFn sameCatalog (rowVal tbl cols).
Proof. unfold rowVal. keeps. Qed.

Hint Resolve KeepsFn_rowVal : keeps.

Lemma KeepsFn_multipleRowVals tbl cols : KeepsFn sameCatalog (multipleRowVals tbl cols).
Proof. unfold multipleRowVals. keeps. Qed.

Hint Resolve KeepsFn_multipleRowVals : keeps.

Lemma KeepsFn_insertSetStmt tbl : KeepsFn sameCatalog (insertSetStmt tbl).
Proof. unfold insertSetStmt. keeps. Qed.

Hint Resolve KeepsFn_insertSetStmt : keeps.

Lemma KeepsFn_commonInsert : KeepsFn sameCatalog commonInsert.
Proof. unfold commonInsert. keeps. Qed.

Hint Resolve KeepsFn_commonInsert : keeps.

Lemma KeepsFn_updateAssignment tbl : KeepsFn sameCatalog (updateAssignment tbl).
Proof. unfold updateAssignment. keeps. Qed.

Hint Resolve KeepsFn_updateAssignment : keeps.

Lemma KeepsFn_updateAssignments tbl : KeepsFn sameCatalog (updateAssignments tbl).
Proof. unfold updateAssignments. keeps. Qed.

Hint Resolve KeepsFn_updateAssignments : keeps.

Lemma KeepsFn_commonUpdateWith l :
  KeepsFn sameCatalog l -> KeepsFn sameCatalog (commonUpdateWith l).
Proof. intros Hl. unfold commonUpdateWith. keeps. Qed.

Lemma KeepsFn_commonUpdate : KeepsFn sameCatalog commonUpdate.
Proof. apply KeepsFn_commonUpdateWith, KeepsFn_maybeLimit. Qed.

Hint Resolve KeepsFn_commonUpdate : keeps.

Lemma KeepsFn_commonAnalyze : KeepsFn sameCatalog commonAnalyze.
Proof. unfold commonAnalyze. keeps. Qed.

Hint Resolve KeepsFn_commonAnalyze : keeps.

Lemma KeepsFn_randRowVal col : KeepsFn sameCatalog (randRowVal col).
Proof. unfold randRowVal. keeps. Qed.

Hint Resolve KeepsFn_randRowVal : keeps.

Lemma KeepsFn_multipleRowVal col : KeepsFn sameCatalog (multipleRowVal col).
Proof. unfold multipleRowVal. keeps. Qed.

Hint Resolve KeepsFn_multipleRowVal : keeps.

Lemma KeepsFn_commonDeleteWith l :
  KeepsFn sameCatalog l -> KeepsFn sameCatalog (commonDeleteWith l).
Proof. intros Hl. unfold commonDeleteWith. keeps. Qed.

Lemma KeepsFn_commonDelete : KeepsFn sameCatalog commonDelete.
Proof. apply KeepsFn_commonDeleteWith, KeepsFn_maybeLimit. Qed.

Hint Resolve KeepsFn_commonDelete : keeps.

Lemma KeepsFn_prepareStmt : KeepsFn sameCatalog prepareStmt.
Proof. unfold prepareStmt. keeps. Qed.

Hint Resolve KeepsFn_prepareStmt : keeps.

Lemma KeepsFn_deallocPrepareStmt : KeepsFn sameCatalog deallocPrepareStmt.
Proof. unfold deallocPrepareStmt. keeps. Qed.

Hint Resolve KeepsFn_deallocPrepareStmt : keeps.

Lemma KeepsFn_queryPrepare : KeepsFn sameCatalog queryPrepare.
Proof. unfold queryPrepare. keeps. Qed.

Hint Resolve KeepsFn_queryPrepare : keeps.

Lemma KeepsFn_dmlStmt : KeepsFn sameCatalog dmlStmt.
Proof. unfold dmlStmt. keeps. Qed.

Hint Resolve KeepsFn_dmlStmt : keeps.

Lemma KeepsFn_addIndex : KeepsFn sameCatalog addIndex.
Proof. unfold addIndex. keeps. Qed.

Hint Resolve KeepsFn_addIndex : keeps.

Lemma KeepsFn_dropIndex : KeepsFn sameCatalog dropIndex.
Proof. unfold dropIndex. keeps. Qed.

Hint Resolve KeepsFn_dropIndex : keeps.

Lemma KeepsFn_addColumn : KeepsFn sameCatalog addColumn.
Proof. unfold addColumn. keeps. Qed.

Hint Resolve KeepsFn_addColumn : keeps.

Lemma KeepsFn_dropColumn : KeepsFn sameCatalog dropColumn.
Proof. unfold dropColumn. keeps. Qed.

Hint Resolve KeepsFn_dropColumn : keeps.

Lemma KeepsFn_alterColumn : KeepsFn sameCatalog alterColumn.
Proof. unfold alterColumn. keeps. Qed.

Hint Resolve KeepsFn_alterColumn : keeps.

Lemma KeepsFn_ddlStmt : KeepsFn sameCatalog ddlStmt.
Proof. unfold ddlStmt. keeps. Qed.

Hint Resolve KeepsFn_ddlStmt : keeps.

Lemma KeepsFn_switchRowFormatVer : KeepsFn sameCatalog switchRowFormatVer.
Proof. unfold switchRowFormatVer. keeps. Qed.

Hint Resolve KeepsFn_switchRowFormatVer : keeps.

Lemma KeepsFn_switchClustered : KeepsFn sameCatalog switchClustered.
Proof. unfold switchClustered. keeps. Qed.

Hint Resolve KeepsFn_switchClustered : keeps.

Lemma KeepsFn_dropTable : KeepsFn sameCatalog dropTable.
Proof. unfold dropTable. keeps. Qed.

Hint Resolve KeepsFn_dropTable : keeps.

Lemma KeepsFn_flashBackTable : KeepsFn sameCatalog flashBackTable.
Proof. unfold flashBackTable. keeps. Qed.

Hint Resolve KeepsFn_flashBackTable : keeps.

Lemma KeepsFn_adminCheck : KeepsFn sameCatalog adminCheck.
Proof. unfold adminCheck. keeps. Qed.

Hint Resolve KeepsFn_adminCheck : keeps.

Lemma KeepsFn_colDef tbl w : KeepsFn sameCatalog (colDef tbl w).
Proof. unfold colDef. keeps. Qed.

Hint Resolve KeepsFn_colDef : keeps.

Lemma KeepsFn_colDefs tbl w : KeepsFn sameCatalog (colDefs tbl w).
Proof. unfold colDefs. keeps. Qed.

Hint Resolve KeepsFn_colDefs : keeps.

Lemma KeepsFn_idxDef tbl w : KeepsFn sameCatalog (idxDef tbl w).
Proof. unfold idxDef. keeps. Qed.

Hint Resolve KeepsFn_idxDef : keeps.

Lemma KeepsFn_idxDefs tbl w : KeepsFn sameCatalog (idxDefs tbl w).
Proof. unfold idxDefs. keeps. Qed.

Hint Resolve KeepsFn_idxDefs : keeps.

Lemma KeepsFn_partitionDef tbl w : KeepsFn sameCatalog (partitionDef tbl w).
Proof. unfold partitionDef. keeps. Qed.

Hint Resolve KeepsFn_partitionDef : keeps.

Lemma KeepsFn_createTableStmt {R} `{KeepRel R} name c i p r :
  KeepsFn R (createTableStmt name c i p r).
Proof. unfold createTableStmt. keeps. Qed.

Hint Extern 1 (KeepsFn _ (createTableStmt _ _ _ _ _)) =>
  apply KeepsFn_createTableStmt : keeps.

Lemma KeepsFn_insertInto : KeepsFn sameCatalog insertInto.
Proof. unfold insertInto. keeps. Qed.

Hint Resolve KeepsFn_insertInto : keeps.

Lemma KeepsFn_selectIntoOutFile : KeepsFn sameCatalog selectIntoOutFile.
Proof. unfold selectIntoOutFile. keeps. Qed.

Hint Resolve KeepsFn_selectIntoOutFile : keeps.

Lemma KeepsFn_loadTable : KeepsFn sameCatalog loadTable.
Proof. unfold loadTable. keeps. Qed.

Hint Resolve KeepsFn_loadTable : keeps.

Lemma Keeps_firstTwo rows : Keeps sameCatalog (firstTwo rows).
Proof. unfold firstTwo. keeps. Qed.

Hint Resolve Keeps_firstTwo : keeps.

Lemma KeepsFn_splitTableRegionBetween tbl pre : KeepsFn sameCatalog (splitTableRegionBetween tbl pre).
Proof. unfold splitTableRegionBetween. keeps. Qed.

Hint Resolve KeepsFn_splitTableRegionBetween : keeps.

Lemma KeepsFn_splitIndexRegionBetween tbl idx pre ipre : KeepsFn sameCatalog (splitIndexRegionBetween tbl idx pre ipre).
Proof. unfold splitIndexRegionBetween. keeps. Qed.

Hint Resolve KeepsFn_splitIndexRegionBetween : keeps.

Lemma KeepsFn_splitTableRegionBy tbl pre : KeepsFn sameCatalog (splitTableRegionBy tbl pre).
Proof. unfold splitTableRegionBy. keeps. Qed.

Hint Resolve KeepsFn_splitTableRegionBy : keeps.

Lemma KeepsFn_splitIndexRegionBy tbl idx pre ipre : KeepsFn sameCatalog (splitIndexRegionBy tbl idx pre ipre).
Proof. unfold splitIndexRegionBy. keeps. Qed.

Hint Resolve KeepsFn_splitIndexRegionBy : keeps.

Lemma KeepsFn_splitRegion : KeepsFn sameCatalog splitRegion.
Proof. unfold splitRegion. keeps. Qed.

Hint Resolve KeepsFn_splitRegion : keeps.

(* ------------------------------------------------------------------ *)
(** ** What an [Or] evaluates *)

Lemma effWeight_nonneg f : 0 <= effWeight f.
Proof. unfold effWeight. destruct (Enabled f); lia. Qed.

Lemma effWeight_pos_enabled f : 0 < effWeight f -> Enabled f = true.
Proof. unfold effWeight. destruct (Enabled f); [reflexivity | lia]. Qed.

Lemma If_enabled c f : Enabled (If c f) = true -> c = true.
Proof. destruct c; [reflexivity | discriminate]. Qed.

Lemma pickByWeight_spec ws r :
  Forall (fun w => 0 <= w) ws ->
  0 <= r < fold_right Z.add 0 ws ->
  (pickByWeight ws r < length ws)%nat /\ 0 < nth (pickByWeight ws r) ws 0.
Proof.
  intros Hws. revert r. induction Hws as [|w ws Hw _ IH]; intros r Hr; simpl in *.
  - lia.
  - destruct (r <? w) eqn:E.
    + apply Z.ltb_lt in E. split; [apply Nat.lt_0_succ | lia].
    + apply Z.ltb_ge in E. destruct (IH (r - w)) as [H1 H2]; [lia|].
      split; [apply -> Nat.succ_lt_mono; exact H1 | exact H2].
Qed.

(** An [Or] emits nothing, or evaluates one of its children, which is
    enabled and has a positive weight. *)
Lemma Or_inv fs s out s' :
  Gen (Or fs) s = Ok out s' ->
  (out = "" /\ s' = s /\ totalWeight fs <= 0) \/
  (exists f r, In f fs /\ 0 < effWeight f /\
               Eval f (set_rand r s) = Ok out s').
Proof.
  unfold Or; simpl. destruct (totalWeight fs <=? 0) eqn:E.
  - apply Z.leb_le in E. intros E0. injection E0 as <- <-. left. auto.
  - intros E0. run_inv E0 as a s1 Hrun. apply Intn_ok in Hrun.
    destruct Hrun as [Hr ->]. right.
    destruct (pickByWeight_spec (ws := map effWeight fs) (r := a)) as [Hlt Hpos].
    + apply Forall_forall. intros w Hin. apply in_map_iff in Hin.
      destruct Hin as (f & <- & _). apply effWeight_nonneg.
    + exact Hr.
    + rewrite length_map in Hlt.
      exists (nth (pickByWeight (map effWeight fs) a) fs Empty). eexists.
      split; [apply nth_In; exact Hlt|]. split; [|exact E0].
      rewrite (nth_indep _ 0 (effWeight Empty)) in Hpos
        by (rewrite length_map; exact Hlt).
      rewrite map_nth in Hpos. exact Hpos.
Qed.

Lemma Eval_rel R `{Blind R} f :
  (forall s out s', Gen f s = Ok out s' -> R s s') ->
  forall s out s', Eval f s = Ok out s' -> R s s'.
Proof.
  intros Hf s out s' E. apply Eval_ok in E. destruct E as (s1 & E & ->).
  apply blind_scope. eapply Hf. exact E.
Qed.

Lemma Or_rel R `{Blind R} fs :
  (forall f, In f fs -> 0 < effWeight f ->
             forall s out s', Gen f s = Ok out s' -> R s s') ->
  forall s out s', Gen (Or fs) s = Ok out s' -> R s s'.
Proof.
  intros Hfs s out s' E. apply Or_inv in E.
  destruct E as [(_ & -> & _) | (f & r & Hin & Hpos & E)].
  - apply blind_refl.
  - eapply blind_rand. eapply Eval_rel; [exact _ | | exact E].
    apply Hfs; assumption.
Qed.

(* ------------------------------------------------------------------ *)
(** ** Productions that add a table *)

Lemma sameCatalog_addsTable s1 s2 s3 :
  sameCatalog s1 s2 -> addsTable s2 s3 -> addsTable s1 s3.
Proof.
  unfold sameCatalog, addsTable. intros (a & b & c) ((p & d) & e & f).
  repeat split; try congruence. exists p. congruence.
Qed.

Lemma addsTable_sameCatalog s1 s2 s3 :
  addsTable s1 s2 -> sameCatalog s2 s3 -> addsTable s1 s3.
Proof.
  unfold sameCatalog, addsTable. intros ((p & d) & e & f) (a & b & c).
  repeat split; try congruence. exists p. congruence.
Qed.

Lemma AppendTable_adds p s a s' :
  AppendTable p s = Ok a s' -> addsTable s s'.
Proof. intros E. injection E as <- <-. repeat split. exists p. reflexivity. Qed.

Lemma createTable_adds s out s' :
  Gen createTable s = Ok out s' -> addsTable s s'.
Proof.
  unfold createTable, NewFn; cbn [Gen]. intros E.
  run_inv E as g s5 Hbody.
  run_inv Hbody as w s1 Hw. run_inv Hbody as id s2 Hid.
  run_inv Hbody as tbl s3 Hnew. run_inv Hbody as u s4 Happ.
  apply Keeps_weights in Hw. apply Keeps_AllocGlobalID in Hid.
  apply Keeps_newTable in Hnew. apply AppendTable_adds in Happ.
  match type of Hbody with
  | ?m _ = _ => assert (Hk : KeepsNode sameCatalog m) by keeps
  end.
  destruct (Hk _ _ _ Hbody) as [Hs Hg].
  apply (Keeps_Eval Hg) in E.
  eapply sameCatalog_addsTable; [eapply fr_trans; eauto|].
  eapply sameCatalog_addsTable; [eauto|].
  eapply addsTable_sameCatalog; [eauto|].
  eapply fr_trans; eauto.
Qed.

Lemma createTableLike_adds s out s' :
  Gen createTableLike s = Ok out s' -> addsTable s s'.
Proof.
  unfold createTableLike, NewFn; cbn [Gen]. intros E.
  run_inv E as g s4 Hbody.
  run_inv Hbody as tbl s1 Htbl. run_inv Hbody as newTbl s2 Hclone.
  run_inv Hbody as u s3 Happ.
  apply Keeps_GetRandTable in Htbl. apply Keeps_Clone in Hclone.
  apply AppendTable_adds in Happ.
  match type of Hbody with
  | ?m _ = _ => assert (Hk : KeepsNode sameCatalog m) by keeps
  end.
  destruct (Hk _ _ _ Hbody) as [Hs Hg].
  apply (Keeps_Eval Hg) in E.
  eapply sameCatalog_addsTable; [eauto|].
  eapply sameCatalog_addsTable; [eauto|].
  eapply addsTable_sameCatalog; [eauto|].
  eapply fr_trans; eauto.
Qed.

(* ------------------------------------------------------------------ *)
(** ** One call of the producer and the list of tables *)

#[export] Instance Blind_guardedStep ts mx : Blind (guardedStep ts mx).
Proof.
  split.
  - intros s _ _. left. apply fr_refl.
  - intros s s1 Hr Ht Hm. destruct (Hr Ht Hm) as [Hs | [Ha Hlt]];
      [left | right; split; [|exact Hlt]].
    + destruct Hs as (a & b & c). repeat split; assumption.
    + destruct Ha as ((p & a) & b & c). repeat split; try assumption.
      exists p. exact a.
  - intros s r s' Hr Ht Hm. destruct (Hr Ht Hm) as [Hs | [Ha Hlt]];
      [left | right; split; [|exact Hlt]].
    + destruct Hs as (a & b & c). repeat split; assumption.
    + destruct Ha as ((p & a) & b & c). repeat split; try assumption.
      exists p. exact a.
Qed.

#[export] Instance Blind_stepRel : Blind stepRel.
Proof.
  split.
  - intros s. left. apply fr_refl.
  - intros s s1 [Hs | [Ha Hlt]]; [left | right; split; [|exact Hlt]].
    + destruct Hs as (a & b & c). repeat split; assumption.
    + destruct Ha as ((p & a) & b & c). repeat split; try assumption.
      exists p. exact a.
  - intros s r s' [Hs | [Ha Hlt]]; [left | right; split; [|exact Hlt]].
    + destruct Hs as (a & b & c). repeat split; assumption.
    + destruct Ha as ((p & a) & b & c). repeat split; try assumption.
      exists p. exact a.
Qed.

(** The choice [start] builds once the catalog is initialized. *)
Lemma start_choice_step (w : Weight) (ts : list TablePtr) (c : ControlOption)
    (ps : list PreparePtr) (lastOutFile : ScopeObj) s out s' :
  Gen
    (Or [
      SetW (SetRowFormat w) switchRowFormatVer;
      SetW (SetClustered w) switchClustered;
      SetW (AdminCheck w) adminCheck;
      SetW (CreateTable w)
        (If (len ts <? MaxTableNum c)
          (Or [
            SetW (CreateTable_WithoutLike w) createTable;
            createTableLike
          ]));
      SetW (Query w)
        (If (0 <? len ts)
          (Or [
            SetW (Query_DML w) dmlStmt;
            SetW (Query_DDL w) ddlStmt;
            SetW (Query_Split w) splitRegion;
            SetW (Query_Analyze w) commonAnalyze;
            SetW (Query_Prepare w) prepareStmt;
            SetW 1 (If (0 <? len ps) deallocPrepareStmt);
            SetW 1 (If (CanReadGCSavePoint c) flashBackTable);
            SetW 1
              (If (EnableSelectOutFileAndLoadData c)
                (Or [
                  SetW 1 selectIntoOutFile;
                  If (negb (IsNil lastOutFile)) loadTable
                ]))
          ]))
    ]) s = Ok out s' ->
  guardedStep ts (MaxTableNum c) s s'.
Proof.
  revert s out s'. apply Or_rel; [exact _|]. intros f Hin Hpos.
  assert (Hkeep : forall g, KeepsFn sameCatalog g ->
            forall s out s', Gen g s = Ok out s' ->
                             guardedStep ts (MaxTableNum c) s s').
  { intros g Hg s out s' E _ _. left. eapply Hg. exact E. }
  simpl in Hin. destruct Hin as [<-|[<-|[<-|[<-|[<-|[]]]]]].
  - apply Hkeep. keeps.
  - apply Hkeep. keeps.
  - apply Hkeep. keeps.
  - apply effWeight_pos_enabled in Hpos. simpl in Hpos.
    apply If_enabled in Hpos. rewrite Hpos. simpl.
    apply Z.ltb_lt in Hpos.
    apply Or_rel; [exact _|]. intros g Hg _.
    simpl in Hg. destruct Hg as [<-|[<-|[]]].
    + intros s out s' E _ _. right. split; [|exact Hpos].
      eapply createTable_adds. exact E.
    + intros s out s' E _ _. right. split; [|exact Hpos].
      eapply createTableLike_adds. exact E.
  - apply Hkeep. keeps.
Qed.

Lemma initStart_step s out s' :
  Gen initStart s = Ok out s' ->
  initialized s = false /\
  (sameCatalog s s' \/
   (addsTable s s' /\ len (tables s) < InitTableCount (ctrl s))).
Proof.
  unfold initStart, NewFn; cbn [Gen]. intros E. run_inv E as g s1 Hbody.
  run_inv Hbody as init s2 Hi. gets_inv Hi.
  run_inv Hbody as u s3 Ha. apply Assert_ok in Ha. destruct Ha as [Hinit ->].
  apply negb_true_iff in Hinit. split; [exact Hinit|].
  run_inv Hbody as ts s4 Hts. gets_inv Hts.
  run_inv Hbody as c s5 Hc. gets_inv Hc.
  match type of Hbody with
  | context [if ?b then _ else _] => destruct b eqn:Hlt
  end; injection Hbody as <- <-.
  - right. apply Z.ltb_lt in Hlt. split; [|exact Hlt].
    apply Eval_ok in E. destruct E as (s1 & E & ->).
    apply createTable_adds in E.
    destruct E as ((p & a) & b & c). repeat split; try assumption.
    exists p. exact a.
  - left. eapply Keeps_Eval; [apply KeepsFn_insertInto | exact E].
Qed.

Lemma start_step s out s' : Gen start s = Ok out s' -> stepRel s s'.
Proof.
  unfold start, NewFn; cbn [Gen]. intros E.
  run_inv E as g s1 Hbody.
  run_inv Hbody as w s2 Hw. gets_inv Hw.
  run_inv Hbody as todo s3 Hpop. apply PopOneTodoSQL_ok in Hpop.
  destruct todo as [q|].
  - destruct Hpop as (rest & Hq & ->). injection Hbody as <- <-.
    rewrite Eval_Str in E. injection E as <- <-.
    left. repeat split.
  - destruct Hpop as [Hq ->].
    run_inv Hbody as init s4 Hi. gets_inv Hi.
    destruct (initialized s) eqn:Hinit; simpl in Hbody.
    + run_inv Hbody as ts s5 Hts. gets_inv Hts.
      run_inv Hbody as c s6 Hc. gets_inv Hc.
      run_inv Hbody as ps s7 Hps. gets_inv Hps.
      run_inv Hbody as lo s8 Hlo. gets_inv Hlo.
      injection Hbody as <- <-.
      apply (Eval_rel (R := guardedStep (tables s) (MaxTableNum (ctrl s))))
        in E; [| apply start_choice_step].
      destruct (E eq_refl eq_refl) as [Hs | [Ha Hlt]]; [left; exact Hs|].
      right. rewrite Hinit. auto.
    + run_inv Hbody as e s5 Hinitstart.
      run_inv Hbody as met s6 Hmet. gets_inv Hmet.
      run_inv Hbody as u s7 Hset.
      injection Hbody as <- <-.
      rewrite Eval_Str in E. injection E as <- <-.
      assert (Hk : sameCatalog s5 s7).
      { match type of Hset with
        | context [if ?b then _ else _] => destruct b
        end; [eapply Keeps_SetInitialized | eapply Keeps_ret]; eauto. }
      assert (Hstep : stepRel s s5).
      { apply Eval_ok in Hinitstart. destruct Hinitstart as (sa & Hg & ->).
        apply initStart_step in Hg. destruct Hg as [_ [Hs | [Ha Hlt]]].
        - left. destruct Hs as (a & b & c). repeat split; assumption.
        - right. rewrite Hinit. split; [|exact Hlt].
          destruct Ha as ((p & a) & b & c). repeat split; try assumption.
          exists p. exact a. }
      destruct Hstep as [Hs | [Ha Hlt]].
      * left. eapply fr_trans; eauto.
      * right. split; [|exact Hlt]. eapply addsTable_sameCatalog; eauto.
Qed.

Lemma Generate_step s out s' : Generate s = Ok out s' -> stepRel s s'.
Proof. apply Eval_rel; [exact _ | apply start_step]. Qed.

Lemma stepRel_bound s s' :
  stepRel s s' ->
  len (tables s) <= tableBound s ->
  tableBound s' = tableBound s /\ len (tables s') <= tableBound s.
Proof.
  unfold stepRel, tableBound.
  intros [(a & b & c) | [((p & a) & b & c) Hlt]] Hle; rewrite a, b, c.
  - split; [reflexivity | exact Hle].
  - split; [reflexivity|]. unfold len in *. rewrite length_app; simpl.
    destruct (initialized s); lia.
Qed.

Lemma runGenerator_bound n s outs s' :
  runGenerator n s = Ok outs s' ->
  len (tables s) <= tableBound s ->
  tableBound s' = tableBound s /\ len (tables s') <= tableBound s.
Proof.
  revert s outs s'. induction n as [|n IH]; intros s outs s' E Hle; simpl in E.
  - injection E as <- <-. auto.
  - run_inv E as sql s1 Hgen. run_inv E as rest s2 Hrest.
    injection E as <- <-.
    apply Generate_step in Hgen.
    destruct (stepRel_bound Hgen Hle) as [Hb Hl].
    destruct (IH _ _ _ Hrest) as [Hb' Hl']; [rewrite Hb; exact Hl|].
    split; congruence.
Qed.

End KeepsCatalog.

(* ================================================================== *)
(** ** C4: the number of tables *)

(** C4, as stated, fails: with [InitTableCount = 2] and [MaxTableNum = 1] the
    first two calls of a fresh generator both emit [create table], and the
    catalog then holds two tables, one more than [MaxTableNum]. *)
Lemma C4_counterexample :
  len (tables twoInitialTables) <= MaxTableNum (ctrl twoInitialTables) /\
  exists s',
    runGenerator (H := demoHelpers) 2 twoInitialTables =
      Ok ["create table t0 ( c0 int , c1 int ) partition by hash( c1 ) partitions 1";
          "create table t1 ( c2 int , c3 int ) partition by hash( c3 ) partitions 1"]
         s' /\
    MaxTableNum (ctrl s') = 1 /\
    len (tables s') = 2.
Proof.
  split; [vm_compute; discriminate|].
  eexists. split; [vm_compute; reflexivity|]. split; reflexivity.
Qed.

(** C4 (amended): a call of the producer leaves the list of tables alone or
    appends one table, and it appends one only while the list is shorter
    than [MaxTableNum] (after initialization: the guard of [start] on
    [createTable] and [createTableLike]) or shorter than [InitTableCount]
    (during initialization: the test of [initStart], which does not look at
    [MaxTableNum]).  So a catalog that starts with at most
    [max MaxTableNum InitTableCount] tables never holds more than that,
    whatever the number of calls. *)
Theorem C4_table_count_bounded `{Helpers} (s : State) :
  (forall out s', Generate s = Ok out s' ->
     sameCatalog s s' \/
     (addsTable s s' /\
      len (tables s) <
        (if initialized s then MaxTableNum (ctrl s)
         else InitTableCount (ctrl s)))) /\
  (forall n outs s',
     len (tables s) <= Z.max (MaxTableNum (ctrl s)) (InitTableCount (ctrl s)) ->
     runGenerator n s = Ok outs s' ->
     len (tables s') <= Z.max (MaxTableNum (ctrl s')) (InitTableCount (ctrl s'))).
Proof.
  split.
  - intros out s' E. eapply Generate_step. exact E.
  - intros n outs s' Hle E.
    destruct (runGenerator_bound _ _ E Hle) as [Hb Hl].
    unfold tableBound in *. rewrite Hb. exact Hl.
Qed.

Lemma C4_table_count_bounded_witness :
  exists outs s',
    runGenerator (H := demoHelpers) 3 oneInitialTable = Ok outs s' /\
    len (tables s') <= Z.max (MaxTableNum (ctrl s')) (InitTableCount (ctrl s')).
Proof.
  eexists. eexists. split; [vm_compute; reflexivity|].
  eapply (proj2 (C4_table_count_bounded (H := demoHelpers) oneInitialTable))
    with (n := 3%nat); [vm_compute; discriminate | vm_compute; reflexivity].
Defined.

(* ================================================================== *)
(** ** C2: reproducible output *)


(* ================================================================== *)
(** ** C5: admin check and missing tables *)

(** C5, as stated, fails: the statement is an admin check, the first
    database answers that the table does not exist, the second answers
    without error, and [runInteractTest] returns an errors-mismatch error,
    not nil. *)
Lemma C5_counterexample :
  isAdminCheck "admin check table t0" = true /\
  errContains (snd (runQuery dbMissing "admin check table t0")) "t exist" = true /\
  runInteractTest dbMissing dbAnswers "admin check table t0" true =
    Some (ErrorsMismatch
            (Some "Error 1146: Table 'test.t0' doesn't exist") None
            "admin check table t0").
Proof. repeat split. Qed.

Lemma ValidateErrs_one_sided m :
  ValidateErrs (Some m) None = existsb (Contains m) ignoreErrMsgs /\
  ValidateErrs None (Some m) = existsb (Contains m) ignoreErrMsgs.
Proof.
  unfold ValidateErrs, OneOfContains, ignoreErrMsgs, errContains; simpl.
  split; repeat (destruct (Contains m _); simpl; try reflexivity).
Qed.

Lemma ValidateErrs_both m1 m2 : ValidateErrs (Some m1) (Some m2) = true.
Proof.
  unfold ValidateErrs, OneOfContains, ignoreErrMsgs, errContains; simpl.
  repeat (rewrite andb_false_r; simpl). reflexivity.
Qed.

(** C5 (amended): on an admin check, an error whose message contains
    [t exist] is not returned by the two admin-check guards; what follows is
    the ordinary comparison.  When the first database fails with such an
    error, [runInteractTest] returns nil if the second database also returns
    an error containing [t exist]; it returns the second error if that one
    lacks [t exist]; and if the second database returns no error, it returns
    nil only when the message also contains an allow-listed text, and an
    errors-mismatch error otherwise.  The same holds with the two databases
    exchanged. *)
Theorem C5_admin_check_table_missing (db1 db2 : DB) (sql : string)
    (sortQueryResult : bool) :
  isAdminCheck sql = true ->
  (forall m1, db1 sql = QueryFails m1 -> Contains m1 "t exist" = true ->
     runInteractTest db1 db2 sql sortQueryResult =
       match snd (runQuery db2 sql) with
       | Some m2 =>
           if Contains m2 "t exist" then None else Some (DatabaseError m2)
       | None =>
           if existsb (Contains m1) ignoreErrMsgs then None
           else Some (ErrorsMismatch (Some m1) None sql)
       end) /\
  (forall m2, db2 sql = QueryFails m2 -> Contains m2 "t exist" = true ->
     runInteractTest db1 db2 sql sortQueryResult =
       match snd (runQuery db1 sql) with
       | Some m1 =>
           if Contains m1 "t exist" then None else Some (DatabaseError m1)
       | None =>
           if existsb (Contains m2) ignoreErrMsgs then None
           else Some (ErrorsMismatch None (Some m2) sql)
       end).
Proof.
  intros Hadmin. split.
  - intros m1 H1 Hc1. unfold runInteractTest, runQuery. rewrite H1, Hadmin.
    cbn -[ValidateErrs existsb]. rewrite Hc1. cbn -[ValidateErrs existsb].
    destruct (db2 sql) as [m2 | rs2 [m2|]]; cbn -[ValidateErrs existsb].
    + destruct (Contains m2 "t exist"); cbn -[ValidateErrs existsb];
        [|reflexivity].
      rewrite ValidateErrs_both. reflexivity.
    + destruct (Contains m2 "t exist"); cbn -[ValidateErrs existsb];
        [|reflexivity].
      rewrite ValidateErrs_both. reflexivity.
    + rewrite (proj1 (ValidateErrs_one_sided m1)).
      destruct (existsb (Contains m1) ignoreErrMsgs); reflexivity.
  - intros m2 H2 Hc2. unfold runInteractTest, runQuery. rewrite H2, Hadmin.
    cbn -[ValidateErrs existsb].
    destruct (db1 sql) as [m1 | rs1 [m1|]]; cbn -[ValidateErrs existsb].
    + destruct (Contains m1 "t exist"); cbn -[ValidateErrs existsb];
        [|reflexivity].
      rewrite Hc2. cbn -[ValidateErrs existsb].
      rewrite ValidateErrs_both. reflexivity.
    + destruct (Contains m1 "t exist"); cbn -[ValidateErrs existsb];
        [|reflexivity].
      rewrite Hc2. cbn -[ValidateErrs existsb]. rewrite ValidateErrs_both.
      destruct rs1; reflexivity.
    + rewrite Hc2. cbn -[ValidateErrs existsb].
      rewrite (proj2 (ValidateErrs_one_sided m2)).
      destruct (existsb (Contains m2) ignoreErrMsgs); [|reflexivity].
      destruct rs1; reflexivity.
Qed.

Lemma C5_admin_check_table_missing_witness :
  isAdminCheck "admin check table t0" = true /\
  runInteractTest dbMissing dbMissing "admin check table t0" true = None /\
  runInteractTest dbMissing dbAnswers "admin check table t0" true =
    Some (ErrorsMismatch
            (Some "Error 1146: Table 'test.t0' doesn't exist") None
            "admin check table t0").
Proof.
  split; [reflexivity|].
  split.
  - exact (proj1 (C5_admin_check_table_missing dbMissing dbMissing
                    "admin check table t0" true eq_refl)
                 _ eq_refl eq_refl).
  - exact (proj1 (C5_admin_check_table_missing dbMissing dbAnswers
                    "admin check table t0" true eq_refl)
                 _ eq_refl eq_refl).
Defined.

(* ================================================================== *)
(** ** C10: no limit clause in update and delete *)

Lemma sameNode_refl f : sameNode f f.
Proof. split; reflexivity. Qed.

Lemma evalAll_ext fs gs :
  Forall2 sameNode fs gs -> forall s, evalAll fs s = evalAll gs s.
Proof.
  induction 1 as [|f g fs gs [_ Hfg] _ IH]; intros s; simpl; [reflexivity|].
  unfold bind. rewrite Hfg. destruct (Eval g s) as [r s1|msg]; [|reflexivity].
  rewrite IH. reflexivity.
Qed.

Lemma Eval_ext f g :
  (forall s, Gen f s = Gen g s) -> forall s, Eval f s = Eval g s.
Proof.
  intros Hfg s. unfold Eval, bind, CreateScope, modify. rewrite Hfg. reflexivity.
Qed.

Lemma sameNode_And fs gs : Forall2 sameNode fs gs -> sameNode (And fs) (And gs).
Proof.
  intros Hfg. split; [reflexivity|]. apply Eval_ext. intros s.
  unfold And; cbn [Gen]. unfold bind. rewrite (evalAll_ext Hfg). reflexivity.
Qed.

Lemma sameNode_weights fs gs :
  Forall2 sameNode fs gs -> map effWeight fs = map effWeight gs.
Proof.
  induction 1 as [|f g fs gs [Hw _] _ IH]; simpl; [reflexivity|].
  rewrite Hw, IH. reflexivity.
Qed.

Lemma sameNode_nth fs gs n :
  Forall2 sameNode fs gs -> sameNode (nth n fs Empty) (nth n gs Empty).
Proof.
  intros Hfg. revert n.
  induction Hfg as [|f g fs gs Hh _ IH]; intros [|n]; simpl;
    auto using sameNode_refl.
Qed.

Lemma sameNode_Or fs gs : Forall2 sameNode fs gs -> sameNode (Or fs) (Or gs).
Proof.
  intros Hfg. split; [reflexivity|]. apply Eval_ext. intros s.
  unfold Or, totalWeight; cbn [Gen]. rewrite (sameNode_weights Hfg).
  destruct (fold_right Z.add 0 (map effWeight gs) <=? 0); [reflexivity|].
  unfold bind. destruct (Intn _ s) as [r s1|msg]; [|reflexivity].
  apply (sameNode_nth _ Hfg).
Qed.

Lemma sameNode_OptIf c f g : sameNode f g -> sameNode (OptIf c f) (OptIf c g).
Proof.
  intros Hfg. destruct c; [|apply sameNode_refl].
  apply sameNode_Or.
  apply Forall2_cons; [apply sameNode_refl|].
  apply Forall2_cons; [exact Hfg | apply Forall2_nil].
Qed.

Lemma sameBody_ret f g : sameNode f g -> sameBody (ret f) (ret g).
Proof. intros Hfg s. simpl. auto. Qed.

Lemma sameBody_bind {A} (m : M A) (k1 k2 : A -> M Fn) :
  (forall a, sameBody (k1 a) (k2 a)) -> sameBody (bind m k1) (bind m k2).
Proof.
  intros Hk s. unfold bind. destruct (m s) as [a s1|msg]; [apply Hk | reflexivity].
Qed.

Lemma sameNode_NewFn m1 m2 : sameBody m1 m2 -> sameNode (NewFn m1) (NewFn m2).
Proof.
  intros Hm. split; [reflexivity|]. apply Eval_ext. intros s.
  unfold NewFn; cbn [Gen]. unfold bind. specialize (Hm s).
  destruct (m1 s) as [g1 s1|msg1], (m2 s) as [g2 s2|msg2]; try contradiction.
  - destruct Hm as [-> [_ Hg]]. apply Hg.
  - rewrite Hm. reflexivity.
Qed.

Section NoLimit.
Context `{Helpers}.

Lemma Eval_maybeLimit s : Eval maybeLimit s = Ok "" s.
Proof. destruct s; reflexivity. Qed.

Lemma sameNode_maybeLimit : sameNode maybeLimit Empty.
Proof.
  split; [reflexivity|]. intros s. rewrite Eval_maybeLimit, Eval_Empty.
  reflexivity.
Qed.

Lemma sameNode_commonUpdateWith l1 l2 :
  sameNode l1 l2 -> sameNode (commonUpdateWith l1) (commonUpdateWith l2).
Proof.
  intros Hl. unfold commonUpdateWith. apply sameNode_NewFn.
  repeat (apply sameBody_bind; intros ?). apply sameBody_ret.
  apply sameNode_And.
  repeat (apply Forall2_cons; [apply sameNode_refl|]).
  apply Forall2_cons; [|apply Forall2_nil].
  apply sameNode_OptIf, sameNode_And.
  repeat (apply Forall2_cons; [apply sameNode_refl|]).
  apply Forall2_cons; [exact Hl | apply Forall2_nil].
Qed.

Lemma sameNode_commonDeleteWith l1 l2 :
  sameNode l1 l2 -> sameNode (commonDeleteWith l1) (commonDeleteWith l2).
Proof.
  intros Hl. unfold commonDeleteWith. apply sameNode_NewFn.
  repeat (apply sameBody_bind; intros ?). apply sameBody_ret.
  apply sameNode_And.
  repeat (apply Forall2_cons; [apply sameNode_refl|]).
  apply Forall2_cons; [|apply Forall2_nil].
  apply sameNode_Or.
  repeat (apply Forall2_cons;
          [apply sameNode_And;
           repeat (apply Forall2_cons; [apply sameNode_refl|]);
           apply Forall2_cons; [exact Hl | apply Forall2_nil]|]).
  apply Forall2_nil.
Qed.

(** C10: [maybeLimit] evaluates to the empty string in every state and
    leaves the state as it was; hence [commonUpdate] and [commonDelete]
    evaluate, in every state, exactly as the same productions with [Empty()]
    in place of [maybeLimit]: the position of the limit clause stays
    empty. *)
Theorem C10_no_limit_clause :
  (forall s, Eval maybeLimit s = Ok "" s) /\
  (forall s, Eval commonUpdate s = Eval (commonUpdateWith Empty) s) /\
  (forall s, Eval commonDelete s = Eval (commonDeleteWith Empty) s).
Proof.
  split; [exact Eval_maybeLimit|]. split.
  - apply (sameNode_commonUpdateWith sameNode_maybeLimit).
  - apply (sameNode_commonDeleteWith sameNode_maybeLimit).
Qed.

End NoLimit.

(* ================================================================== *)
(** ** Forward evaluation *)

Lemma Intn_eq n s :
  0 < n -> Intn n s = Ok (stream (rand s) (cursor (rand s)) mod n) (afterDraw s).
Proof.
  intros Hn. unfold Intn. destruct (n <=? 0) eqn:E; [|reflexivity].
  apply Z.leb_le in E. lia.
Qed.

Lemma nth_error_some {A} (l : list A) i :
  0 <= i < len l -> exists a, nth_error l (Z.to_nat i) = Some a /\ In a l.
Proof.
  intros Hi. destruct (nth_error l (Z.to_nat i)) eqn:E.
  - eexists. split; [reflexivity | eapply nth_error_In; eauto].
  - apply nth_error_None in E. unfold len in Hi. lia.
Qed.

Lemma len_pos {A} (l : list A) : l <> [] -> 0 < len l.
Proof. destruct l; [congruence | unfold len; simpl; lia]. Qed.

Lemma GetRandTable_eq s :
  tables s <> [] ->
  exists p, In p (tables s) /\ GetRandTable s = Ok p (afterDraw s).
Proof.
  intros Hne. apply len_pos in Hne. unfold GetRandTable, bind, gets.
  rewrite (Intn_eq _ Hne).
  destruct (nth_error_some (tables s)
              (i := stream (rand s) (cursor (rand s)) mod len (tables s)))
    as (p & Hp & Hin); [apply Z.mod_pos_bound; exact Hne|].
  exists p. split; [exact Hin|]. unfold indexList. rewrite Hp. reflexivity.
Qed.

Lemma GetRandTable_ok s p s' :
  GetRandTable s = Ok p s' -> In p (tables s) /\ s' = afterDraw s.
Proof.
  unfold GetRandTable. intros E. run_inv E as ts s1 Hts. gets_inv Hts.
  run_inv E as i s2 Hi. apply Intn_ok in Hi. destruct Hi as [_ ->].
  apply indexList_ok in E. destruct E as [Hin ->]. auto.
Qed.

Lemma GetRandomIndex_eq t s :
  Indices t <> [] ->
  exists idx, In idx (Indices t) /\ GetRandomIndex t s = Ok idx (afterDraw s).
Proof.
  intros Hne. apply len_pos in Hne. unfold GetRandomIndex, bind.
  rewrite (Intn_eq _ Hne).
  destruct (nth_error_some (Indices t)
              (i := stream (rand s) (cursor (rand s)) mod len (Indices t)))
    as (p & Hp & Hin); [apply Z.mod_pos_bound; exact Hne|].
  exists p. split; [exact Hin|]. unfold indexList. rewrite Hp. reflexivity.
Qed.

(** A choice between two texts emits one of them and only draws. *)
Lemma Eval_Or_Str2 x y s :
  Eval (Or [Str x; Str y]) s = Ok x (afterDraw s) \/
  Eval (Or [Str x; Str y]) s = Ok y (afterDraw s).
Proof.
  assert (Hgen : forall z,
            Gen (Or [Str x; Str y]) (pushScope s) =
              Ok z (afterDraw (pushScope s)) ->
            Eval (Or [Str x; Str y]) s = Ok z (afterDraw s)).
  { intros z E. rewrite (Eval_eq _ _ E). reflexivity. }
  set (r := stream (rand (pushScope s)) (cursor (rand (pushScope s))) mod 2).
  assert (Hr : 0 <= r < 2) by (apply Z.mod_pos_bound; lia).
  assert (HG : Gen (Or [Str x; Str y]) (pushScope s) =
               Eval (nth (pickByWeight [1; 1] r) [Str x; Str y] Empty)
                    (afterDraw (pushScope s))).
  { unfold Or; cbn [Gen]. change (totalWeight [Str x; Str y]) with 2.
    change (2 <=? 0) with false. cbv iota. unfold bind.
    rewrite Intn_eq by lia. reflexivity. }
  destruct (r <? 1) eqn:E1.
  - left. apply Hgen. rewrite HG. cbn [pickByWeight]. rewrite E1.
    apply Eval_Str.
  - right. apply Hgen. rewrite HG. cbn [pickByWeight]. rewrite E1.
    destruct (r - 1 <? 1) eqn:E2; [apply Eval_Str|].
    apply Z.ltb_ge in E2. lia.
Qed.

(* ================================================================== *)
(** ** C8: admin check *)

Section AdminCheck.
Context `{Helpers}.

(** C8: on a catalog with at least one table, [adminCheck] returns the empty
    string whenever [EnableTestTiFlash] is set; when it is not set (and the
    tables of the catalog are allocated), [adminCheck] emits
    [admin check table <t>] for a table [t] of the catalog, or, only if [t]
    has an index, [admin check index <t> <i>] for an index [i] of [t]. *)
Theorem C8_adminCheck (s : State) :
  tables s <> [] ->
  (EnableTestTiFlash (ctrl s) = true ->
     exists s', Eval adminCheck s = Ok "" s') /\
  (EnableTestTiFlash (ctrl s) = false ->
   (forall p, In p (tables s) -> nth_error (tableStore s) p <> None) ->
     exists p t out s',
       In p (tables s) /\ nth_error (tableStore s) p = Some t /\
       Eval adminCheck s = Ok out s' /\
       (out = "admin check table " ++ TblName t \/
        (Indices t <> [] /\
         exists idx, In idx (Indices t) /\
           out = "admin check index " ++ TblName t ++ " " ++ IdxName idx))).
Proof.
  intros Hne.
  destruct (@GetRandTable_eq (pushScope s) Hne) as (p & Hin & Hget).
  split.
  - intros Hflash. eexists. apply Eval_eq.
    unfold adminCheck, NewFn; cbn [Gen].
    unfold bind at 1. unfold bind at 1. rewrite Hget.
    unfold bind at 1. unfold gets, ret.
    change (ctrl (afterDraw (pushScope s))) with (ctrl s). rewrite Hflash.
    apply Eval_Str.
  - intros Hflash Hvalid.
    destruct (nth_error (tableStore s) p) as [t|] eqn:Ht;
      [|exfalso; exact (Hvalid p Hin Ht)].
    exists p, t.
    assert (Hderef : derefTable p (afterDraw (pushScope s)) =
                       Ok t (afterDraw (pushScope s))).
    { unfold derefTable.
      change (tableStore (afterDraw (pushScope s))) with (tableStore s).
      rewrite Ht. reflexivity. }
    destruct (len (Indices t) =? 0) eqn:Hidx.
    + eexists. eexists. split; [exact Hin|]. split; [exact Ht|]. split.
      * apply Eval_eq. unfold adminCheck, NewFn; cbn [Gen].
        unfold bind at 1. unfold bind at 1. rewrite Hget.
        unfold bind at 1. unfold gets, ret.
        change (ctrl (afterDraw (pushScope s))) with (ctrl s). rewrite Hflash.
        unfold bind at 1. rewrite Hderef. rewrite Hidx. apply Eval_Str.
      * left. reflexivity.
    + assert (Hne' : Indices t <> []).
      { intros Hnil. rewrite Hnil in Hidx. discriminate. }
      destruct (@GetRandomIndex_eq t (afterDraw (pushScope s)) Hne')
        as (idx & Hidxin & Hgetidx).
      pose proof (Eval_Or_Str2
                  (String.concat " " ["admin check table"; TblName t])
                  (String.concat " " ["admin check index"; TblName t; IdxName idx])
                  (afterDraw (afterDraw (pushScope s)))) as Hor.
      assert (Hrun : forall out,
                Eval (Or [Strs ["admin check table"; TblName t];
                          Strs ["admin check index"; TblName t; IdxName idx]])
                     (afterDraw (afterDraw (pushScope s))) =
                  Ok out (afterDraw (afterDraw (afterDraw (pushScope s)))) ->
                Eval adminCheck s =
                  Ok out (popScope
                            (afterDraw (afterDraw (afterDraw (pushScope s)))))).
      { intros out E. apply Eval_eq. unfold adminCheck, NewFn; cbn [Gen].
        unfold bind at 1. unfold bind at 1. rewrite Hget.
        unfold bind at 1. unfold gets, ret.
        change (ctrl (afterDraw (pushScope s))) with (ctrl s). rewrite Hflash.
        unfold bind at 1. rewrite Hderef. rewrite Hidx.
        unfold bind at 1. rewrite Hgetidx. exact E. }
      destruct Hor as [E | E]; apply Hrun in E.
      * eexists. eexists. split; [exact Hin|]. split; [exact Ht|].
        split; [exact E|]. left. reflexivity.
      * eexists. eexists. split; [exact Hin|]. split; [exact Ht|].
        split; [exact E|]. right. split; [exact Hne'|].
        exists idx. split; [exact Hidxin | reflexivity].
Qed.

End AdminCheck.

(* ================================================================== *)
(** ** C9: loadTable without a clone *)

Section LoadTable.
Context `{Helpers}.

(** C9: when the table recorded under [ScopeKeyLastOutFileTable] has no child
    table, the guard [start] puts on [loadTable] holds (it only asks that the
    key is set) and the evaluation of [loadTable] panics. *)
Theorem C9_loadTable_panics (s : State) (p : TablePtr) (t : Table) :
  Search ScopeKeyLastOutFileTable s = Ok (ObjTable p) s ->
  nth_error (tableStore s) p = Some t ->
  childTables t = [] ->
  Enabled (If (negb (IsNil (ObjTable p))) loadTable) = true /\
  exists msg, Eval loadTable s = Panic msg.
Proof.
  intros Hsearch Ht Hchild. split; [reflexivity|].
  assert (Hs : Search ScopeKeyLastOutFileTable (pushScope s) =
               Ok (ObjTable p) (pushScope s)).
  { unfold Search, gets in *. cbn [scopeStack pushScope set_scopeStack
      stackLookup frameLookup scopeRoot] in *.
    injection Hsearch as Hobj. rewrite Hobj. reflexivity. }
  assert (Hg : exists msg, Gen loadTable (pushScope s) = Panic msg).
  { unfold loadTable, NewFn; cbn [Gen].
    unfold bind at 1. unfold bind at 1. rewrite Hs.
    unfold bind at 1. cbn [ToTable]. unfold ret at 1.
    unfold bind at 1.
    destruct (Search ScopeKeyTmpFileID (pushScope s)) as [o' s1|msg] eqn:Ho;
      [|eauto].
    apply gets_ok in Ho. destruct Ho as [_ ->].
    unfold bind at 1.
    destruct (ToInt o' (pushScope s)) as [id s2|msg] eqn:Hid; [|eauto].
    assert (s2 = pushScope s) as ->.
    { destruct o'; try discriminate. injection Hid as _ <-. reflexivity. }
    unfold bind at 1. unfold derefTable.
    change (tableStore (pushScope s)) with (tableStore s). rewrite Ht.
    unfold bind at 1. rewrite Hchild. eexists. reflexivity. }
  destruct Hg as (msg & Hg). exists msg. apply Eval_panic. exact Hg.
Qed.

End LoadTable.

(* ================================================================== *)
(** ** C1: the deferred queue *)

Lemma EvalSelects_leaf leaves f : In f leaves -> EvalSelects leaves f.
Proof. intros Hin s out s' E. right. exists f, s, s'. auto. Qed.

Lemma EvalSelects_SetW leaves w f :
  EvalSelects leaves f -> EvalSelects leaves (SetW w f).
Proof. intros Hf. exact Hf. Qed.

Lemma EvalSelects_If leaves c f :
  EvalSelects leaves f -> EvalSelects leaves (If c f).
Proof.
  intros Hf. destruct c; [exact Hf|]. intros s out s' E.
  change (If false f) with (mkFn (ret "") 0 false) in E.
  apply Eval_ok in E. destruct E as (s1 & E & ->).
  injection E as <- <-. left. auto.
Qed.

Lemma EvalSelects_Or leaves fs :
  Forall (EvalSelects leaves) fs -> EvalSelects leaves (Or fs).
Proof.
  intros Hfs s out s' E. apply Eval_ok in E. destruct E as (s1 & E & ->).
  apply Or_inv in E. destruct E as [(-> & -> & _) | (f & r & Hin & _ & E)].
  - left. auto.
  - rewrite Forall_forall in Hfs.
    destruct (Hfs f Hin _ _ _ E) as [[-> Hq] | (g & s_in & s_out & Hg & Hq & Hrun & Hq')].
    + left. split; [reflexivity | exact Hq].
    + right. exists g, s_in, s_out. repeat split; assumption.
Qed.

Section DeferredQueue.
Context `{Helpers}.

(** A call of the producer first takes the head of the deferred queue, and
    touches nothing else. *)
Lemma Generate_drains s q rest :
  todoSQLs s = q :: rest -> Generate s = Ok q (set_todoSQLs rest s).
Proof.
  intros Hq. unfold Generate.
  assert (E : Gen start (pushScope s) = Ok q (set_todoSQLs rest (pushScope s))).
  { unfold start, NewFn; cbn [Gen].
    unfold bind at 1. unfold bind at 1. unfold weights, gets.
    unfold bind at 1. unfold PopOneTodoSQL.
    change (todoSQLs (pushScope s)) with (todoSQLs s). rewrite Hq.
    unfold ret at 1. apply Eval_Str. }
  rewrite (Eval_eq _ _ E). reflexivity.
Qed.

(** [flashBackTable], entered with an empty queue. *)
Lemma flashBackTable_queues s out s1 :
  todoSQLs s = [] ->
  Eval flashBackTable s = Ok out s1 ->
  exists p t,
    In p (tables s) /\ nth_error (tableStore s) p = Some t /\
    (out = "drop table " ++ TblName t \/ out = "truncate table " ++ TblName t) /\
    todoSQLs s1 = ["flashback table " ++ TblName t].
Proof.
  intros Hq E. apply Eval_ok in E. destruct E as (s2 & E & ->).
  unfold flashBackTable, NewFn in E; cbn [Gen] in E.
  run_inv E as g s3 Hbody.
  run_inv Hbody as p s4 Hp. apply GetRandTable_ok in Hp. destruct Hp as [Hin ->].
  run_inv Hbody as t s5 Ht. apply derefTable_ok in Ht. destruct Ht as [Ht ->].
  run_inv Hbody as u s6 Hinj. apply modify_ok in Hinj. subst s6.
  injection Hbody as <- <-.
  exists p, t. split; [exact Hin|]. split; [exact Ht|].
  match type of E with
  | Eval (Or [Strs ?a; Strs ?b]) ?st = _ =>
      destruct (Eval_Or_Str2 (String.concat " " a) (String.concat " " b) st)
        as [E' | E']
  end; unfold Strs in E; rewrite E' in E; injection E as <- <-.
  - split; [left; reflexivity|]. cbn. rewrite Hq. reflexivity.
  - split; [right; reflexivity|]. cbn. rewrite Hq. reflexivity.
Qed.

(** Once the catalog is initialized, a call that finds the queue empty
    evaluates one production of [startProductions], or emits nothing. *)
Lemma Generate_selects s out s' :
  todoSQLs s = [] -> initialized s = true ->
  Generate s = Ok out s' ->
  selectsFrom startProductions s out s'.
Proof.
  intros Hq Hinit E. unfold Generate in E.
  apply Eval_ok in E. destruct E as (s1 & E & ->).
  unfold start, NewFn in E; cbn [Gen] in E.
  run_inv E as g s2 Hbody.
  run_inv Hbody as w s3 Hw. gets_inv Hw.
  run_inv Hbody as todo s4 Hpop. apply PopOneTodoSQL_ok in Hpop.
  destruct todo as [q|].
  { destruct Hpop as (rest & Hq' & _).
    change (todoSQLs (pushScope s)) with (todoSQLs s) in Hq'. congruence. }
  destruct Hpop as [_ ->].
  run_inv Hbody as init s5 Hi. gets_inv Hi.
  change (initialized (pushScope s)) with (initialized s) in Hbody.
  rewrite Hinit in Hbody. cbn [negb] in Hbody.
  run_inv Hbody as ts s6 Hts. gets_inv Hts.
  run_inv Hbody as c s7 Hc. gets_inv Hc.
  run_inv Hbody as ps s8 Hps. gets_inv Hps.
  run_inv Hbody as lo s9 Hlo. gets_inv Hlo.
  injection Hbody as <- <-.
  assert (Hsel : selectsFrom startProductions (pushScope s) out s1).
  { revert E. apply EvalSelects_Or.
    repeat first
      [ apply Forall_nil
      | apply Forall_cons
      | apply EvalSelects_SetW
      | apply EvalSelects_If
      | apply EvalSelects_Or
      | apply EvalSelects_leaf; simpl; tauto ]. }
  destruct Hsel as [[-> Hq1] | (g & s_in & s_out & Hg & Hq1 & Hrun & Hq2)].
  - left. split; [reflexivity | exact Hq1].
  - right. exists g, s_in, s_out. repeat split; assumption.
Qed.

(** C1: a call of the producer first pops the deferred queue and, when it is
    not empty, emits its head and does nothing else.  [flashBackTable],
    which [start] can only enter after that pop has found the queue empty,
    emits [drop table T] or [truncate table T] and leaves exactly
    [flashback table T] in the queue; any state that carries this queue into
    the next call makes that call emit [flashback table T] and empty the
    queue.  The state a call hands to the next one carries the queue of the
    production [start] selected. *)
Theorem C1_flashback_emitted_next :
  (forall s q rest,
     todoSQLs s = q :: rest -> Generate s = Ok q (set_todoSQLs rest s)) /\
  (forall s out s1,
     todoSQLs s = [] ->
     Eval flashBackTable s = Ok out s1 ->
     exists p t,
       In p (tables s) /\ nth_error (tableStore s) p = Some t /\
       (out = "drop table " ++ TblName t \/
        out = "truncate table " ++ TblName t) /\
       todoSQLs s1 = ["flashback table " ++ TblName t] /\
       forall s2, todoSQLs s2 = todoSQLs s1 ->
         Generate s2 = Ok ("flashback table " ++ TblName t) (set_todoSQLs [] s2)) /\
  (forall s out s',
     todoSQLs s = [] -> initialized s = true ->
     Generate s = Ok out s' ->
     selectsFrom startProductions s out s').
Proof.
  split; [exact Generate_drains|]. split; [|exact Generate_selects].
  intros s out s1 Hq E.
  destruct (flashBackTable_queues _ Hq E) as (p & t & Hin & Ht & Hout & Hq1).
  exists p, t. repeat split; try assumption.
  intros s2 Hq2. apply Generate_drains. congruence.
Qed.

End DeferredQueue.

(* ================================================================== *)
(** ** C6: how often createTable emits index definitions *)

Lemma Eval_And_Str2 a b s : Eval (And [Str a; Str b]) s = Ok (joinTokens [a; b]) s.
Proof. destruct s; reflexivity. Qed.






(* ================================================================== *)
(** ** C7: the column definitions of createTable *)

Lemma nth_error_replaceNth {A} (l : list A) n x y :
  nth_error l n = Some y -> nth_error (replaceNth n x l) n = Some x.
Proof.
  revert n. induction l as [|a l IH]; intros [|n] E; simpl in *;
    try discriminate; auto.
Qed.

Section ColDefs.
Context `{Helpers}.

Lemma colDef_eq tbl w t s :
  nth_error (tableStore s) tbl = Some t ->
  Eval (colDef tbl w) s =
    Ok (columnDefText (newColumn w s)) (afterColDef tbl w t s).
Proof.
  intros Ht.
  assert (E : Gen (colDef tbl w) (pushScope s) =
              Ok (columnDefText (newColumn w s))
                 (pushScope (afterColDef tbl w t s))).
  { unfold colDef, NewFn; cbn [Gen].
    unfold bind, AllocGlobalID, gets, StoreInRoot, modify, ret, liftRand,
      modifyTable, derefTable, bind, gets, modify.
    cbn [scopeRoot pushScope set_scopeStack set_scopeRoot rand set_rand
         tableStore set_tableStore].
    fold (nextColumnID s). unfold afterColDef, newColumn.
    destruct (GenNewColumn (nextColumnID s) w (rand s)) as [col r'].
    cbn [tableStore set_rand set_scopeRoot pushScope set_scopeStack fst snd].
    rewrite Ht. rewrite Eval_And_Str2. reflexivity. }
  rewrite (Eval_eq _ _ E). rewrite pop_push. reflexivity.
Qed.

Lemma afterColDef_table tbl w t s :
  nth_error (tableStore s) tbl = Some t ->
  nth_error (tableStore (afterColDef tbl w t s)) tbl =
    Some (AppendColumn (newColumn w s) t).
Proof. intros Ht. eapply nth_error_replaceNth. exact Ht. Qed.

Lemma afterColDef_nextColumnID tbl w t s :
  nextColumnID (afterColDef tbl w t s) = nextColumnID s + 1.
Proof. reflexivity. Qed.

(** [n] evaluations of [colDef], separated by commas. *)
Lemma repeatEval_colDef n tbl w t s :
  nth_error (tableStore s) tbl = Some t ->
  repeatEval n (colDef tbl w) (Str ",") s =
    Ok (intersperse "," (map columnDefText (fst (fst (colDefRun n tbl w t s)))))
       (snd (colDefRun n tbl w t s)).
Proof.
  revert t s. induction n as [|m IH]; intros t s Ht; [reflexivity|].
  cbn [repeatEval colDefRun]. unfold bind. rewrite (@colDef_eq tbl w t s Ht).
  specialize (IH _ _ (@afterColDef_table tbl w t s Ht)).
  destruct (colDefRun m tbl w (AppendColumn (newColumn w s) t)
              (afterColDef tbl w t s)) as [[cs t'] s'] eqn:Hrun.
  cbn [fst snd] in *.
  destruct m as [|m']; [injection Hrun as <- _ <-; reflexivity|].
  rewrite Eval_Str, IH.
  destruct cs as [|c cs]; [|reflexivity].
  cbn [colDefRun] in Hrun.
  destruct (colDefRun m' _ _ _ _) as [[cs'' t''] s''].
  discriminate.
Qed.

Lemma colDefRun_spec n tbl w t s cs t' s' :
  colDefRun n tbl w t s = (cs, t', s') ->
  nth_error (tableStore s) tbl = Some t ->
  length cs = n /\
  Columns t' = (Columns t ++ cs)%list /\
  nth_error (tableStore s') tbl = Some t' /\
  generatedFrom (nextColumnID s) w cs.
Proof.
  revert t s cs t' s'. induction n as [|m IH]; intros t s cs t' s' Hrun Ht.
  - injection Hrun as <- <- <-. rewrite app_nil_r. repeat split. exact Ht.
  - cbn [colDefRun] in Hrun.
    destruct (colDefRun m tbl w (AppendColumn (newColumn w s) t)
                (afterColDef tbl w t s)) as [[cs0 t0] s0] eqn:Hm.
    injection Hrun as <- <- <-.
    destruct (IH _ _ _ _ _ Hm (@afterColDef_table tbl w t s Ht))
      as (Hlen & Hcols & Hnth & Hgen).
    split; [simpl; congruence|]. split.
    { rewrite Hcols. cbn [AppendColumn Columns setValues setColumns].
      rewrite <- app_assoc. reflexivity. }
    split; [exact Hnth|].
    cbn [generatedFrom]. split; [eexists; reflexivity | exact Hgen].
Qed.

(** C7: evaluated for an allocated table, [colDefs] returns; it appends to
    the table as many columns as it emits definitions, each column made by
    [GenNewColumn] for a freshly allocated identifier, and emits their
    definitions separated by commas.  Before initialization the number of
    columns is [InitColCount]; after it, a number between 1 and
    [CreateTable_MaxColumnCnt].  In both cases it lies between 1 and the
    respective limit, provided the limit is at least 1. *)
Theorem C7_column_definitions (tbl : TablePtr) (w : Weight) (s : State)
    (t : Table) :
  nth_error (tableStore s) tbl = Some t ->
  1 <= (if initialized s then CreateTable_MaxColumnCnt w
        else InitColCount (ctrl s)) ->
  exists out s' t' cols,
    Eval (colDefs tbl w) s = Ok out s' /\
    nth_error (tableStore s') tbl = Some t' /\
    Columns t' = (Columns t ++ cols)%list /\
    1 <= len cols <= (if initialized s then CreateTable_MaxColumnCnt w
                      else InitColCount (ctrl s)) /\
    (initialized s = false -> len cols = InitColCount (ctrl s)) /\
    generatedFrom (nextColumnID s) w cols /\
    out = joinTokens (intersperse "," (map columnDefText cols)).
Proof.
  intros Ht Hlim.
  assert (Hrep : forall n s0,
            tableStore s0 = tableStore s -> nextColumnID s0 = nextColumnID s ->
            exists cols t' s1,
              Gen (Repeat (colDef tbl w) (Z.of_nat n) (Str ",")) s0 =
                Ok (joinTokens (intersperse "," (map columnDefText cols))) s1 /\
              nth_error (tableStore s1) tbl = Some t' /\
              Columns t' = (Columns t ++ cols)%list /\
              length cols = n /\
              generatedFrom (nextColumnID s) w cols).
  { intros n s0 Hstore Hid.
    destruct (colDefRun n tbl w t s0) as [[cs t'] s1] eqn:Hrun.
    assert (Ht0 : nth_error (tableStore s0) tbl = Some t).
    { rewrite Hstore. exact Ht. }
    destruct (@colDefRun_spec n tbl w t s0 cs t' s1 Hrun Ht0)
      as (Hlen & Hcols & Hnth & Hgen).
    exists cs, t', s1. split.
    - unfold Repeat; cbn [Gen]. unfold bind.
      rewrite Nat2Z.id. rewrite (@repeatEval_colDef n tbl w t _ Ht0).
      rewrite Hrun. reflexivity.
    - split; [exact Hnth|]. split; [exact Hcols|]. split; [exact Hlen|].
      rewrite Hid in Hgen. exact Hgen. }
  destruct (initialized s) eqn:Hinit.
  - (* after initialization *)
    set (r := nextDraw (pushScope (pushScope s))
                       (CreateTable_MaxColumnCnt w - 1 + 1)).
    assert (Hr : 0 <= r < CreateTable_MaxColumnCnt w - 1 + 1)
      by (apply Z.mod_pos_bound; lia).
    destruct (Hrep (Z.to_nat (1 + r)) (afterDraw (pushScope (pushScope s))))
      as (cols & t' & s1 & Hev & Hnth & Hcols & Hlen & Hgen);
      [reflexivity | reflexivity |].
    exists (joinTokens (intersperse "," (map columnDefText cols))),
      (popScope (popScope s1)), t', cols.
    split.
    { apply Eval_eq. unfold colDefs, NewFn; cbn [Gen].
      unfold bind at 1. unfold bind at 1. unfold Initialized, gets at 1.
      change (initialized (pushScope s)) with (initialized s). rewrite Hinit.
      unfold bind at 1. unfold gets at 1. cbn [negb]. unfold ret at 1.
      apply Eval_eq. unfold RepeatRange; cbn [Gen]. unfold bind at 1.
      rewrite Intn_eq by lia. fold (nextDraw (pushScope (pushScope s))
                                      (CreateTable_MaxColumnCnt w - 1 + 1)).
      fold r. rewrite Z2Nat.id in Hev by lia. exact Hev. }
    split; [exact Hnth|]. split; [exact Hcols|].
    split; [unfold len; rewrite Hlen; lia|].
    split; [discriminate|]. split; [exact Hgen | reflexivity].
  - (* during initialization *)
    destruct (Hrep (Z.to_nat (InitColCount (ctrl s))) (pushScope (pushScope s)))
      as (cols & t' & s1 & Hev & Hnth & Hcols & Hlen & Hgen);
      [reflexivity | reflexivity |].
    exists (joinTokens (intersperse "," (map columnDefText cols))),
      (popScope (popScope s1)), t', cols.
    split.
    { apply Eval_eq. unfold colDefs, NewFn; cbn [Gen].
      unfold bind at 1. unfold bind at 1. unfold Initialized, gets at 1.
      change (initialized (pushScope s)) with (initialized s). rewrite Hinit.
      unfold bind at 1. unfold gets at 1. cbn [negb]. unfold ret at 1.
      apply Eval_eq.
      rewrite Z2Nat.id in Hev by lia. exact Hev. }
    split; [exact Hnth|]. split; [exact Hcols|].
    split; [unfold len; rewrite Hlen; lia|].
    split; [intros _; unfold len; rewrite Hlen; lia|].
    split; [exact Hgen | reflexivity].
Qed.

End ColDefs.

(* ================================================================== *)
(** ** C3: unique indexes contain the partition column *)

Lemma nth_error_replaceNth_other {A} (l : list A) n m x :
  n <> m -> nth_error (replaceNth n x l) m = nth_error l m.
Proof.
  revert n m. induction l as [|a l IH]; intros [|n] [|m] Hne; simpl;
    try reflexivity; try congruence.
  apply IH. congruence.
Qed.

Lemma IsUnique_AppendColumnIfNotExists idx c :
  IsUnique (AppendColumnIfNotExists idx c) = IsUnique idx.
Proof.
  unfold AppendColumnIfNotExists. destruct (IndexContainsColumn idx c); reflexivity.
Qed.

Lemma contains_AppendColumnIfNotExists idx c :
  IndexContainsColumn (AppendColumnIfNotExists idx c) c = true.
Proof.
  unfold AppendColumnIfNotExists.
  destruct (IndexContainsColumn idx c) eqn:E; [exact E|].
  unfold IndexContainsColumn; cbn [IdxColumns].
  rewrite existsb_app. cbn [existsb]. rewrite Z.eqb_refl.
  rewrite orb_true_r. reflexivity.
Qed.

Lemma contains_AppendColumnIfNotExists_mono idx c c' :
  IndexContainsColumn idx c = true ->
  IndexContainsColumn (AppendColumnIfNotExists idx c') c = true.
Proof.
  intros Hc. unfold AppendColumnIfNotExists.
  destruct (IndexContainsColumn idx c'); [exact Hc|].
  unfold IndexContainsColumn in *; cbn [IdxColumns].
  rewrite existsb_app, Hc. reflexivity.
Qed.

Lemma fold_AppendColumnIfNotExists cs idx :
  IsUnique (fold_left AppendColumnIfNotExists cs idx) = IsUnique idx /\
  forall c, IndexContainsColumn idx c = true ->
            IndexContainsColumn (fold_left AppendColumnIfNotExists cs idx) c = true.
Proof.
  revert idx. induction cs as [|c' cs IH]; intros idx; simpl; [auto|].
  destruct (IH (AppendColumnIfNotExists idx c')) as [Hu Hc]. split.
  - rewrite Hu. apply IsUnique_AppendColumnIfNotExists.
  - intros c Hin. apply Hc. apply contains_AppendColumnIfNotExists_mono. exact Hin.
Qed.

(** Appending an index that contains the partition columns when it is
    unique keeps the property of the table. *)
Lemma partitionKept_AppendIndex inject idx t :
  partitionKeptByUniqueIndexes t ->
  (IsUnique idx = true ->
   forall pc, In pc (PartitionColumns t) -> IndexContainsColumn idx pc = true) ->
  partitionKeptByUniqueIndexes (AppendIndex inject idx t).
Proof.
  intros Hkept Hidx pc i Hpc Hi Hu.
  unfold AppendIndex in Hpc, Hi. cbn [setIndices PartitionColumns Indices] in Hpc, Hi.
  apply in_app_or in Hi. destruct Hi as [Hi | [<- | []]].
  - exact (Hkept pc i Hpc Hi Hu).
  - destruct (inject && IsUnique idx)%bool eqn:E.
    + destruct (fold_AppendColumnIfNotExists (PartitionColumns t) idx) as [Hu' Hc].
      rewrite Hu' in Hu. apply Hc. exact (Hidx Hu pc Hpc).
    + exact (Hidx Hu pc Hpc).
Qed.

#[export] Instance KeepRel_sameStore : KeepRel sameStore.
Proof.
  split.
  - intros s. split; reflexivity.
  - intros s1 s2 s3 [a b] [c d]. split; congruence.
  - intros s s1 [a b]. split; [cbn; rewrite a; reflexivity | exact b].
  - intros s r. split; reflexivity.
Qed.

#[export] Instance KeepRel_sameIndexing tbl : KeepRel (sameIndexing tbl).
Proof.
  split.
  - intros s. split; [reflexivity|]. intros t Ht. exists t. auto.
  - intros s1 s2 s3 [a b] [c d]. split; [congruence|].
    intros t Ht. destruct (b t Ht) as (t2 & Ht2 & Hi2 & Hp2).
    destruct (d t2 Ht2) as (t3 & Ht3 & Hi3 & Hp3).
    exists t3. repeat split; congruence.
  - intros s s1 [a b]. split; [cbn; rewrite a; reflexivity | exact b].
  - intros s r. split; [reflexivity|]. intros t Ht. exists t. auto.
Qed.

Lemma indexingInv_pushScope tbl s : indexingInv tbl s -> indexingInv tbl (pushScope s).
Proof. intros (t & Ht & Hk & Hs). exists t. auto. Qed.

#[export] Instance KeepRel_keepsIndexingInv tbl : KeepRel (keepsIndexingInv tbl).
Proof.
  split.
  - intros s. split; auto.
  - intros s1 s2 s3 [a b] [c d]. split; [congruence | auto].
  - intros s s1 [a b]. split; [cbn; rewrite a; reflexivity|].
    intros Hinv. destruct (b (indexingInv_pushScope Hinv)) as (t & Ht & Hk & Hs).
    exists t. split; [exact Ht|]. split; [exact Hk|].
    intros pc Hpc. specialize (Hs pc Hpc).
    unfold partitionInScope in *. cbn [scopeStack popScope set_scopeStack].
    rewrite a in Hs |- *. exact Hs.
  - intros s r. split; [reflexivity|]. intros (t & Ht & Hk & Hs). exists t. auto.
Qed.

Lemma sameIndexing_keepsIndexingInv tbl s s' :
  sameIndexing tbl s s' -> keepsIndexingInv tbl s s'.
Proof.
  intros [a b]. split; [exact a|]. intros (t & Ht & Hk & Hs).
  destruct (b t Ht) as (t' & Ht' & Hi & Hp). exists t'.
  split; [exact Ht'|]. split.
  - intros pc idx Hpc Hidx. rewrite Hp in Hpc. rewrite Hi in Hidx. auto.
  - intros pc Hpc. rewrite Hp in Hpc. unfold partitionInScope. rewrite a.
    apply Hs. exact Hpc.
Qed.

Lemma sameStore_sameIndexing tbl s s' : sameStore s s' -> sameIndexing tbl s s'.
Proof.
  intros [a b]. split; [exact a|]. intros t Ht. exists t. rewrite b. auto.
Qed.

Lemma Keeps_sameIndexing_StoreInRoot tbl k o :
  Keeps (sameIndexing tbl) (StoreInRoot k o).
Proof.
  apply Keeps_modify. intros s. split; [reflexivity|]. intros t Ht. exists t. auto.
Qed.

Lemma Keeps_sameIndexing_modifyTable tbl p f :
  (forall t, Indices (f t) = Indices t /\
             PartitionColumns (f t) = PartitionColumns t) ->
  Keeps (sameIndexing tbl) (modifyTable p f).
Proof.
  intros Hf s u s' E. unfold modifyTable in E.
  run_inv E as t0 s1 Hd. apply derefTable_ok in Hd. destruct Hd as [Ht0 ->].
  apply modify_ok in E. subst s'. split; [reflexivity|].
  intros t Ht. cbn [tableStore set_tableStore].
  destruct (Nat.eq_dec p tbl) as [->|Hne].
  - rewrite Ht in Ht0. injection Ht0 as <-.
    exists (f t). split; [eapply nth_error_replaceNth; eauto | apply Hf].
  - exists t. rewrite (nth_error_replaceNth_other _ _ Hne). auto.
Qed.

#[export] Hint Resolve Keeps_sameIndexing_StoreInRoot : keeps.

Lemma Keeps_sameIndexing_AllocGlobalID tbl k :
  Keeps (sameIndexing tbl) (AllocGlobalID k).
Proof. unfold AllocGlobalID. keeps. Qed.

#[export] Hint Resolve Keeps_sameIndexing_AllocGlobalID : keeps.

Section PartitionedTables.
Context `{Helpers}.

Lemma KeepsFn_sameIndexing_colDef tbl p w :
  KeepsFn (sameIndexing tbl) (colDef p w).
Proof.
  unfold colDef. keeps.
  apply Keeps_sameIndexing_modifyTable. intros t. split; reflexivity.
Qed.

Hint Resolve KeepsFn_sameIndexing_colDef : keeps.

Lemma KeepsFn_sameIndexing_colDefs tbl p w :
  KeepsFn (sameIndexing tbl) (colDefs p w).
Proof. unfold colDefs, Initialized. keeps. Qed.


Lemma idxDef_index_ok idx0 s idx s' :
  (if IsUnique idx0 then
     partitionedCol <- Search ScopeKeyCurrentPartitionColumn ;;
     if negb (IsNil partitionedCol) then
       match ToColumn partitionedCol with
       | Some c => ret (AppendColumnIfNotExists idx0 c)
       | None => panic "assertion failed"
       end
     else ret idx0
   else ret idx0) s = Ok idx s' ->
  s' = s /\
  (IsUnique idx = true ->
   forall pc, partitionInScope s pc -> IndexContainsColumn idx pc = true).
Proof.
  intros E. destruct (IsUnique idx0) eqn:U.
  - run_inv E as o s1 H1. unfold Search in H1. gets_inv H1. split.
    + destruct (negb (IsNil _)); [destruct (ToColumn _); [|discriminate]|];
        injection E as <- <-; reflexivity.
    + intros _ pc Hpc. unfold partitionInScope in Hpc. rewrite Hpc in E.
      cbn in E. injection E as <- <-. apply contains_AppendColumnIfNotExists.
  - injection E as <- <-. split; [reflexivity | congruence].
Qed.

Lemma KeepsFn_keepsIndexingInv_idxDef tbl w :
  KeepsFn (keepsIndexingInv tbl) (idxDef tbl w).
Proof.
  intros s out s' E. unfold idxDef, NewFn in E. cbn [Gen] in E.
  run_inv E as g s6 Hb.
  run_inv Hb as id s1 H1.
  run_inv Hb as t s2 H2. apply derefTable_ok in H2. destruct H2 as [Ht ->].
  run_inv Hb as idx0 s3 H3. apply liftRand_ok in H3. destruct H3 as [-> ->].
  run_inv Hb as idx s4 H4. apply idxDef_index_ok in H4. destruct H4 as [-> Hidx].
  run_inv Hb as u s5 H5. cbv zeta in Hb. injection Hb as <- <-.
  unfold modifyTable in H5. run_inv H5 as t' s7 H7.
  apply derefTable_ok in H7. destruct H7 as [Ht' ->]. apply modify_ok in H5.
  cbn [tableStore set_rand] in Ht'. rewrite Ht in Ht'. injection Ht' as <-.
  assert (Hs1 : scopeStack s1 = scopeStack s /\ tableStore s1 = tableStore s).
  { unfold AllocGlobalID in H1. run_inv H1 as o sa Ha. gets_inv Ha.
    run_inv H1 as u' sb Hb'. apply modify_ok in Hb'. injection H1 as <- <-.
    subst sb. split; reflexivity. }
  destruct Hs1 as [Hst Hts].
  eapply fr_trans with (s2 := s5).
  - subst s5. split; [exact Hst|].
    intros (t0 & Ht0 & Hk & Hsc). rewrite <- Hts, Ht in Ht0. injection Ht0 as <-.
    exists (AppendIndex AppendIndexInjects idx t). split; [|split].
    + cbn [tableStore set_tableStore]. eapply nth_error_replaceNth. exact Ht.
    + apply partitionKept_AppendIndex; [exact Hk|].
      intros Hu pc Hpc. apply Hidx; [exact Hu|].
      unfold partitionInScope. cbn [scopeStack set_rand]. rewrite Hst.
      apply Hsc. exact Hpc.
    + intros pc Hpc. unfold partitionInScope.
      cbn [scopeStack set_tableStore set_rand]. rewrite Hst. apply Hsc. exact Hpc.
  - revert E. apply Keeps_Eval. keeps.
Qed.

Hint Resolve KeepsFn_keepsIndexingInv_idxDef : keeps.

Lemma KeepsFn_keepsIndexingInv_idxDefs tbl w :
  KeepsFn (keepsIndexingInv tbl) (idxDefs tbl w).
Proof. unfold idxDefs. keeps. Qed.


(** [partitionDef] on a table without indices and partition columns, run
    inside the frame of [createTable]: the partition column it draws is
    recorded in that frame and in the table. *)
Lemma partitionDef_inv tbl w s t f rest out s' :
  nth_error (tableStore s) tbl = Some t ->
  Indices t = [] -> PartitionColumns t = [] ->
  scopeStack s = f :: rest ->
  Eval (partitionDef tbl w) s = Ok out s' ->
  indexingInv tbl s'.
Proof.
  intros Ht Hi Hp Hst E. apply Eval_ok in E. destruct E as (s1 & E & ->).
  unfold partitionDef, NewFn in E. cbn [Gen] in E.
  run_inv E as g s2 Hb.
  run_inv Hb as t0 s3 H3. apply derefTable_ok in H3. destruct H3 as [Ht0 ->].
  cbn [tableStore pushScope set_scopeStack] in Ht0. rewrite Ht in Ht0.
  injection Ht0 as <-.
  run_inv Hb as pc s4 H4. apply liftRand_ok in H4. destruct H4 as [-> ->].
  destruct (fst (GetRandColumnForPartition t (rand (pushScope s)))) as [pc|].
  - run_inv Hb as u s5 H5. unfold StoreInParent in H5. apply modify_ok in H5.
    cbn [scopeStack pushScope set_scopeStack set_rand] in H5. rewrite Hst in H5.
    run_inv Hb as u' s6 H6. unfold modifyTable in H6.
    run_inv H6 as t1 s7 H7. apply derefTable_ok in H7. destruct H7 as [Ht1 ->].
    apply modify_ok in H6. subst s5.
    cbn [tableStore set_scopeStack set_rand pushScope] in Ht1.
    rewrite Ht in Ht1. injection Ht1 as <-.
    match type of Hb with
    | ?m _ = _ => assert (Hk : KeepsNode sameStore m) by keeps
    end.
    destruct (Hk _ _ _ Hb) as [[Ha1 Ha2] Hg].
    apply (Keeps_Eval Hg) in E. destruct E as [Hb1 Hb2].
    exists (AppendPartitionColumn pc t). split; [|split].
    + cbn [tableStore popScope set_scopeStack]. rewrite Hb2, Ha2, H6.
      cbn [tableStore set_tableStore set_scopeStack set_rand pushScope].
      eapply nth_error_replaceNth. exact Ht.
    + intros c idx _ Hidx. cbn [AppendPartitionColumn setPartitionColumns Indices] in Hidx.
      rewrite Hi in Hidx. destruct Hidx.
    + intros c Hc. unfold AppendPartitionColumn in Hc.
      cbn [setPartitionColumns PartitionColumns] in Hc. rewrite Hp in Hc.
      destruct Hc as [<-|[]].
      unfold partitionInScope. cbn [scopeStack popScope set_scopeStack].
      rewrite Hb1, Ha1, H6.
      cbn [scopeStack set_tableStore set_scopeStack tl stackLookup frameStore frameLookup].
      reflexivity.
  - injection Hb as <- <-. rewrite Eval_Empty in E. injection E as <- <-.
    exists t. split; [exact Ht|]. split.
    + intros c idx _ Hidx. rewrite Hi in Hidx. destruct Hidx.
    + intros c Hc. rewrite Hp in Hc. destruct Hc.
Qed.

(** C3 (createTable, partitionDef, idxDef): the table that [createTable]
    adds to the catalog satisfies the partitioning invariant.  Whenever a
    run of [createTable] returns, the catalog has gained one table, and every
    unique or primary index of that table contains every partition column of
    the table: [partitionDef] runs before [idxDefs] and records the column
    in the frame of [createTable], where each [idxDef] finds it and appends
    it to a unique index that lacks it. *)
Theorem C3_unique_index_contains_partition_column s out s' :
  Eval createTable s = Ok out s' ->
  exists tbl t,
    tables s' = (tables s ++ [tbl])%list /\
    nth_error (tableStore s') tbl = Some t /\
    forall pc idx,
      In pc (PartitionColumns t) -> In idx (Indices t) ->
      IsUnique idx = true -> IndexContainsColumn idx pc = true.
Proof.
  intros E. apply Eval_ok in E. destruct E as (sz & E & ->).
  unfold createTable, NewFn in E. cbn [Gen] in E.
  run_inv E as g s9 Hb.
  run_inv Hb as w s1 H1. unfold weights in H1. gets_inv H1.
  run_inv Hb as id s1 H1. unfold AllocGlobalID in H1.
  run_inv H1 as o sa Ha. gets_inv Ha. run_inv H1 as u sb Hsb.
  apply modify_ok in Hsb. injection H1 as <- <-. subst sb.
  run_inv Hb as tbl s2 H2. unfold newTable in H2. injection H2 as <- <-.
  run_inv Hb as u1 s3 H3. apply modify_ok in H3.
  run_inv Hb as c s4 H4. gets_inv H4.
  run_inv Hb as u2 s4 H4.
  assert (Hq : sameStore s3 s4 /\ tables s4 = tables s3).
  { match type of H4 with
    | context [if ?b then _ else _] => destruct b
    end.
    - run_inv H4 as u3 s5 H5. apply modify_ok in H5. apply modify_ok in H4.
      subst s4 s5. repeat split.
    - injection H4 as <- <-. repeat split. }
  destruct Hq as [[Hq1 Hq2] Hq3].
  run_inv Hb as eColDefs s5 H5.
  run_inv Hb as ePartitionDef s6 H6.
  run_inv Hb as eIdxDefs s7 H7.
  run_inv Hb as t s8 H8. apply derefTable_ok in H8. destruct H8 as [_ ->].
  run_inv Hb as r s8 H8. apply Intn_ok in H8. destruct H8 as [_ ->].
  injection Hb as <- <-.
  set (p := length (tableStore s)) in *.
  assert (Hnew : exists id, nth_error (tableStore s4) p = Some (GenNewTable id)).
  { eexists. rewrite Hq2, H3. cbn [tableStore set_tables set_tableStore set_scopeRoot pushScope set_scopeStack].
    rewrite nth_error_app2 by (unfold p; lia). unfold p.
    rewrite Nat.sub_diag. reflexivity. }
  assert (Hstack : scopeStack s4 = [] :: scopeStack s).
  { rewrite Hq1, H3. reflexivity. }
  (* the columns *)
  pose proof (Keeps_Eval (KeepsFn_sameIndexing_colDefs p p _) _ H5) as [Hc1 Hc2].
  destruct Hnew as (id & Hnew).
  destruct (Hc2 _ Hnew) as (t5 & Ht5 & Hi5 & Hp5).
  (* the partition clause *)
  assert (Hinv6 : indexingInv p s6).
  { eapply partitionDef_inv; [exact Ht5 | exact Hi5 | exact Hp5 | | exact H6].
    rewrite Hc1. exact Hstack. }
  (* the index definitions *)
  pose proof (Keeps_Eval (KeepsFn_keepsIndexingInv_idxDefs p _) _ H7) as [_ Hinv7].
  specialize (Hinv7 Hinv6).
  (* the statement *)
  assert (Hinv9 : indexingInv p (set_rand (mkRand (stream (rand s7)) (S (cursor (rand s7)))) s7)).
  { destruct Hinv7 as (t7 & a & b & d). exists t7. auto. }
  pose proof (Keeps_Eval (KeepsFn_createTableStmt (R := keepsIndexingInv p) _ _ _ _ _) _ E)
    as [_ Hinvz].
  destruct (Hinvz Hinv9) as (tz & Htz & Hkz & _).
  exists p, tz. split; [|split; [exact Htz | exact Hkz]].
  (* the catalog *)
  pose proof (Keeps_Eval (KeepsFn_colDefs p _) _ H5) as (Ca & _).
  pose proof (Keeps_Eval (KeepsFn_partitionDef p _) _ H6) as (Cb & _).
  pose proof (Keeps_Eval (KeepsFn_idxDefs p _) _ H7) as (Cc & _).
  pose proof (Keeps_Eval (KeepsFn_createTableStmt (R := sameCatalog) _ _ _ _ _) _ E)
    as (Cd & _).
  cbn [tables popScope set_scopeStack]. rewrite Cd.
  cbn [tables set_rand]. rewrite Cc, Cb, Ca, Hq3, H3. reflexivity.
Qed.

End PartitionedTables.

(* ================================================================== *)
(** ** The theorems at the demonstration generator *)

(** [createTable] on the fresh generator: the unique index on the first
    column receives the partition column, the last one. *)
Lemma C3_unique_index_contains_partition_column_witness :
  exists out s',
    Eval (createTable (H := demoHelpers)) oneInitialTable = Ok out s' /\
    exists tbl t,
      tables s' = (tables oneInitialTable ++ [tbl])%list /\
      nth_error (tableStore s') tbl = Some t /\
      forall pc idx,
        In pc (PartitionColumns t) -> In idx (Indices t) ->
        IsUnique idx = true -> IndexContainsColumn idx pc = true.
Proof.
  eexists. eexists. split; [vm_compute; reflexivity|].
  eapply (@C3_unique_index_contains_partition_column demoHelpers oneInitialTable).
  vm_compute. reflexivity.
Defined.

(** [colDefs] on the table of the demonstration catalog, during
    initialization. *)
Lemma C7_column_definitions_witness :
  nth_error (tableStore oneEmptyTable) 0%nat = Some (GenNewTable 0) /\
  exists out s' t' cols,
    Eval (colDefs (H := demoHelpers) 0%nat demoWeight) oneEmptyTable = Ok out s' /\
    nth_error (tableStore s') 0%nat = Some t' /\
    Columns t' = (Columns (GenNewTable 0) ++ cols)%list /\
    1 <= len cols <= 2 /\
    (initialized oneEmptyTable = false -> len cols = 2) /\
    generatedFrom (H := demoHelpers) (nextColumnID oneEmptyTable) demoWeight cols /\
    out = joinTokens (intersperse "," (map (columnDefText (H := demoHelpers)) cols)).
Proof.
  split; [reflexivity|].
  apply (@C7_column_definitions demoHelpers 0%nat demoWeight oneEmptyTable
           (GenNewTable 0) eq_refl).
  vm_compute. discriminate.
Defined.

(** [adminCheck] with and without TiFlash under test. *)
Lemma C8_adminCheck_witness :
  (tables oneEmptyTableTiFlash <> [] /\
   exists s', Eval adminCheck oneEmptyTableTiFlash = Ok "" s') /\
  (tables oneEmptyTable <> [] /\
   exists p t out s',
     In p (tables oneEmptyTable) /\
     nth_error (tableStore oneEmptyTable) p = Some t /\
     Eval adminCheck oneEmptyTable = Ok out s' /\
     (out = "admin check table " ++ TblName t \/
      (Indices t <> [] /\
       exists idx, In idx (Indices t) /\
         out = "admin check index " ++ TblName t ++ " " ++ IdxName idx))).
Proof.
  assert (Hflash : tables oneEmptyTableTiFlash <> []) by (vm_compute; discriminate).
  assert (Hne : tables oneEmptyTable <> []) by (vm_compute; discriminate).
  split; (split; [assumption|]).
  - apply (proj1 (@C8_adminCheck oneEmptyTableTiFlash Hflash)). reflexivity.
  - apply (proj2 (@C8_adminCheck oneEmptyTable Hne)).
    + reflexivity.
    + intros p [<-|[]]. vm_compute. discriminate.
Defined.

(** [loadTable] after [selectIntoOutFile] on a table that was never cloned. *)
Lemma C9_loadTable_panics_witness :
  Search ScopeKeyLastOutFileTable afterOutFile =
    Ok (ObjTable 0%nat) afterOutFile /\
  Enabled (If (negb (IsNil (ObjTable 0%nat))) (loadTable (H := demoHelpers))) = true /\
  exists msg, Eval (loadTable (H := demoHelpers)) afterOutFile = Panic msg.
Proof.
  split; [reflexivity|].
  apply (@C9_loadTable_panics demoHelpers afterOutFile 0%nat (GenNewTable 0));
    reflexivity.
Defined.

(** The three parts of the queue discipline at concrete states. *)
Lemma C1_flashback_emitted_next_witness :
  Generate (H := demoHelpers) queuedFlashback =
    Ok "flashback table t0" (set_todoSQLs [] queuedFlashback) /\
  (exists out s1,
     Eval flashBackTable oneEmptyTable = Ok out s1 /\
     exists p t,
       In p (tables oneEmptyTable) /\
       nth_error (tableStore oneEmptyTable) p = Some t /\
       (out = "drop table " ++ TblName t \/
        out = "truncate table " ++ TblName t) /\
       todoSQLs s1 = ["flashback table " ++ TblName t] /\
       forall s2, todoSQLs s2 = todoSQLs s1 ->
         Generate (H := demoHelpers) s2 =
           Ok ("flashback table " ++ TblName t) (set_todoSQLs [] s2)) /\
  (exists out s',
     Generate (H := demoHelpers) initializedTable = Ok out s' /\
     selectsFrom (startProductions (H := demoHelpers)) initializedTable out s').
Proof.
  split; [|split].
  - apply (proj1 (@C1_flashback_emitted_next demoHelpers)). reflexivity.
  - eexists. eexists. split; [vm_compute; reflexivity|].
    apply (proj1 (proj2 (@C1_flashback_emitted_next demoHelpers)));
      [reflexivity | vm_compute; reflexivity].
  - eexists. eexists. split; [vm_compute; reflexivity|].
    apply (proj2 (proj2 (@C1_flashback_emitted_next demoHelpers)));
      [reflexivity | reflexivity | vm_compute; reflexivity].
Defined.

(* ================================================================== *)
(** * Further properties *)

(* ------------------------------------------------------------------ *)
(** ** The comparison of the two databases *)

Lemma OneOfContains_sym err1 err2 msg :
  OneOfContains err1 err2 msg = OneOfContains err2 err1 msg.
Proof. unfold OneOfContains. cbv zeta. apply orb_comm. Qed.

Lemma existsb_pointwise {A} (f g : A -> bool) l :
  (forall x, f x = g x) -> existsb f l = existsb g l.
Proof.
  intros Hfg. induction l as [|a l IH]; [reflexivity|]. simpl.
  rewrite Hfg, IH. reflexivity.
Qed.

(** X1: [ValidateErrs] does not depend on the order of the two errors. *)
Theorem ValidateErrs_sym (err1 err2 : error) :
  ValidateErrs err1 err2 = ValidateErrs err2 err1.
Proof.
  unfold ValidateErrs. f_equal.
  - apply existsb_pointwise. intros msg. apply OneOfContains_sym.
  - destruct err1, err2; reflexivity.
Qed.

(** X2: [ValidateErrs] accepts two nil errors and two errors, whatever their
    messages; it accepts an error on one side only when its message contains
    one of the ignored texts. *)
Theorem ValidateErrs_spec (err1 err2 : error) :
  ValidateErrs err1 err2 =
    match err1, err2 with
    | None, None => true
    | Some _, Some _ => true
    | Some m, None | None, Some m => existsb (Contains m) ignoreErrMsgs
    end.
Proof.
  unfold ValidateErrs. destruct err1 as [m1|], err2 as [m2|].
  - cbn [isSome negb andb]. rewrite orb_true_r. reflexivity.
  - cbn [isSome negb andb orb]. rewrite orb_false_r. apply existsb_pointwise.
    intros msg. unfold OneOfContains, errContains. cbn [isSome negb andb orb].
    rewrite andb_true_r, orb_false_r. reflexivity.
  - cbn [isSome negb andb orb]. rewrite orb_false_r. apply existsb_pointwise.
    intros msg. unfold OneOfContains, errContains. cbn [isSome negb andb orb].
    rewrite andb_true_r. reflexivity.
  - cbn [isSome negb andb]. rewrite orb_true_r. reflexivity.
Qed.

(** X3: Two databases that give the same answer to a statement pass the test,
    with or without sorting; the one exception is an admin check that fails
    with an error other than a missing table, whose error is returned. *)
Theorem runInteractTest_same_answer (db1 db2 : DB) (sql : string)
    (sortQueryResult : bool) :
  db1 sql = db2 sql ->
  runInteractTest db1 db2 sql sortQueryResult =
    match snd (runQuery db1 sql) with
    | Some m =>
        if (isAdminCheck sql && negb (Contains m "t exist"))%bool
        then Some (DatabaseError m) else None
    | None => None
    end.
Proof.
  intros E. unfold runInteractTest, runQuery. rewrite <- E.
  assert (Hsame : forall (r : ResultSet) (b : bool),
            (let '(h1, h2) :=
               if b then (OrderedDigest r, OrderedDigest r)
               else (DataDigest r, DataDigest r) in
             if negb (h1 =? h2)%string
             then Some (DigestsMismatch h1 h2 sql (PrettyPrint r) (PrettyPrint r))
             else if (IsExecResult r &&
                      negb (RowsAffected r =? RowsAffected r))%bool
             then Some (RowsAffectedMismatch (RowsAffected r) (RowsAffected r) sql)
             else None) = None).
  { intros r b. destruct b; rewrite String.eqb_refl, Z.eqb_refl;
      cbn [negb]; rewrite andb_false_r; reflexivity. }
  destruct (db1 sql) as [m | rs [m|]]; cbn -[ValidateErrs isAdminCheck];
    rewrite ?andb_true_r, ?andb_false_r.
  - destruct (isAdminCheck sql && negb (Contains m "t exist"))%bool;
      [reflexivity|]. rewrite ValidateErrs_spec. reflexivity.
  - destruct (isAdminCheck sql && negb (Contains m "t exist"))%bool;
      [reflexivity|]. rewrite ValidateErrs_spec. cbn [negb].
    destruct rs as [r|]; [apply Hsame | reflexivity].
  - rewrite ValidateErrs_spec. cbn [negb].
    destruct rs as [r|]; [apply Hsame | reflexivity].
Qed.

(** X4: When both databases refuse the statement the test passes, whatever the
    two messages say, unless the statement is an admin check: then the first
    message that does not report a missing table is returned. *)
Theorem runInteractTest_both_fail (db1 db2 : DB) (sql m1 m2 : string)
    (sortQueryResult : bool) :
  db1 sql = QueryFails m1 -> db2 sql = QueryFails m2 ->
  runInteractTest db1 db2 sql sortQueryResult =
    if isAdminCheck sql then
      if negb (Contains m1 "t exist") then Some (DatabaseError m1)
      else if negb (Contains m2 "t exist") then Some (DatabaseError m2)
      else None
    else None.
Proof.
  intros E1 E2. unfold runInteractTest, runQuery. rewrite E1, E2.
  cbn -[ValidateErrs isAdminCheck].
  destruct (isAdminCheck sql); cbn -[ValidateErrs].
  - destruct (Contains m1 "t exist"); cbn -[ValidateErrs]; [|reflexivity].
    destruct (Contains m2 "t exist"); cbn -[ValidateErrs]; [|reflexivity].
    rewrite ValidateErrs_spec. reflexivity.
  - rewrite ValidateErrs_spec. reflexivity.
Qed.

(** X5: The verdict does not depend on which database comes first, as long as
    the two result sets agree on being the result of an exec: the test
    passes in one order exactly when it passes in the other.  (The
    rows-affected comparison is made only when the first result set is the
    result of an exec.) *)
Theorem runInteractTest_pass_sym (db1 db2 : DB) (sql : string)
    (sortQueryResult : bool) :
  (forall r1 r2,
     fst (runQuery db1 sql) = Some r1 -> fst (runQuery db2 sql) = Some r2 ->
     IsExecResult r1 = IsExecResult r2) ->
  runInteractTest db1 db2 sql sortQueryResult = None <->
  runInteractTest db2 db1 sql sortQueryResult = None.
Proof.
  intros Hexec. unfold runInteractTest.
  destruct (runQuery db1 sql) as [rs1 e1], (runQuery db2 sql) as [rs2 e2].
  cbn [fst] in Hexec. rewrite (ValidateErrs_sym e2 e1).
  assert (Hrs :
    match rs1, rs2 with
    | Some r1, Some r2 =>
        let '(h1, h2) :=
          if sortQueryResult then (OrderedDigest r1, OrderedDigest r2)
          else (DataDigest r1, DataDigest r2) in
        if negb (h1 =? h2)%string
        then Some (DigestsMismatch h1 h2 sql (PrettyPrint r1) (PrettyPrint r2))
        else if (IsExecResult r1 && negb (RowsAffected r1 =? RowsAffected r2))%bool
        then Some (RowsAffectedMismatch (RowsAffected r1) (RowsAffected r2) sql)
        else None
    | _, _ => None
    end = None <->
    match rs2, rs1 with
    | Some r1, Some r2 =>
        let '(h1, h2) :=
          if sortQueryResult then (OrderedDigest r1, OrderedDigest r2)
          else (DataDigest r1, DataDigest r2) in
        if negb (h1 =? h2)%string
        then Some (DigestsMismatch h1 h2 sql (PrettyPrint r1) (PrettyPrint r2))
        else if (IsExecResult r1 && negb (RowsAffected r1 =? RowsAffected r2))%bool
        then Some (RowsAffectedMismatch (RowsAffected r1) (RowsAffected r2) sql)
        else None
    | _, _ => None
    end = None).
  { destruct rs1 as [r1|], rs2 as [r2|]; try tauto.
    rewrite <- (Hexec r1 r2 eq_refl eq_refl).
    rewrite (Z.eqb_sym (RowsAffected r2)).
    destruct sortQueryResult.
    - rewrite (String.eqb_sym (OrderedDigest r2)).
      destruct (OrderedDigest r1 =? OrderedDigest r2)%string; cbn [negb];
        [|split; discriminate].
      destruct (IsExecResult r1 && negb (RowsAffected r1 =? RowsAffected r2))%bool;
        [split; discriminate | tauto].
    - rewrite (String.eqb_sym (DataDigest r2)).
      destruct (DataDigest r1 =? DataDigest r2)%string; cbn [negb];
        [|split; discriminate].
      destruct (IsExecResult r1 && negb (RowsAffected r1 =? RowsAffected r2))%bool;
        [split; discriminate | tauto]. }
  destruct e1 as [m1|], e2 as [m2|]; cbn [isSome errContains option_map];
    rewrite ?andb_true_r, ?andb_false_r;
    repeat match goal with
           | |- context [if ?b then _ else _] =>
               lazymatch b with
               | negb (ValidateErrs _ _) => fail
               | _ => destruct b
               end
           end;
    try (split; discriminate); try exact Hrs;
    destruct (ValidateErrs _ _); cbn [negb];
    try (split; discriminate); exact Hrs.
Qed.

(* ------------------------------------------------------------------ *)
(** ** The generator and the driver on admin checks *)

Lemma isAdminCheck_table n :
  isAdminCheck (String.concat " " ["admin check table"; n]) = true.
Proof. reflexivity. Qed.

Lemma isAdminCheck_index n i :
  isAdminCheck (String.concat " " ["admin check index"; n; i]) = true.
Proof. reflexivity. Qed.

(** X6: The driver recognises what [adminCheck] emits: every statement the
    production returns without TiFlash under test is an admin check for
    [runInteractTest], and the empty statement it returns with TiFlash under
    test is not. *)
Theorem adminCheck_isAdminCheck (s : State) (out : string) (s' : State) :
  Eval adminCheck s = Ok out s' ->
  isAdminCheck out = negb (EnableTestTiFlash (ctrl s)).
Proof.
  intros E. apply Eval_ok in E. destruct E as (s1 & E & ->).
  unfold adminCheck, NewFn in E. cbn [Gen] in E.
  run_inv E as g s2 Hb.
  run_inv Hb as tbl s3 H3. apply GetRandTable_ok in H3. destruct H3 as [_ ->].
  run_inv Hb as c s4 H4. gets_inv H4.
  change (ctrl (afterDraw (pushScope s))) with (ctrl s) in Hb.
  destruct (EnableTestTiFlash (ctrl s)).
  - injection Hb as <- <-. rewrite Eval_Str in E. injection E as <- _.
    reflexivity.
  - run_inv Hb as t s5 H5. apply derefTable_ok in H5. destruct H5 as [_ ->].
    destruct (len (Indices t) =? 0).
    + injection Hb as <- <-. unfold Strs in E. rewrite Eval_Str in E.
      injection E as <- _. apply isAdminCheck_table.
    + run_inv Hb as idx s6 H6. injection Hb as <- <-.
      apply Eval_ok in E. destruct E as (s7 & E & _).
      apply Or_inv in E.
      destruct E as [(_ & _ & Hw) | (f & r & Hin & _ & E)].
      * vm_compute in Hw. congruence.
      * destruct Hin as [<- | [<- | []]]; unfold Strs in E;
          rewrite Eval_Str in E; injection E as <- _;
          [apply isAdminCheck_table | apply isAdminCheck_index].
Qed.

(* ------------------------------------------------------------------ *)
(** ** What no production changes *)

Section EveryProduction.
Context {R : State -> State -> Prop} `{KeepRel R} `{KeepsWrites R} `{Helpers}.

Lemma Keeps_Store_any k o : Keeps R (Store k o).
Proof.
  apply Keeps_modify. intros s.
  destruct (scopeStack s); [apply kw_scopeRoot | apply kw_scopeStack].
Qed.

Lemma Keeps_StoreInParent_any k o : Keeps R (StoreInParent k o).
Proof.
  apply Keeps_modify. intros s.
  destruct (scopeStack s) as [|f [|g rest]];
    [apply kw_scopeRoot | apply kw_scopeRoot | apply kw_scopeStack].
Qed.

Lemma Keeps_StoreInRoot_any k o : Keeps R (StoreInRoot k o).
Proof. apply Keeps_modify. intros s. apply kw_scopeRoot. Qed.

Lemma Keeps_InjectTodoSQL_any q : Keeps R (InjectTodoSQL q).
Proof. apply Keeps_modify. intros s. apply kw_todoSQLs. Qed.

Lemma Keeps_AppendTable_any p : Keeps R (AppendTable p).
Proof. apply Keeps_modify. intros s. apply kw_tables. Qed.

Lemma Keeps_AppendPrepare_any p : Keeps R (AppendPrepare p).
Proof. apply Keeps_modify. intros s. apply kw_prepareStmts. Qed.

Lemma Keeps_RemovePrepare_any p : Keeps R (RemovePrepare p).
Proof. apply Keeps_modify. intros s. apply kw_prepareStmts. Qed.

Lemma Keeps_SetInitialized_any : Keeps R SetInitialized.
Proof. apply Keeps_modify. intros s. apply kw_initialized. Qed.

Lemma Keeps_set_enabledClustered_any b :
  Keeps R (modify (set_enabledClustered b)).
Proof. apply Keeps_modify. intros s. apply kw_enabledClustered. Qed.

Lemma Keeps_setAgg_any b tp :
  Keeps R (modify (fun s => set_ctrl (setAgg b tp (ctrl s)) s)).
Proof. apply Keeps_modify. intros s. apply kw_agg. Qed.

Lemma Keeps_newTable_any t : Keeps R (newTable t).
Proof. intros s b s' E. injection E as <- <-. apply kw_tableStore. Qed.

Lemma Keeps_newPrepare_any t : Keeps R (newPrepare t).
Proof. intros s b s' E. injection E as <- <-. apply kw_prepareStore. Qed.

Lemma Keeps_modifyTable_any p f : Keeps R (modifyTable p f).
Proof.
  unfold modifyTable. apply Keeps_bind; [apply Keeps_derefTable | intros t].
  apply Keeps_modify. intros s. apply kw_tableStore.
Qed.

Lemma Keeps_modifyPrepare_any p f : Keeps R (modifyPrepare p f).
Proof.
  unfold modifyPrepare. apply Keeps_bind; [apply Keeps_derefPrepare | intros t].
  apply Keeps_modify. intros s. apply kw_prepareStore.
Qed.

Lemma Keeps_PopOneTodoSQL_any : Keeps R PopOneTodoSQL.
Proof.
  intros s a s' E. unfold PopOneTodoSQL in E.
  destruct (todoSQLs s); injection E as <- <-; [apply fr_refl | apply kw_todoSQLs].
Qed.

Hint Resolve Keeps_Store_any Keeps_StoreInParent_any Keeps_StoreInRoot_any
  Keeps_InjectTodoSQL_any Keeps_AppendTable_any Keeps_AppendPrepare_any
  Keeps_RemovePrepare_any Keeps_SetInitialized_any
  Keeps_set_enabledClustered_any Keeps_setAgg_any Keeps_newTable_any
  Keeps_newPrepare_any Keeps_modifyTable_any Keeps_modifyPrepare_any
  Keeps_PopOneTodoSQL_any : keeps.

Lemma Keeps_AllocGlobalID_any k : Keeps R (AllocGlobalID k).
Proof. unfold AllocGlobalID. keeps. Qed.

Hint Resolve Keeps_AllocGlobalID_any : keeps.

Lemma Keeps_allocIDs_any k n : Keeps R (allocIDs k n).
Proof. induction n; simpl; keeps. Qed.

Lemma Keeps_GetRandTable_any : Keeps R GetRandTable.
Proof. unfold GetRandTable. keeps. Qed.

Lemma Keeps_GetRandPrepare_any : Keeps R GetRandPrepare.
Proof. unfold GetRandPrepare. keeps. Qed.

Lemma Keeps_GetRandomIndex_any t : Keeps R (GetRandomIndex t).
Proof. unfold GetRandomIndex. keeps. Qed.

Lemma Keeps_AppendRow_any p vals : Keeps R (AppendRow p vals).
Proof. unfold AppendRow. keeps. Qed.

Lemma Keeps_injectAll_any sqls : Keeps R (injectAll sqls).
Proof. induction sqls; simpl; keeps. Qed.

Lemma Keeps_Search_any k : Keeps R (Search k).
Proof. apply Keeps_gets. Qed.

Lemma Keeps_Initialized_any : Keeps R Initialized.
Proof. apply Keeps_gets. Qed.

Lemma Keeps_MeetInitializedDemand_any : Keeps R MeetInitializedDemand.
Proof. apply Keeps_gets. Qed.

Lemma Keeps_GetFirstNonFullTable_any : Keeps R GetFirstNonFullTable.
Proof. apply Keeps_gets. Qed.

Hint Resolve Keeps_allocIDs_any Keeps_GetRandTable_any Keeps_GetRandPrepare_any
  Keeps_GetRandomIndex_any Keeps_AppendRow_any Keeps_injectAll_any Keeps_Search_any
  Keeps_Initialized_any Keeps_MeetInitializedDemand_any Keeps_GetFirstNonFullTable_any
  : keeps.

Lemma Keeps_weights_any : Keeps R weights.
Proof. apply Keeps_gets. Qed.

Hint Resolve Keeps_weights_any : keeps.

Lemma Keeps_Clone_any p : Keeps R (Clone p).
Proof. unfold Clone. keeps. Qed.

Hint Resolve Keeps_Clone_any : keeps.

Lemma Keeps_getTable_any : Keeps R getTable.
Proof. unfold getTable. keeps. Qed.

Hint Resolve Keeps_getTable_any : keeps.

Lemma KeepsFn_cmpSymbol_any : KeepsFn R cmpSymbol.
Proof. unfold cmpSymbol. keeps. Qed.

Hint Resolve KeepsFn_cmpSymbol_any : keeps.

Lemma KeepsFn_maybeLimit_any : KeepsFn R maybeLimit.
Proof. unfold maybeLimit. keeps. Qed.

Hint Resolve KeepsFn_maybeLimit_any : keeps.

Lemma KeepsFn_randVal_any tbl c : KeepsFn R (randVal tbl c).
Proof. unfold randVal. keeps. Qed.

Hint Resolve KeepsFn_randVal_any : keeps.

Lemma KeepsFn_randColVals_any tbl c : KeepsFn R (randColVals tbl c).
Proof. unfold randColVals. keeps. Qed.

Hint Resolve KeepsFn_randColVals_any : keeps.

Lemma KeepsFn_predicate_any : KeepsFn R predicate.
Proof. unfold predicate. keeps. Qed.

Hint Resolve KeepsFn_predicate_any : keeps.

Lemma KeepsFn_andPredicates_any : KeepsFn R andPredicates.
Proof. unfold andPredicates. keeps. Qed.

Hint Resolve KeepsFn_andPredicates_any : keeps.

Lemma Keeps_pointGetRows_any n tbl cols : Keeps R (pointGetRows n tbl cols).
Proof. induction n; simpl; keeps. Qed.

Hint Resolve Keeps_pointGetRows_any : keeps.

Lemma KeepsFn_predicatesPointGet_any tbl idx : KeepsFn R (predicatesPointGet tbl idx).
Proof. unfold predicatesPointGet. keeps. Qed.

Hint Resolve KeepsFn_predicatesPointGet_any : keeps.

Lemma KeepsFn_predicates_any : KeepsFn R predicates.
Proof. unfold predicates. keeps. Qed.

Hint Resolve KeepsFn_predicates_any : keeps.

Lemma Keeps_joinColumns_any b t1 t2 : Keeps R (joinColumns b t1 t2).
Proof. unfold joinColumns. keeps. Qed.

Hint Resolve Keeps_joinColumns_any : keeps.

Lemma KeepsFn_joinPredicate_any b t1 t2 : KeepsFn R (joinPredicate b t1 t2).
Proof. unfold joinPredicate. keeps. Qed.

Hint Resolve KeepsFn_joinPredicate_any : keeps.

Lemma KeepsFn_joinPredicates_any b t1 t2 : KeepsFn R (joinPredicates b t1 t2).
Proof. unfold joinPredicates. keeps. Qed.

Hint Resolve KeepsFn_joinPredicates_any : keeps.

Lemma KeepsFn_joinHint_any b n1 n2 : KeepsFn R (joinHint b n1 n2).
Proof. unfold joinHint. keeps. Qed.

Hint Resolve KeepsFn_joinHint_any : keeps.

Lemma Keeps_retryCol2_any n b tbl2 c1 c2 :
  Keeps R (retryCol2 n b tbl2 c1 c2).
Proof. revert c2. induction n; intros c2; simpl; keeps. Qed.

Hint Resolve Keeps_retryCol2_any : keeps.

Lemma KeepsFn_semiJoinStmt_any b t1 t2 cols : KeepsFn R (semiJoinStmt b t1 t2 cols).
Proof. unfold semiJoinStmt. keeps. Qed.

Hint Resolve KeepsFn_semiJoinStmt_any : keeps.

Lemma KeepsFn_multiTableQuery_any : KeepsFn R multiTableQuery.
Proof. unfold multiTableQuery. keeps. Qed.

Hint Resolve KeepsFn_multiTableQuery_any : keeps.

Lemma KeepsFn_commonSelect_any tbl cols : KeepsFn R (commonSelect tbl cols).
Proof. unfold commonSelect. keeps. Qed.

Hint Resolve KeepsFn_commonSelect_any : keeps.

Lemma KeepsFn_forUpdateOpt_any : KeepsFn R forUpdateOpt.
Proof. unfold forUpdateOpt. keeps. Qed.

Hint Resolve KeepsFn_forUpdateOpt_any : keeps.

Lemma KeepsFn_union_any : KeepsFn R union.
Proof. unfold union. keeps. Qed.

Hint Resolve KeepsFn_union_any : keeps.

Lemma Keeps_randColumns_any n tbl : Keeps R (randColumns n tbl).
Proof. induction n; simpl; keeps. Qed.

Hint Resolve Keeps_randColumns_any : keeps.

Lemma KeepsFn_aggSelect_any tbl w : KeepsFn R (aggSelect tbl w).
Proof. unfold aggSelect. keeps. Qed.

Hint Resolve KeepsFn_aggSelect_any : keeps.

Lemma KeepsFn_windowSelect_any tbl w : KeepsFn R (windowSelect tbl w).
Proof. unfold windowSelect. keeps. Qed.

Hint Resolve KeepsFn_windowSelect_any : keeps.

Lemma KeepsFn_query_any : KeepsFn R query.
Proof. unfold query. keeps. Qed.

Hint Resolve KeepsFn_query_any : keeps.

Lemma KeepsFn_onDuplicateUpdate_any tbl w : KeepsFn R (onDuplicateUpdate tbl w).
Proof. unfold onDuplicateUpdate. keeps. Qed.

Hint Resolve KeepsFn_onDuplicateUpdate_any : keeps.

Lemma KeepsFn_rowVal_any tbl cols : KeepsFn R (rowVal tbl cols).
Proof. unfold rowVal. keeps. Qed.

Hint Resolve KeepsFn_rowVal_any : keeps.

Lemma KeepsFn_multipleRowVals_any tbl cols : KeepsFn R (multipleRowVals tbl cols).
Proof. unfold multipleRowVals. keeps. Qed.

Hint Resolve KeepsFn_multipleRowVals_any : keeps.

Lemma KeepsFn_insertSetStmt_any tbl : KeepsFn R (insertSetStmt tbl).
Proof. unfold insertSetStmt. keeps. Qed.

Hint Resolve KeepsFn_insertSetStmt_any : keeps.

Lemma KeepsFn_commonInsert_any : KeepsFn R commonInsert.
Proof. unfold commonInsert. keeps. Qed.

Hint Resolve KeepsFn_commonInsert_any : keeps.

Lemma KeepsFn_updateAssignment_any tbl : KeepsFn R (updateAssignment tbl).
Proof. unfold updateAssignment. keeps. Qed.

Hint Resolve KeepsFn_updateAssignment_any : keeps.

Lemma KeepsFn_updateAssignments_any tbl : KeepsFn R (updateAssignments tbl).
Proof. unfold updateAssignments. keeps. Qed.

Hint Resolve KeepsFn_updateAssignments_any : keeps.

Lemma KeepsFn_commonUpdateWith_any l :
  KeepsFn R l -> KeepsFn R (commonUpdateWith l).
Proof. intros Hl. unfold commonUpdateWith. keeps. Qed.

Lemma KeepsFn_commonUpdate_any : KeepsFn R commonUpdate.
Proof. apply KeepsFn_commonUpdateWith_any, KeepsFn_maybeLimit_any. Qed.

Hint Resolve KeepsFn_commonUpdate_any : keeps.

Lemma KeepsFn_commonAnalyze_any : KeepsFn R commonAnalyze.
Proof. unfold commonAnalyze. keeps. Qed.

Hint Resolve KeepsFn_commonAnalyze_any : keeps.

Lemma KeepsFn_randRowVal_any col : KeepsFn R (randRowVal col).
Proof. unfold randRowVal. keeps. Qed.

Hint Resolve KeepsFn_randRowVal_any : keeps.

Lemma KeepsFn_multipleRowVal_any col : KeepsFn R (multipleRowVal col).
Proof. unfold multipleRowVal. keeps. Qed.

Hint Resolve KeepsFn_multipleRowVal_any : keeps.

Lemma KeepsFn_commonDeleteWith_any l :
  KeepsFn R l -> KeepsFn R (commonDeleteWith l).
Proof. intros Hl. unfold commonDeleteWith. keeps. Qed.

Lemma KeepsFn_commonDelete_any : KeepsFn R commonDelete.
Proof. apply KeepsFn_commonDeleteWith_any, KeepsFn_maybeLimit_any. Qed.

Hint Resolve KeepsFn_commonDelete_any : keeps.

Lemma KeepsFn_prepareStmt_any : KeepsFn R prepareStmt.
Proof. unfold prepareStmt. keeps. Qed.

Hint Resolve KeepsFn_prepareStmt_any : keeps.

Lemma KeepsFn_deallocPrepareStmt_any : KeepsFn R deallocPrepareStmt.
Proof. unfold deallocPrepareStmt. keeps. Qed.

Hint Resolve KeepsFn_deallocPrepareStmt_any : keeps.

Lemma KeepsFn_queryPrepare_any : KeepsFn R queryPrepare.
Proof. unfold queryPrepare. keeps. Qed.

Hint Resolve KeepsFn_queryPrepare_any : keeps.

Lemma KeepsFn_dmlStmt_any : KeepsFn R dmlStmt.
Proof. unfold dmlStmt. keeps. Qed.

Hint Resolve KeepsFn_dmlStmt_any : keeps.

Lemma KeepsFn_addIndex_any : KeepsFn R addIndex.
Proof. unfold addIndex. keeps. Qed.

Hint Resolve KeepsFn_addIndex_any : keeps.

Lemma KeepsFn_dropIndex_any : KeepsFn R dropIndex.
Proof. unfold dropIndex. keeps. Qed.

Hint Resolve KeepsFn_dropIndex_any : keeps.

Lemma KeepsFn_addColumn_any : KeepsFn R addColumn.
Proof. unfold addColumn. keeps. Qed.

Hint Resolve KeepsFn_addColumn_any : keeps.

Lemma KeepsFn_dropColumn_any : KeepsFn R dropColumn.
Proof. unfold dropColumn. keeps. Qed.

Hint Resolve KeepsFn_dropColumn_any : keeps.

Lemma KeepsFn_alterColumn_any : KeepsFn R alterColumn.
Proof. unfold alterColumn. keeps. Qed.

Hint Resolve KeepsFn_alterColumn_any : keeps.

Lemma KeepsFn_ddlStmt_any : KeepsFn R ddlStmt.
Proof. unfold ddlStmt. keeps. Qed.

Hint Resolve KeepsFn_ddlStmt_any : keeps.

Lemma KeepsFn_switchRowFormatVer_any : KeepsFn R switchRowFormatVer.
Proof. unfold switchRowFormatVer. keeps. Qed.

Hint Resolve KeepsFn_switchRowFormatVer_any : keeps.

Lemma KeepsFn_switchClustered_any : KeepsFn R switchClustered.
Proof. unfold switchClustered. keeps. Qed.

Hint Resolve KeepsFn_switchClustered_any : keeps.

Lemma KeepsFn_dropTable_any : KeepsFn R dropTable.
Proof. unfold dropTable. keeps. Qed.

Hint Resolve KeepsFn_dropTable_any : keeps.

Lemma KeepsFn_flashBackTable_any : KeepsFn R flashBackTable.
Proof. unfold flashBackTable. keeps. Qed.

Hint Resolve KeepsFn_flashBackTable_any : keeps.

Lemma KeepsFn_adminCheck_any : KeepsFn R adminCheck.
Proof. unfold adminCheck. keeps. Qed.

Hint Resolve KeepsFn_adminCheck_any : keeps.

Lemma KeepsFn_colDef_any tbl w : KeepsFn R (colDef tbl w).
Proof. unfold colDef. keeps. Qed.

Hint Resolve KeepsFn_colDef_any : keeps.

Lemma KeepsFn_colDefs_any tbl w : KeepsFn R (colDefs tbl w).
Proof. unfold colDefs. keeps. Qed.

Hint Resolve KeepsFn_colDefs_any : keeps.

Lemma KeepsFn_idxDef_any tbl w : KeepsFn R (idxDef tbl w).
Proof. unfold idxDef. keeps. Qed.

Hint Resolve KeepsFn_idxDef_any : keeps.

Lemma KeepsFn_idxDefs_any tbl w : KeepsFn R (idxDefs tbl w).
Proof. unfold idxDefs. keeps. Qed.

Hint Resolve KeepsFn_idxDefs_any : keeps.

Lemma KeepsFn_partitionDef_any tbl w : KeepsFn R (partitionDef tbl w).
Proof. unfold partitionDef. keeps. Qed.

Hint Resolve KeepsFn_partitionDef_any : keeps.

Hint Extern 1 (KeepsFn _ (createTableStmt _ _ _ _ _)) =>
  apply KeepsFn_createTableStmt : keeps.

Lemma KeepsFn_insertInto_any : KeepsFn R insertInto.
Proof. unfold insertInto. keeps. Qed.

Hint Resolve KeepsFn_insertInto_any : keeps.

Lemma KeepsFn_selectIntoOutFile_any : KeepsFn R selectIntoOutFile.
Proof. unfold selectIntoOutFile. keeps. Qed.

Hint Resolve KeepsFn_selectIntoOutFile_any : keeps.

Lemma KeepsFn_loadTable_any : KeepsFn R loadTable.
Proof. unfold loadTable. keeps. Qed.

Hint Resolve KeepsFn_loadTable_any : keeps.

Lemma Keeps_firstTwo_any rows : Keeps R (firstTwo rows).
Proof. unfold firstTwo. keeps. Qed.

Hint Resolve Keeps_firstTwo_any : keeps.

Lemma KeepsFn_splitTableRegionBetween_any tbl pre : KeepsFn R (splitTableRegionBetween tbl pre).
Proof. unfold splitTableRegionBetween. keeps. Qed.

Hint Resolve KeepsFn_splitTableRegionBetween_any : keeps.

Lemma KeepsFn_splitIndexRegionBetween_any tbl idx pre ipre : KeepsFn R (splitIndexRegionBetween tbl idx pre ipre).
Proof. unfold splitIndexRegionBetween. keeps. Qed.

Hint Resolve KeepsFn_splitIndexRegionBetween_any : keeps.

Lemma KeepsFn_splitTableRegionBy_any tbl pre : KeepsFn R (splitTableRegionBy tbl pre).
Proof. unfold splitTableRegionBy. keeps. Qed.

Hint Resolve KeepsFn_splitTableRegionBy_any : keeps.

Lemma KeepsFn_splitIndexRegionBy_any tbl idx pre ipre : KeepsFn R (splitIndexRegionBy tbl idx pre ipre).
Proof. unfold splitIndexRegionBy. keeps. Qed.

Hint Resolve KeepsFn_splitIndexRegionBy_any : keeps.

Lemma KeepsFn_splitRegion_any : KeepsFn R splitRegion.
Proof. unfold splitRegion. keeps. Qed.

Hint Resolve KeepsFn_splitRegion_any : keeps.

Lemma KeepsFn_createTable_any : KeepsFn R createTable.
Proof. unfold createTable. keeps. Qed.

Hint Resolve KeepsFn_createTable_any : keeps.

Lemma KeepsFn_createTableLike_any : KeepsFn R createTableLike.
Proof. unfold createTableLike. keeps. Qed.

Hint Resolve KeepsFn_createTableLike_any : keeps.

Lemma KeepsFn_initStart_any : KeepsFn R initStart.
Proof. unfold initStart. keeps. Qed.

Hint Resolve KeepsFn_initStart_any : keeps.

Lemma KeepsFn_start_any : KeepsFn R start.
Proof. unfold start. keeps. Qed.

Lemma Keeps_Generate_any : Keeps R Generate.
Proof. apply Keeps_Eval. apply KeepsFn_start_any. Qed.

Lemma Keeps_runGenerator_any n : Keeps R (runGenerator n).
Proof.
  induction n as [|n IH]; simpl.
  - apply Keeps_ret.
  - apply Keeps_bind; [apply Keeps_Generate_any | intros sql].
    apply Keeps_bind; [exact IH | intros rest]. apply Keeps_ret.
Qed.

End EveryProduction.

#[export] Instance KeepRel_sameSetup : KeepRel sameSetup.
Proof.
  split.
  - intros s. split; auto.
  - intros s1 s2 s3 [a b] [c d]. split; [congruence | auto].
  - intros s s1 [a b]. split; assumption.
  - intros s r. split; auto.
Qed.

#[export] Instance KeepsWrites_sameSetup : KeepsWrites sameSetup.
Proof. split; intros; split; auto. Qed.

(** X7: The generator never changes its control options, the two aggregation
    options apart (they are set by [aggSelect]): after any number of calls
    the limits, the switches and the weights are the ones it started with. *)
Theorem runGenerator_keeps_options `{Helpers} (n : nat) (s : State)
    (outs : list string) (s' : State) :
  runGenerator n s = Ok outs s' ->
  InitTableCount (ctrl s') = InitTableCount (ctrl s) /\
  InitColCount (ctrl s') = InitColCount (ctrl s) /\
  MaxTableNum (ctrl s') = MaxTableNum (ctrl s) /\
  StrictTransTable (ctrl s') = StrictTransTable (ctrl s) /\
  CanReadGCSavePoint (ctrl s') = CanReadGCSavePoint (ctrl s) /\
  EnableSelectOutFileAndLoadData (ctrl s') =
    EnableSelectOutFileAndLoadData (ctrl s) /\
  EnableTestTiFlash (ctrl s') = EnableTestTiFlash (ctrl s) /\
  EnableColumnTypeChange (ctrl s') = EnableColumnTypeChange (ctrl s) /\
  CtrlWeight (ctrl s') = CtrlWeight (ctrl s).
Proof.
  intros E. destruct (Keeps_runGenerator_any (R := sameSetup) n _ E) as [Hc _].
  repeat split.
  - exact (f_equal InitTableCount Hc).
  - exact (f_equal InitColCount Hc).
  - exact (f_equal MaxTableNum Hc).
  - exact (f_equal StrictTransTable Hc).
  - exact (f_equal CanReadGCSavePoint Hc).
  - exact (f_equal EnableSelectOutFileAndLoadData Hc).
  - exact (f_equal EnableTestTiFlash Hc).
  - exact (f_equal EnableColumnTypeChange Hc).
  - exact (f_equal CtrlWeight Hc).
Qed.

(** X8: Initialization happens once: no call of the producer, and no production
    it can select, lowers the initialized flag again. *)
Theorem runGenerator_stays_initialized `{Helpers} (n : nat) (s : State)
    (outs : list string) (s' : State) :
  initialized s = true ->
  runGenerator n s = Ok outs s' ->
  initialized s' = true.
Proof.
  intros Hi E. destruct (Keeps_runGenerator_any (R := sameSetup) n _ E) as [_ Hk].
  exact (Hk Hi).
Qed.

(* ------------------------------------------------------------------ *)
(** ** The catalog and the deferred queue over many calls *)

(** X9: The catalog is append-only: no call of the producer removes or reorders
    a table (the statements [drop table] and [truncate table] that
    [flashBackTable] emits leave the catalog alone), and [n] calls append at
    most [n] tables. *)
Theorem runGenerator_appends `{Helpers} (n : nat) (s : State)
    (outs : list string) (s' : State) :
  runGenerator n s = Ok outs s' ->
  exists added,
    tables s' = (tables s ++ added)%list /\ (length added <= n)%nat.
Proof.
  revert s outs s'. induction n as [|n IH]; intros s outs s' E; simpl in E.
  - injection E as <- <-. exists []. rewrite app_nil_r. auto.
  - run_inv E as sql s1 Hgen. run_inv E as rest s2 Hrest.
    injection E as <- <-.
    apply Generate_step in Hgen.
    destruct (IH _ _ _ Hrest) as (added & Ht & Hl).
    destruct Hgen as [(a & _) | [((p & a) & _) _]].
    + exists added. rewrite Ht, a. split; [reflexivity | lia].
    + exists (p :: added). rewrite Ht, a, <- app_assoc. split; [reflexivity|].
      simpl. lia.
Qed.

Lemma set_todoSQLs_twice q1 q2 s :
  set_todoSQLs q2 (set_todoSQLs q1 s) = set_todoSQLs q2 s.
Proof. reflexivity. Qed.

(** X10: The deferred queue is drained first in, first out, one statement per
    call: as many calls as the queue has statements emit exactly the queue,
    in order, and change nothing else in the state. *)
Theorem runGenerator_drains_queue `{Helpers} (q rest : list string)
    (s : State) :
  runGenerator (length q) (set_todoSQLs (q ++ rest) s) =
    Ok q (set_todoSQLs rest s).
Proof.
  revert s. induction q as [|x q IH]; intros s.
  - reflexivity.
  - cbn [length runGenerator app].
    erewrite bind_eq by (apply Generate_drains; reflexivity).
    rewrite set_todoSQLs_twice.
    erewrite bind_eq by apply IH. reflexivity.
Qed.

(* ------------------------------------------------------------------ *)
(** ** What createTable records *)

#[export] Instance KeepRel_tableGrows tbl : KeepRel (tableGrows tbl).
Proof.
  split.
  - intros s. split; [reflexivity|]. intros t Ht. exists t. auto.
  - intros s1 s2 s3 [a b] [c d]. split; [congruence|].
    intros t Ht. destruct (b t Ht) as (t2 & Ht2 & Hn2 & Hi2).
    destruct (d t2 Ht2) as (t3 & Ht3 & Hn3 & Hi3).
    exists t3. repeat split; [assumption | congruence | lia].
  - intros s s1 [a b]. split; assumption.
  - intros s r. split; [reflexivity|]. intros t Ht. exists t. auto.
Qed.

Lemma tableGrows_scopes tbl (f : State -> State) :
  (forall s, todoSQLs (f s) = todoSQLs s) ->
  (forall s, tableStore (f s) = tableStore s) ->
  Keeps (tableGrows tbl) (modify f).
Proof.
  intros Hq Hs. apply Keeps_modify. intros s. split; [apply Hq|].
  intros t Ht. exists t. rewrite Hs. auto.
Qed.

Lemma Keeps_tableGrows_StoreInRoot tbl k o :
  Keeps (tableGrows tbl) (StoreInRoot k o).
Proof. apply tableGrows_scopes; reflexivity. Qed.

Lemma Keeps_tableGrows_StoreInParent tbl k o :
  Keeps (tableGrows tbl) (StoreInParent k o).
Proof.
  apply tableGrows_scopes; intros s;
    destruct (scopeStack s) as [|f [|g rest]]; reflexivity.
Qed.

Lemma Keeps_tableGrows_Search tbl k : Keeps (tableGrows tbl) (Search k).
Proof. apply Keeps_gets. Qed.

Lemma Keeps_tableGrows_modifyTable tbl p f :
  (forall t, TblName (f t) = TblName t /\
             (length (Indices t) <= length (Indices (f t)))%nat) ->
  Keeps (tableGrows tbl) (modifyTable p f).
Proof.
  intros Hf s u s' E. unfold modifyTable in E.
  run_inv E as t0 s1 Hd. apply derefTable_ok in Hd. destruct Hd as [Ht0 ->].
  apply modify_ok in E. subst s'. split; [reflexivity|].
  intros t Ht. cbn [tableStore set_tableStore].
  destruct (Nat.eq_dec p tbl) as [->|Hne].
  - rewrite Ht in Ht0. injection Ht0 as <-.
    exists (f t). split; [eapply nth_error_replaceNth; eauto | apply Hf].
  - exists t. rewrite (nth_error_replaceNth_other _ _ Hne). auto.
Qed.

#[export] Hint Resolve Keeps_tableGrows_StoreInRoot
  Keeps_tableGrows_StoreInParent Keeps_tableGrows_Search : keeps.

Lemma Keeps_tableGrows_AllocGlobalID tbl k :
  Keeps (tableGrows tbl) (AllocGlobalID k).
Proof. unfold AllocGlobalID. keeps. Qed.

#[export] Hint Resolve Keeps_tableGrows_AllocGlobalID : keeps.

Section CreateTableRecords.
Context `{Helpers}.

Lemma KeepsFn_tableGrows_colDefs tbl p w :
  KeepsFn (tableGrows tbl) (colDefs p w).
Proof.
  assert (Hc : KeepsFn (tableGrows tbl) (colDef p w)).
  { unfold colDef. keeps. apply Keeps_tableGrows_modifyTable.
    intros t. split; [reflexivity | apply Nat.le_refl]. }
  unfold colDefs, Initialized. keeps.
Qed.

Lemma KeepsFn_tableGrows_partitionDef tbl p w :
  KeepsFn (tableGrows tbl) (partitionDef p w).
Proof.
  unfold partitionDef. keeps. apply Keeps_tableGrows_modifyTable.
  intros t. split; [reflexivity | apply Nat.le_refl].
Qed.

Lemma AppendIndex_grows inject idx t :
  TblName (AppendIndex inject idx t) = TblName t /\
  length (Indices (AppendIndex inject idx t)) = S (length (Indices t)).
Proof.
  unfold AppendIndex. cbn [setIndices TblName Indices].
  rewrite length_app. simpl. split; [reflexivity | lia].
Qed.

Lemma KeepsFn_tableGrows_idxDef tbl p w :
  KeepsFn (tableGrows tbl) (idxDef p w).
Proof.
  unfold idxDef. keeps; apply Keeps_tableGrows_modifyTable; intros t;
    match goal with
    | |- context [AppendIndex ?b ?i t] =>
        destruct (AppendIndex_grows b i t) as [Hn Hl]
    end; (split; [exact Hn | lia]).
Qed.

Lemma KeepsFn_tableGrows_idxDefs tbl p w :
  KeepsFn (tableGrows tbl) (idxDefs p w).
Proof.
  pose proof (KeepsFn_tableGrows_idxDef tbl p w). unfold idxDefs. keeps.
Qed.

(** One evaluation of [idxDef] adds an index to the table. *)
Lemma idxDef_adds_index tbl w s t out s' :
  nth_error (tableStore s) tbl = Some t ->
  Eval (idxDef tbl w) s = Ok out s' ->
  exists t', nth_error (tableStore s') tbl = Some t' /\
             (length (Indices t) < length (Indices t'))%nat.
Proof.
  intros Ht E. apply Eval_ok in E. destruct E as (sz & E & ->).
  unfold idxDef, NewFn in E. cbn [Gen] in E.
  run_inv E as g s6 Hb.
  run_inv Hb as id s1 H1.
  pose proof (Keeps_tableGrows_AllocGlobalID tbl H1) as [_ K1].
  destruct (K1 t Ht) as (t1 & Ht1 & _ & Hl1).
  run_inv Hb as t0 s2 H2. apply derefTable_ok in H2. destruct H2 as [Ht0 ->].
  rewrite Ht1 in Ht0. injection Ht0 as <-.
  run_inv Hb as idx0 s3 H3. apply liftRand_ok in H3. destruct H3 as [-> ->].
  run_inv Hb as idx s4 H4. apply idxDef_index_ok in H4. destruct H4 as [-> _].
  run_inv Hb as u s5 H5. cbv zeta in Hb. injection Hb as <- <-.
  unfold modifyTable in H5. run_inv H5 as t' s7 H7.
  apply derefTable_ok in H7. destruct H7 as [Ht' ->]. apply modify_ok in H5.
  cbn [tableStore set_rand] in Ht'. rewrite Ht1 in Ht'. injection Ht' as <-.
  assert (H5' : nth_error (tableStore s5) tbl =
                Some (AppendIndex AppendIndexInjects idx t1)).
  { subst s5. cbn [tableStore set_tableStore]. eapply nth_error_replaceNth.
    exact Ht1. }
  assert (Hk : tableGrows tbl s5 sz).
  { revert E. apply Keeps_Eval. keeps. }
  destruct Hk as [_ Hk]. destruct (Hk _ H5') as (tz & Htz & _ & Hlz).
  exists tz. split; [exact Htz|].
  destruct (AppendIndex_grows AppendIndexInjects idx t1) as [_ Hl]. lia.
Qed.

(** [idxDefs] evaluates [idxDef] at least once. *)
Lemma idxDefs_adds_index tbl w s t out s' :
  nth_error (tableStore s) tbl = Some t ->
  Eval (idxDefs tbl w) s = Ok out s' ->
  exists t', nth_error (tableStore s') tbl = Some t' /\
             (length (Indices t) < length (Indices t'))%nat.
Proof.
  intros Ht E. apply Eval_ok in E. destruct E as (s1 & E & ->).
  unfold idxDefs, NewFn in E. cbn [Gen] in E.
  run_inv E as g s2 Hb. injection Hb as <- <-.
  apply Eval_ok in E. destruct E as (s3 & E & ->).
  unfold RepeatRange in E. cbn [Gen] in E.
  run_inv E as r s4 Hr. apply Intn_ok in Hr. destruct Hr as [Hr ->].
  unfold Repeat in E. cbn [Gen] in E.
  run_inv E as rs s5 Hrep. injection E as <- <-.
  destruct (Z.to_nat (1 + r)) as [|n] eqn:Hn; [lia|].
  cbn [repeatEval] in Hrep. run_inv Hrep as r0 s6 H0.
  eapply idxDef_adds_index in H0; [|exact Ht].
  destruct H0 as (t1 & Ht1 & Hl1).
  assert (Hk : tableGrows tbl s6 s5).
  { destruct n as [|m].
    - injection Hrep as <- <-. apply fr_refl.
    - run_inv Hrep as x s7 H7. run_inv Hrep as rest s8 H8.
      injection Hrep as <- <-.
      eapply fr_trans.
      + eapply (Keeps_Eval (R := tableGrows tbl)); [apply KeepsFn_Str | exact H7].
      + eapply (Keeps_repeatEval (R := tableGrows tbl));
          [apply KeepsFn_tableGrows_idxDef | apply KeepsFn_Str | exact H8]. }
  destruct Hk as [_ Hk]. destruct (Hk _ Ht1) as (t3 & Ht3 & _ & Hl3).
  exists t3. split; [exact Ht3 | lia].
Qed.

(** What a run of [createTable] leaves behind. *)
Lemma createTable_records s out s' :
  Eval createTable s = Ok out s' ->
  exists tbl t,
    tables s' = (tables s ++ [tbl])%list /\
    nth_error (tableStore s') tbl = Some t /\
    Indices t <> [] /\
    todoSQLs s' = (todoSQLs s ++ tiflashStatements (ctrl s) (TblName t))%list.
Proof.
  intros E. apply Eval_ok in E. destruct E as (sz & E & ->).
  unfold createTable, NewFn in E. cbn [Gen] in E.
  run_inv E as g s9 Hb.
  run_inv Hb as w s1 H1. unfold weights in H1. gets_inv H1.
  run_inv Hb as id s1 H1. unfold AllocGlobalID in H1.
  run_inv H1 as o sa Ha. gets_inv Ha. run_inv H1 as u sb Hsb.
  apply modify_ok in Hsb. injection H1 as <- <-. subst sb.
  run_inv Hb as tbl s2 H2. unfold newTable in H2. injection H2 as <- <-.
  run_inv Hb as u1 s3 H3. apply modify_ok in H3.
  run_inv Hb as c s4 H4. gets_inv H4.
  run_inv Hb as u2 s4 H4.
  set (p := length (tableStore s)) in *.
  assert (Hnew : exists t0,
            nth_error (tableStore s3) p = Some t0 /\ Indices t0 = [] /\
            todoSQLs s3 = todoSQLs s /\ tables s3 = (tables s ++ [p])%list /\
            ctrl s3 = ctrl s /\
            (if EnableTestTiFlash (ctrl s3) then
               InjectTodoSQL ("alter table " ++ TblName t0 ++
                              " set tiflash replica 1") ;;;
               InjectTodoSQL "select sleep(20)"
             else ret tt) s3 = Ok u2 s4).
  { eexists. split; [|split; [|split; [|split; [|split; [|exact H4]]]]].
    - rewrite H3.
      cbn [tableStore set_tables set_tableStore set_scopeRoot pushScope
           set_scopeStack].
      rewrite nth_error_app2 by (unfold p; lia). unfold p.
      rewrite Nat.sub_diag. reflexivity.
    - reflexivity.
    - rewrite H3. reflexivity.
    - rewrite H3. reflexivity.
    - rewrite H3. reflexivity. }
  clear H4. destruct Hnew as (t0 & Ht0 & Hi0 & Hq3 & Htb3 & Hc3 & H4).
  assert (Hq : tableStore s4 = tableStore s3 /\ tables s4 = tables s3 /\
               todoSQLs s4 =
                 (todoSQLs s3 ++ tiflashStatements (ctrl s) (TblName t0))%list).
  { unfold tiflashStatements. rewrite <- Hc3.
    destruct (EnableTestTiFlash (ctrl s3)).
    - run_inv H4 as u3 s5 H5. apply modify_ok in H5. apply modify_ok in H4.
      subst s4 s5. cbn [tableStore tables todoSQLs set_todoSQLs].
      rewrite <- app_assoc. repeat split.
    - injection H4 as <- <-. rewrite app_nil_r. repeat split. }
  destruct Hq as (Hq1 & Hq2 & Hq4).
  run_inv Hb as eColDefs s5 H5.
  run_inv Hb as ePartitionDef s6 H6.
  run_inv Hb as eIdxDefs s7 H7.
  run_inv Hb as t s8 H8. apply derefTable_ok in H8. destruct H8 as [_ ->].
  run_inv Hb as r s8 H8. apply Intn_ok in H8. destruct H8 as [_ ->].
  injection Hb as <- <-.
  rewrite <- Hq1 in Ht0.
  pose proof (Keeps_Eval (KeepsFn_tableGrows_colDefs p p _) _ H5) as [Qa Ga].
  destruct (Ga _ Ht0) as (t5 & Ht5 & Hn5 & _).
  pose proof (Keeps_Eval (KeepsFn_tableGrows_partitionDef p p _) _ H6) as [Qb Gb].
  destruct (Gb _ Ht5) as (t6 & Ht6 & Hn6 & _).
  pose proof (Keeps_Eval (KeepsFn_tableGrows_idxDefs p p _) _ H7) as [Qc Gc].
  destruct (Gc _ Ht6) as (t7 & Ht7 & Hn7 & _).
  pose proof H7 as H7'. eapply idxDefs_adds_index in H7'; [|exact Ht6].
  destruct H7' as (t7' & Ht7' & Hl7).
  rewrite Ht7 in Ht7'. injection Ht7' as <-.
  pose proof (Keeps_Eval (KeepsFn_createTableStmt (R := tableGrows p) _ _ _ _ _) _ E)
    as [Qd Gd].
  destruct (Gd _ Ht7) as (tz & Htz & Hnz & Hlz).
  exists p, tz. split; [|split; [exact Htz | split]].
  - pose proof (Keeps_Eval (KeepsFn_colDefs p _) _ H5) as (Ca & _).
    pose proof (Keeps_Eval (KeepsFn_partitionDef p _) _ H6) as (Cb & _).
    pose proof (Keeps_Eval (KeepsFn_idxDefs p _) _ H7) as (Cc & _).
    pose proof (Keeps_Eval (KeepsFn_createTableStmt (R := sameCatalog) _ _ _ _ _) _ E)
      as (Cd & _).
    cbn [tables popScope set_scopeStack]. rewrite Cd.
    cbn [tables set_rand]. rewrite Cc, Cb, Ca, Hq2, Htb3. reflexivity.
  - intros Hnil. rewrite Hnil in Hlz. simpl in Hlz. lia.
  - cbn [todoSQLs popScope set_scopeStack]. rewrite Qd.
    cbn [todoSQLs set_rand]. rewrite Qc, Qb, Qa, Hq4, Hq3.
    rewrite Hnz, Hn7, Hn6, Hn5. reflexivity.
Qed.

(** X11: The table [createTable] records has at least one index, whether or not
    the statement it returns carries the index definitions: they are
    evaluated, and the indices appended to the table, before the draw that
    decides whether their text is kept. *)
Theorem createTable_records_index (s : State) (out : string) (s' : State) :
  Eval createTable s = Ok out s' ->
  exists tbl t,
    tables s' = (tables s ++ [tbl])%list /\
    nth_error (tableStore s') tbl = Some t /\
    Indices t <> [].
Proof.
  intros E. apply createTable_records in E.
  destruct E as (tbl & t & a & b & c & _).
  exists tbl, t. auto.
Qed.

(** X12: With TiFlash under test, [createTable] defers two statements behind
    whatever the queue holds: the [alter table] that sets the replica of the
    new table, then [select sleep(20)]; without it the queue is left as it
    was. *)
Theorem createTable_defers_tiflash (s : State) (out : string) (s' : State) :
  Eval createTable s = Ok out s' ->
  exists tbl t,
    tables s' = (tables s ++ [tbl])%list /\
    nth_error (tableStore s') tbl = Some t /\
    todoSQLs s' =
      (todoSQLs s ++ tiflashStatements (ctrl s) (TblName t))%list.
Proof.
  intros E. apply createTable_records in E.
  destruct E as (tbl & t & a & b & _ & c).
  exists tbl, t. auto.
Qed.

End CreateTableRecords.

(* ------------------------------------------------------------------ *)
(** ** Edges of single productions *)

Lemma GetRandPrepare_ok s p s' :
  GetRandPrepare s = Ok p s' -> In p (prepareStmts s) /\ s' = afterDraw s.
Proof.
  unfold GetRandPrepare. intros E. run_inv E as ps s1 Hps. gets_inv Hps.
  run_inv E as i s2 Hi. apply Intn_ok in Hi. destruct Hi as [_ ->].
  apply indexList_ok in E. destruct E as [Hin ->]. auto.
Qed.

Lemma derefPrepare_ok p s t s' :
  derefPrepare p s = Ok t s' -> nth_error (prepareStore s) p = Some t /\ s' = s.
Proof.
  unfold derefPrepare. destruct (nth_error (prepareStore s) p);
    intros E; [injection E as <- <-; auto | discriminate].
Qed.

Lemma injectAll_eq sqls s :
  injectAll sqls s = Ok tt (set_todoSQLs (todoSQLs s ++ sqls) s).
Proof.
  revert s. induction sqls as [|q rest IH]; intros s; simpl.
  - rewrite app_nil_r. destruct s; reflexivity.
  - unfold bind, InjectTodoSQL, modify. rewrite IH.
    cbn [todoSQLs set_todoSQLs]. rewrite <- app_assoc. reflexivity.
Qed.

Section SingleProductions.
Context `{Helpers}.

(** X13: [commonDelete] cannot run when the two weights it draws from add up to
    nothing: [rand.Intn] panics on their sum, whatever the catalog holds. *)
Theorem commonDelete_panics_without_weights (s : State) :
  Query_DML_DEL_COMMON (CtrlWeight (ctrl s)) +
    Query_DML_DEL_INDEX (CtrlWeight (ctrl s)) <= 0 ->
  exists msg, Eval commonDelete s = Panic msg.
Proof.
  intros Hw.
  assert (Hg : exists msg, Gen commonDelete (pushScope s) = Panic msg).
  { unfold commonDelete, commonDeleteWith, NewFn; cbn [Gen].
    unfold bind at 1. unfold bind at 1. unfold weights at 1, gets at 1.
    unfold bind at 1.
    destruct (GetRandTable (pushScope s)) as [tbl s1|msg]; [|eauto].
    unfold bind at 1. unfold Intn.
    change (ctrl (pushScope s)) with (ctrl s).
    apply Z.leb_le in Hw. rewrite Hw. eauto. }
  destruct Hg as (msg & Hg). exists msg. apply Eval_panic. exact Hg.
Qed.

(** X14: [switchClustered] keeps the state in step with the statement: the flag
    [enabledClustered] is off exactly when the statement switches the
    clustered index off. *)
Theorem switchClustered_tracks (s : State) (out : string) (s' : State) :
  Eval switchClustered s = Ok out s' ->
  (out = "set @@global.tidb_enable_clustered_index = 0" /\
   enabledClustered s' = false) \/
  (out = "set @@global.tidb_enable_clustered_index = 1" /\
   enabledClustered s' = true).
Proof.
  intros E. apply Eval_ok in E. destruct E as (s1 & E & ->).
  unfold switchClustered, NewFn in E. cbn [Gen] in E.
  run_inv E as g s2 Hb. run_inv Hb as b s3 H3.
  destruct b.
  - run_inv Hb as u s4 H4. apply modify_ok in H4. injection Hb as <- <-.
    rewrite Eval_Str in E. injection E as <- <-. subst s4. left. auto.
  - run_inv Hb as u s4 H4. apply modify_ok in H4. injection Hb as <- <-.
    rewrite Eval_Str in E. injection E as <- <-. subst s4. right. auto.
Qed.

(** X15: [queryPrepare] on a prepared statement with parameters emits the first
    assignment and defers the others, in order, followed by the [execute]
    statement; on one without parameters it emits the [execute] statement and
    defers nothing. *)
Theorem queryPrepare_defers (s : State) (out : string) (s' : State) :
  Eval queryPrepare s = Ok out s' ->
  exists p prep,
    In p (prepareStmts s) /\ nth_error (prepareStore s) p = Some prep /\
    match fst (GenAssignments prep (rand (afterDraw s))) with
    | [] =>
        out = "execute " ++ PrepName prep /\ todoSQLs s' = todoSQLs s
    | first :: others =>
        out = first /\
        todoSQLs s' =
          (todoSQLs s ++ others ++
           [("execute " ++ PrepName prep ++ " using " ++
             String.concat "," (UserVars prep))%string])%list
    end.
Proof.
  intros E. apply Eval_ok in E. destruct E as (s1 & E & ->).
  unfold queryPrepare, NewFn in E. cbn [Gen] in E.
  run_inv E as g s2 Hb.
  run_inv Hb as ps s3 H3. gets_inv H3.
  run_inv Hb as u s4 H4. apply Assert_ok in H4. destruct H4 as [_ ->].
  run_inv Hb as p s5 H5. apply GetRandPrepare_ok in H5. destruct H5 as [Hin ->].
  run_inv Hb as prep s6 H6. apply derefPrepare_ok in H6. destruct H6 as [Hp ->].
  run_inv Hb as assignments s7 H7. apply liftRand_ok in H7.
  destruct H7 as [-> ->].
  exists p, prep. split; [exact Hin|]. split; [exact Hp|].
  change (rand (afterDraw (pushScope s))) with (rand (afterDraw s)) in *.
  destruct (fst (GenAssignments prep (rand (afterDraw s)))) as [|first others].
  - injection Hb as <- <-. rewrite Eval_Str in E. injection E as <- <-.
    split; reflexivity.
  - run_inv Hb as u1 s8 H8. rewrite injectAll_eq in H8. injection H8 as _ <-.
    cbv zeta in Hb. run_inv Hb as u2 s9 H9. apply modify_ok in H9.
    injection Hb as <- <-. rewrite Eval_Str in E. injection E as <- <-.
    subst s9. split; [reflexivity|].
    cbn [todoSQLs popScope set_scopeStack set_todoSQLs set_rand afterDraw
         pushScope].
    rewrite <- app_assoc. reflexivity.
Qed.

Lemma loadTable_without_child s p t :
  Search ScopeKeyLastOutFileTable (pushScope s) = Ok (ObjTable p) (pushScope s) ->
  nth_error (tableStore s) p = Some t ->
  childTables t = [] ->
  exists msg, Eval loadTable s = Panic msg.
Proof.
  intros Hs Ht Hchild.
  assert (Hg : exists msg, Gen loadTable (pushScope s) = Panic msg).
  { unfold loadTable, NewFn; cbn [Gen].
    unfold bind at 1. unfold bind at 1. rewrite Hs.
    unfold bind at 1. cbn [ToTable]. unfold ret at 1.
    unfold bind at 1. unfold Search at 1, gets at 1.
    unfold bind at 1.
    match goal with
    | |- context [ToInt ?o (pushScope s)] =>
        destruct (ToInt o (pushScope s)) as [id s2|msg] eqn:Hid;
          [destruct o; try discriminate Hid|eauto]
    end.
    injection Hid as _ <-.
    unfold bind at 1. unfold derefTable.
    change (tableStore (pushScope s)) with (tableStore s). rewrite Ht.
    unfold bind at 1. rewrite Hchild. eexists. reflexivity. }
  destruct Hg as (msg & Hg). exists msg. apply Eval_panic. exact Hg.
Qed.

(** X16: The panic of [loadTable] is within reach of the generator: after
    [selectIntoOutFile] has run on a catalog in which no table has been
    cloned, the guard [start] puts on [loadTable] holds (the table is
    recorded in the root frame and outlives the call) and [loadTable]
    panics. *)
Theorem selectIntoOutFile_then_loadTable (s : State) (out : string)
    (s1 : State) :
  stackLookup ScopeKeyLastOutFileTable (scopeStack s) = None ->
  (forall p t, In p (tables s) -> nth_error (tableStore s) p = Some t ->
               childTables t = []) ->
  Eval selectIntoOutFile s = Ok out s1 ->
  exists p,
    In p (tables s) /\
    Search ScopeKeyLastOutFileTable s1 = Ok (ObjTable p) s1 /\
    Enabled (If (negb (IsNil (ObjTable p))) loadTable) = true /\
    exists msg, Eval loadTable s1 = Panic msg.
Proof.
  intros Hstack Hchild E. apply Eval_ok in E. destruct E as (sz & E & ->).
  unfold selectIntoOutFile, NewFn in E. cbn [Gen] in E.
  run_inv E as g s2 Hb.
  run_inv Hb as tbl s3 H3. apply GetRandTable_ok in H3. destruct H3 as [Hin ->].
  run_inv Hb as u s4 H4. apply modify_ok in H4.
  run_inv Hb as t s5 H5. apply derefTable_ok in H5. destruct H5 as [Ht ->].
  run_inv Hb as id s6 H6. unfold AllocGlobalID in H6.
  run_inv H6 as o sa Ha. gets_inv Ha. run_inv H6 as u' sb Hsb.
  apply modify_ok in Hsb. injection H6 as <- <-.
  cbv zeta in Hb. injection Hb as <- <-.
  unfold Strs in E. rewrite Eval_Str in E. injection E as <- <-.
  subst sb s4.
  cbn [tableStore set_scopeRoot afterDraw set_rand pushScope set_scopeStack]
    in Ht.
  change (tables (pushScope s)) with (tables s) in Hin.
  exists tbl. split; [exact Hin|].
  assert (Hsearch : forall st,
            stackLookup ScopeKeyLastOutFileTable st = None ->
            forall s0,
              scopeStack s0 = st ->
              scopeRoot s0 =
                frameStore ScopeKeyTmpFileID
                  (ObjInt
                     (match frameLookup ScopeKeyTmpFileID
                              (frameStore ScopeKeyLastOutFileTable
                                 (ObjTable tbl) (scopeRoot s)) with
                      | Some (ObjInt n) => n
                      | _ => 0
                      end + 1))
                  (frameStore ScopeKeyLastOutFileTable (ObjTable tbl)
                     (scopeRoot s)) ->
              Search ScopeKeyLastOutFileTable s0 = Ok (ObjTable tbl) s0).
  { intros st Hst s0 Hs0 Hr0. unfold Search, gets. rewrite Hs0, Hst, Hr0.
    reflexivity. }
  split; [|split; [reflexivity|]].
  - apply (Hsearch (scopeStack s) Hstack); reflexivity.
  - eapply loadTable_without_child.
    + apply (Hsearch ([] :: scopeStack s)); [exact Hstack | reflexivity..].
    + exact Ht.
    + eapply Hchild; eauto.
Qed.

End SingleProductions.

(* ------------------------------------------------------------------ *)
(** ** Schema changes write one table *)

#[export] Instance KeepRel_onlyAt tbl : KeepRel (onlyAt tbl).
Proof.
  split.
  - intros s. split; reflexivity.
  - intros s1 s2 s3 [a b] [c d]. split; [congruence|].
    intros p Hp. rewrite (d p Hp). apply b. exact Hp.
  - intros s s1 [a b]. split; [cbn; rewrite a; reflexivity | exact b].
  - intros s r. split; reflexivity.
Qed.

#[export] Instance KeepRel_touchesOnly tbl : KeepRel (touchesOnly tbl).
Proof.
  split.
  - intros s. split; reflexivity.
  - intros s1 s2 s3 [a b] [c d]. split; [congruence|].
    intros Hl p Hp. rewrite d; [apply b; assumption | rewrite a; exact Hl | exact Hp].
  - intros s s1 [a b]. split; [cbn; rewrite a; reflexivity | exact b].
  - intros s r. split; reflexivity.
Qed.

Lemma Keeps_onlyAt_StoreInRoot tbl k o : Keeps (onlyAt tbl) (StoreInRoot k o).
Proof. apply Keeps_modify. intros s. split; reflexivity. Qed.

Lemma Keeps_onlyAt_modifyTable tbl f : Keeps (onlyAt tbl) (modifyTable tbl f).
Proof.
  intros s u s' E. unfold modifyTable in E.
  run_inv E as t0 s1 Hd. apply derefTable_ok in Hd. destruct Hd as [_ ->].
  apply modify_ok in E. subst s'. split; [reflexivity|].
  intros p Hp. cbn [tableStore set_tableStore].
  apply nth_error_replaceNth_other. congruence.
Qed.

#[export] Hint Resolve Keeps_onlyAt_StoreInRoot Keeps_onlyAt_modifyTable : keeps.

Lemma Keeps_onlyAt_AllocGlobalID tbl k : Keeps (onlyAt tbl) (AllocGlobalID k).
Proof. unfold AllocGlobalID. keeps. Qed.

Lemma Keeps_onlyAt_GetRandomIndex tbl t : Keeps (onlyAt tbl) (GetRandomIndex t).
Proof. unfold GetRandomIndex. keeps. Qed.

#[export] Hint Resolve Keeps_onlyAt_AllocGlobalID Keeps_onlyAt_GetRandomIndex
  : keeps.

Lemma ToTable_ok o s p s' : ToTable o s = Ok p s' -> o = ObjTable p /\ s' = s.
Proof. destruct o; intros E; try discriminate. injection E as <- <-. auto. Qed.

(** A production that takes its table from the scope and then writes that
    table only. *)
Lemma current_table_only tbl (k : TablePtr -> M Fn) :
  (forall p, KeepsNode (onlyAt p) (k p)) ->
  KeepsFn (touchesOnly tbl)
    (NewFn (o <- Search ScopeKeyCurrentTable ;; p <- ToTable o ;; k p)).
Proof.
  intros Hk s out s' E. unfold NewFn in E. cbn [Gen] in E.
  run_inv E as g s3 Hg.
  run_inv Hg as o s1 Ho. unfold Search in Ho. gets_inv Ho.
  run_inv Hg as p s2 Hp. apply ToTable_ok in Hp. destruct Hp as [Ho ->].
  destruct (Hk _ _ _ _ Hg) as [[a b] Kg].
  destruct (Keeps_Eval Kg _ E) as [c d].
  split; [congruence|]. intros Hl. rewrite Hl in Ho. injection Ho as <-.
  intros q Hq. rewrite (d q Hq). apply b. exact Hq.
Qed.

Section SchemaChanges.
Context `{Helpers}.

Lemma current_table_only_weights tbl (k : Weight -> TablePtr -> M Fn) :
  (forall w p, KeepsNode (onlyAt p) (k w p)) ->
  KeepsFn (touchesOnly tbl)
    (NewFn (w <- weights ;;
            o <- Search ScopeKeyCurrentTable ;; p <- ToTable o ;; k w p)).
Proof.
  intros Hk s out s' E.
  apply (@current_table_only tbl (k (CtrlWeight (ctrl s))) (Hk _) s out s').
  exact E.
Qed.

Lemma KeepsFn_touchesOnly_addIndex tbl : KeepsFn (touchesOnly tbl) addIndex.
Proof.
  unfold addIndex. apply current_table_only_weights. intros w p. keeps.
Qed.

Lemma KeepsFn_touchesOnly_dropIndex tbl : KeepsFn (touchesOnly tbl) dropIndex.
Proof. unfold dropIndex. apply current_table_only. intros p. keeps. Qed.

Lemma KeepsFn_touchesOnly_addColumn tbl : KeepsFn (touchesOnly tbl) addColumn.
Proof.
  unfold addColumn. apply current_table_only_weights. intros w p. keeps.
Qed.

Lemma KeepsFn_touchesOnly_dropColumn tbl : KeepsFn (touchesOnly tbl) dropColumn.
Proof. unfold dropColumn. apply current_table_only. intros p. keeps. Qed.

Lemma KeepsFn_touchesOnly_alterColumn tbl :
  KeepsFn (touchesOnly tbl) alterColumn.
Proof.
  unfold alterColumn. apply current_table_only_weights. intros w p. keeps.
Qed.

(** X17: A schema change writes one table only, the one [ddlStmt] draws from the
    catalog and hands to its productions through the scope; the catalog
    itself is left as it was. *)
Theorem ddlStmt_writes_one_table (s : State) (out : string) (s' : State) :
  Eval ddlStmt s = Ok out s' ->
  exists tbl,
    In tbl (tables s) /\ tables s' = tables s /\
    forall p, p <> tbl ->
      nth_error (tableStore s') p = nth_error (tableStore s) p.
Proof.
  intros E. pose proof (Keeps_Eval KeepsFn_ddlStmt _ E) as (Hcat & _).
  apply Eval_ok in E. destruct E as (sz & E & ->).
  unfold ddlStmt, NewFn in E. cbn [Gen] in E.
  run_inv E as g s2 Hb.
  run_inv Hb as tbl s3 H3. apply GetRandTable_ok in H3. destruct H3 as [Hin ->].
  run_inv Hb as u s4 H4. apply modify_ok in H4.
  run_inv Hb as t s5 H5. apply derefTable_ok in H5. destruct H5 as [_ ->].
  run_inv Hb as c s6 H6. gets_inv H6. injection Hb as <- <-.
  assert (Hk : touchesOnly tbl s4 sz).
  { revert E. apply Keeps_Eval. apply KeepsFn_Or.
    repeat apply Forall_cons; try apply Forall_nil; try apply KeepsFn_If.
    - apply KeepsFn_touchesOnly_addColumn.
    - apply KeepsFn_touchesOnly_addIndex.
    - apply KeepsFn_touchesOnly_dropColumn.
    - apply KeepsFn_touchesOnly_dropIndex.
    - apply KeepsFn_touchesOnly_alterColumn. }
  exists tbl. split; [exact Hin|]. split; [exact Hcat|].
  destruct Hk as [_ Hk]. intros p Hp.
  cbn [tableStore popScope set_scopeStack]. rewrite (Hk ltac:(subst s4; reflexivity) p Hp).
  subst s4. reflexivity.
Qed.

End SchemaChanges.

(* ------------------------------------------------------------------ *)
(** ** The table a predicate is about *)

(** X18: [getTable] gives precedence to a multi-table query: when the scope
    holds the tables of one, the result is the first or the second of them,
    after one draw; only when it holds none is the result the current table,
    and then the state is untouched.  In every other case (a list with
    fewer than two tables, no current table) [getTable] does not return. *)
Theorem getTable_ok (s : State) (p : TablePtr) (s' : State) :
  getTable s = Ok p s' ->
  (exists tbs,
     scopeValue ScopeKeyCurrentMultiTable s = ObjTables tbs /\
     (nth_error tbs 0 = Some p \/ nth_error tbs 1 = Some p) /\
     s' = afterDraw s) \/
  (scopeValue ScopeKeyCurrentMultiTable s = ObjNil /\
   scopeValue ScopeKeyCurrentTable s = ObjTable p /\ s' = s).
Proof.
  intros E. unfold getTable in E.
  run_inv E as o s1 Ho. unfold Search in Ho. gets_inv Ho.
  fold (scopeValue ScopeKeyCurrentMultiTable s) in E.
  cbv zeta in E.
  destruct (scopeValue ScopeKeyCurrentMultiTable s) eqn:Hm; cbn [IsNil negb] in E.
  all: try (run_inv E as o' s2 Ho'; unfold Search in Ho'; gets_inv Ho';
            fold (scopeValue ScopeKeyCurrentMultiTable s) in E;
            rewrite Hm in E; run_inv E as tbs s3 Ht; discriminate Ht).
  - right. run_inv E as o' s2 Ho'. unfold Search in Ho'. gets_inv Ho'.
    apply ToTable_ok in E. destruct E as [Hc ->]. auto.
  - left. run_inv E as o' s2 Ho'. unfold Search in Ho'. gets_inv Ho'.
    fold (scopeValue ScopeKeyCurrentMultiTable s) in E. rewrite Hm in E.
    run_inv E as tbs s3 Ht. injection Ht as <- <-.
    run_inv E as b s4 Hb. unfold RandomBool in Hb.
    run_inv Hb as r s5 Hr. apply Intn_ok in Hr. destruct Hr as [_ ->].
    injection Hb as <- <-.
    eexists. split; [reflexivity|].
    unfold indexList in E.
    destruct (r =? 0);
      match type of E with
      | context [match ?x with _ => _ end] => destruct x eqn:Hn
      end; try discriminate E; injection E as <- <-.
    + split; [left; exact Hn | reflexivity].
    + split; [right; exact Hn | reflexivity].
Qed.

(* ------------------------------------------------------------------ *)
(** ** What the producer emits while it initializes *)

Lemma prefix_app a b : prefix a (a ++ b) = true.
Proof.
  induction a as [|c a IH]; simpl; [destruct b; reflexivity|].
  destruct (Ascii.ascii_dec c c); [exact IH | congruence].
Qed.

Lemma prefix_refl a : prefix a a = true.
Proof.
  induction a as [|c a IH]; simpl; [reflexivity|].
  destruct (Ascii.ascii_dec c c); [exact IH | congruence].
Qed.

Lemma prefix_joinTokens a rs :
  isEmptyStr a = false -> prefix a (joinTokens (a :: rs)) = true.
Proof.
  intros Ha. unfold joinTokens. cbn [filter]. rewrite Ha. cbn [negb].
  destruct (filter (fun s => negb (isEmptyStr s)) rs) as [|x l].
  - apply prefix_refl.
  - cbn [String.concat]. apply prefix_app.
Qed.

(** An [And] whose first child is a text starts with that text. *)
Lemma Eval_And_head a fs s out s' :
  isEmptyStr a = false ->
  Eval (And (Str a :: fs)) s = Ok out s' -> prefix a out = true.
Proof.
  intros Ha E. apply Eval_ok in E. destruct E as (s1 & E & _).
  unfold And in E. cbn [Gen evalAll] in E.
  run_inv E as rs s2 Hrs. injection E as <- _.
  run_inv Hrs as r s3 Hr. rewrite Eval_Str in Hr. injection Hr as <- <-.
  run_inv Hrs as rest s4 Hrest. injection Hrs as <- _.
  apply prefix_joinTokens. exact Ha.
Qed.

Section Initializing.
Context `{Helpers}.

Lemma createTable_emits s out s' :
  Eval createTable s = Ok out s' -> prefix "create table" out = true.
Proof.
  intros E. apply Eval_ok in E. destruct E as (sz & E & _).
  unfold createTable, NewFn in E. cbn [Gen] in E.
  run_inv E as g s9 Hb.
  run_inv Hb as w s1 H1. run_inv Hb as id s2 H2. run_inv Hb as tbl s3 H3.
  run_inv Hb as u s4 H4. run_inv Hb as c s5 H5. run_inv Hb as u' s6 H6.
  run_inv Hb as eColDefs s7 H7. run_inv Hb as ePartitionDef s8 H8.
  run_inv Hb as eIdxDefs s10 H10. run_inv Hb as t s11 H11.
  run_inv Hb as r s12 H12. injection Hb as <- <-.
  unfold createTableStmt in E. eapply Eval_And_head; [|exact E]. reflexivity.
Qed.

Lemma insertInto_emits s out s' :
  Eval insertInto s = Ok out s' -> prefix "insert into" out = true.
Proof.
  intros E. apply Eval_ok in E. destruct E as (sz & E & _).
  unfold insertInto, NewFn in E. cbn [Gen] in E.
  run_inv E as g s9 Hb.
  run_inv Hb as init s1 H1. run_inv Hb as u s2 H2. run_inv Hb as o s3 H3.
  destruct o as [tbl|]; [|discriminate Hb].
  run_inv Hb as t s4 H4. run_inv Hb as vals s5 H5. run_inv Hb as u' s6 H6.
  injection Hb as <- <-.
  eapply Eval_And_head; [|exact E]. reflexivity.
Qed.

(** X19: While the generator is initializing and nothing is deferred, a call of
    the producer emits a [create table] statement as long as the catalog
    holds fewer than [InitTableCount] tables, and an [insert into] statement
    afterwards. *)
Theorem Generate_initializing (s : State) (out : string) (s' : State) :
  todoSQLs s = [] -> initialized s = false ->
  Generate s = Ok out s' ->
  if len (tables s) <? InitTableCount (ctrl s)
  then prefix "create table" out = true
  else prefix "insert into" out = true.
Proof.
  intros Hq Hinit E. unfold Generate in E.
  apply Eval_ok in E. destruct E as (sz & E & _).
  unfold start, NewFn in E. cbn [Gen] in E.
  run_inv E as g s1 Hb.
  run_inv Hb as w s2 Hw. unfold weights in Hw. gets_inv Hw.
  run_inv Hb as todo s3 Hpop. apply PopOneTodoSQL_ok in Hpop.
  change (todoSQLs (pushScope s)) with (todoSQLs s) in Hpop.
  rewrite Hq in Hpop.
  destruct todo as [q|]; [destruct Hpop as (rest & Hr & _); discriminate Hr|].
  destruct Hpop as [_ ->].
  run_inv Hb as init s4 Hi. unfold Initialized in Hi. gets_inv Hi.
  change (initialized (pushScope s)) with (initialized s) in Hb.
  rewrite Hinit in Hb. cbn [negb] in Hb.
  run_inv Hb as e s5 He. run_inv Hb as met s6 Hm. run_inv Hb as u s7 Hu.
  injection Hb as <- <-. rewrite Eval_Str in E. injection E as <- _.
  apply Eval_ok in He. destruct He as (sy & He & _).
  unfold initStart, NewFn in He. cbn [Gen] in He.
  run_inv He as g' s8 Hb'.
  run_inv Hb' as init' s9 Hi'. unfold Initialized in Hi'. gets_inv Hi'.
  run_inv Hb' as u' s10 Ha. apply Assert_ok in Ha. destruct Ha as [_ ->].
  run_inv Hb' as ts s11 Hts. gets_inv Hts.
  run_inv Hb' as c s12 Hc. gets_inv Hc.
  change (tables (pushScope (pushScope s))) with (tables s) in Hb'.
  change (ctrl (pushScope (pushScope s))) with (ctrl s) in Hb'.
  destruct (len (tables s) <? InitTableCount (ctrl s));
    injection Hb' as <- <-.
  - eapply createTable_emits. exact He.
  - eapply insertInto_emits. exact He.
Qed.

End Initializing.

(* ================================================================== *)
(** ** The further properties at the demonstration generator *)

Lemma runInteractTest_same_answer_witness :
  runInteractTest dbMissing dbMissing "admin check table t0" true = None /\
  runInteractTest dbAnswers dbAnswers "select 1" false = None.
Proof.
  split.
  - exact (runInteractTest_same_answer dbMissing dbMissing
             "admin check table t0" true eq_refl).
  - exact (runInteractTest_same_answer dbAnswers dbAnswers "select 1" false
             eq_refl).
Defined.

Lemma runInteractTest_both_fail_witness :
  runInteractTest dbMissing dbMissing "select * from t0" false = None.
Proof.
  exact (runInteractTest_both_fail dbMissing dbMissing "select * from t0"
           false eq_refl eq_refl).
Defined.

Lemma runInteractTest_pass_sym_witness :
  runInteractTest dbOneRow dbTwoRows "delete from t0" true = None <->
  runInteractTest dbTwoRows dbOneRow "delete from t0" true = None.
Proof.
  apply runInteractTest_pass_sym. intros r1 r2 E1 E2.
  injection E1 as <-. injection E2 as <-. reflexivity.
Defined.

Lemma adminCheck_isAdminCheck_witness :
  exists out s',
    Eval adminCheck oneEmptyTable = Ok out s' /\
    isAdminCheck out = negb (EnableTestTiFlash (ctrl oneEmptyTable)).
Proof.
  eexists. eexists. split; [vm_compute; reflexivity|].
  eapply (@adminCheck_isAdminCheck oneEmptyTable). vm_compute. reflexivity.
Defined.

Lemma runGenerator_keeps_options_witness :
  exists outs s',
    runGenerator (H := demoHelpers) 3 oneInitialTable = Ok outs s' /\
    MaxTableNum (ctrl s') = MaxTableNum (ctrl oneInitialTable) /\
    CtrlWeight (ctrl s') = CtrlWeight (ctrl oneInitialTable).
Proof.
  eexists. eexists. split; [vm_compute; reflexivity|].
  assert (K := @runGenerator_keeps_options demoHelpers 3%nat oneInitialTable).
  edestruct K as (_ & _ & Hm & _ & _ & _ & _ & _ & Hw);
    [vm_compute; reflexivity|]. split; [exact Hm | exact Hw].
Defined.

Lemma runGenerator_stays_initialized_witness :
  exists outs s',
    runGenerator (H := demoHelpers) 2 initializedTable = Ok outs s' /\
    initialized s' = true.
Proof.
  eexists. eexists. split; [vm_compute; reflexivity|].
  eapply (@runGenerator_stays_initialized demoHelpers 2%nat initializedTable);
    [reflexivity | vm_compute; reflexivity].
Defined.

Lemma runGenerator_appends_witness :
  exists outs s' added,
    runGenerator (H := demoHelpers) 3 oneInitialTable = Ok outs s' /\
    tables s' = (tables oneInitialTable ++ added)%list /\
    (length added <= 3)%nat.
Proof.
  eassert (E : runGenerator (H := demoHelpers) 3 oneInitialTable = Ok _ _)
    by (vm_compute; reflexivity).
  destruct (@runGenerator_appends demoHelpers 3%nat oneInitialTable _ _ E)
    as (added & Ht & Hl).
  eexists. eexists. exists added. split; [exact E|]. split; assumption.
Defined.

Lemma createTable_records_index_witness :
  exists out s',
    Eval (createTable (H := demoHelpers)) oneInitialTable = Ok out s' /\
    exists tbl t,
      tables s' = (tables oneInitialTable ++ [tbl])%list /\
      nth_error (tableStore s') tbl = Some t /\ Indices t <> [].
Proof.
  eexists. eexists. split; [vm_compute; reflexivity|].
  eapply (@createTable_records_index demoHelpers oneInitialTable).
  vm_compute. reflexivity.
Defined.

Lemma createTable_defers_tiflash_witness :
  exists out s',
    Eval (createTable (H := demoHelpers)) oneEmptyTableTiFlash = Ok out s' /\
    exists tbl t,
      tables s' = (tables oneEmptyTableTiFlash ++ [tbl])%list /\
      nth_error (tableStore s') tbl = Some t /\
      todoSQLs s' =
        (todoSQLs oneEmptyTableTiFlash ++
         tiflashStatements (ctrl oneEmptyTableTiFlash) (TblName t))%list.
Proof.
  eexists. eexists. split; [vm_compute; reflexivity|].
  eapply (@createTable_defers_tiflash demoHelpers oneEmptyTableTiFlash).
  vm_compute. reflexivity.
Defined.

Lemma commonDelete_panics_without_weights_witness :
  exists msg,
    Eval (commonDelete (H := demoHelpers)) withoutDeleteWeights = Panic msg.
Proof.
  apply (@commonDelete_panics_without_weights demoHelpers withoutDeleteWeights).
  vm_compute. discriminate.
Defined.

Lemma switchClustered_tracks_witness :
  exists out s',
    Eval switchClustered oneEmptyTable = Ok out s' /\
    ((out = "set @@global.tidb_enable_clustered_index = 0" /\
      enabledClustered s' = false) \/
     (out = "set @@global.tidb_enable_clustered_index = 1" /\
      enabledClustered s' = true)).
Proof.
  eexists. eexists. split; [vm_compute; reflexivity|].
  eapply (@switchClustered_tracks oneEmptyTable). vm_compute. reflexivity.
Defined.

Lemma queryPrepare_defers_witness :
  exists s',
    Eval (queryPrepare (H := demoHelpersWithParams)) onePrepared =
      Ok "set @u1=1" s' /\
    todoSQLs s' = ["set @u2=2"; "execute p0 using @u1,@u2"].
Proof.
  eexists. split; [vm_compute; reflexivity|].
  edestruct (@queryPrepare_defers demoHelpersWithParams onePrepared)
    as (p & prep & Hin & Hp & Hq); [vm_compute; reflexivity|].
  destruct Hin as [<-|[]]. injection Hp as <-. vm_compute. reflexivity.
Defined.

Lemma selectIntoOutFile_then_loadTable_witness :
  exists out s1,
    Eval (selectIntoOutFile (H := demoHelpers)) oneEmptyTable = Ok out s1 /\
    exists p,
      In p (tables oneEmptyTable) /\
      Search ScopeKeyLastOutFileTable s1 = Ok (ObjTable p) s1 /\
      Enabled (If (negb (IsNil (ObjTable p))) (loadTable (H := demoHelpers)))
        = true /\
      exists msg, Eval (loadTable (H := demoHelpers)) s1 = Panic msg.
Proof.
  eexists. eexists. split; [vm_compute; reflexivity|].
  eapply (@selectIntoOutFile_then_loadTable demoHelpers oneEmptyTable).
  - reflexivity.
  - intros p t [<-|[]] Ht. vm_compute in Ht. injection Ht as <-. reflexivity.
  - vm_compute. reflexivity.
Defined.

Lemma ddlStmt_writes_one_table_witness :
  exists out s',
    Eval (ddlStmt (H := demoHelpers)) oneEmptyTable = Ok out s' /\
    exists tbl,
      In tbl (tables oneEmptyTable) /\ tables s' = tables oneEmptyTable /\
      forall p, p <> tbl ->
        nth_error (tableStore s') p = nth_error (tableStore oneEmptyTable) p.
Proof.
  eexists. eexists. split; [vm_compute; reflexivity|].
  eapply (@ddlStmt_writes_one_table demoHelpers oneEmptyTable).
  vm_compute. reflexivity.
Defined.

Lemma getTable_ok_witness :
  (exists p s', getTable insideStatement = Ok p s' /\
     scopeValue ScopeKeyCurrentTable insideStatement = ObjTable p) /\
  (exists p s', getTable insideJoin = Ok p s' /\ s' = afterDraw insideJoin).
Proof.
  split.
  - eexists. eexists. split; [vm_compute; reflexivity|].
    destruct (@getTable_ok insideStatement 0%nat insideStatement eq_refl)
      as [(tbs & Hm & _) | (_ & Hc & _)]; [discriminate Hm | exact Hc].
  - eexists. eexists. split; [vm_compute; reflexivity|].
    edestruct (@getTable_ok insideJoin) as [(tbs & _ & _ & Hs) | (Hm & _)];
      [vm_compute; reflexivity | exact Hs | discriminate Hm].
Defined.

Lemma Generate_initializing_witness :
  exists out s',
    Generate (H := demoHelpers) oneInitialTable = Ok out s' /\
    prefix "create table" out = true.
Proof.
  eassert (E : Generate (H := demoHelpers) oneInitialTable = Ok _ _)
    by (vm_compute; reflexivity).
  eexists. eexists. split; [exact E|].
  exact (@Generate_initializing demoHelpers oneInitialTable _ _
           eq_refl eq_refl E).
Defined.
